(** * vulkpy: the asynchronous dispatch layer of [vkarray.py]

    A shallow embedding of [vulkpy/vkarray.py]: the class [GPU] with its
    memoised [_createOp] and its [_submit], and the class [Array] with its
    kernel constants, its shape check, its launchers, its arithmetic,
    comparison, unary, power, clamp and matrix-multiply methods, [wait]
    and the host accessors [__getitem__], [__setitem__], [__str__] and
    [__array__].  ([flush], [reshape] and [__repr__] submit nothing and are
    left out.)

    Python objects live in a heap indexed by references, so that aliasing
    ([a + a], [a += a]) is the aliasing of the source.  A method is a
    function in a state-and-exception monad: an exception leaves the state
    as it was when it was raised.  The calls that reach the compiled
    extension [_vkarray], and the host accesses to a buffer's view, are
    recorded in order in a trace.

    The file has three parts: the embedding of the source, the vocabulary
    in which the specification is stated, and the lemmas and theorems. *)

From stdpp Require Import gmap strings list.

Open Scope string_scope.
Open Scope list_scope.
Open Scope Z_scope.

(** ** Values *)

(** A Python [float] handed to a kernel as a parameter.  This layer never
    computes with scalars, it only packs them: a scalar is represented by
    the bit pattern of its IEEE-754 binary64 encoding. *)
Definition scalar : Type := Z.

(** References to [Array] objects and backend handles. *)
Definition ref : Type := nat.
Definition gpu_id : Type := nat.
Definition buffer_id : Type := nat.
Definition op_id : Type := nat.
Definition job_id : Type := nat.

(** Modelled from the spec: the parameter packings of [_vkarray]
    ([VectorParams], [VectorScalarParams], [VectorScalar2Params],
    [MatMulParams]) are value types (size only; size and one scalar; size
    and two scalars; rows, contraction length, columns) that are passed by
    value and are part of the cache key, so two packings with the same
    fields are the same key. *)
Inductive Params : Type :=
| VectorParams (size : Z)
| VectorScalarParams (size : Z) (scalar0 : scalar)
| VectorScalar2Params (size : Z) (scalar0 scalar1 : scalar)
| MatMulParams (rowA contractSize columnB : Z).

Global Instance Params_eq_dec : EqDecision Params.
Proof. solve_decision. Defined.

Definition Params_encode (p : Params) : Z + Z * Z + Z * Z * Z + Z * Z * Z :=
  match p with
  | VectorParams n => inl (inl (inl n))
  | VectorScalarParams n x => inl (inl (inr (n, x)))
  | VectorScalar2Params n x y => inl (inr (n, x, y))
  | MatMulParams r c k => inr (r, c, k)
  end.

Definition Params_decode (x : Z + Z * Z + Z * Z * Z + Z * Z * Z) : Params :=
  match x with
  | inl (inl (inl n)) => VectorParams n
  | inl (inl (inr (n, x))) => VectorScalarParams n x
  | inl (inr (n, x, y)) => VectorScalar2Params n x y
  | inr (r, c, k) => MatMulParams r c k
  end.

Global Instance Params_countable : Countable Params.
Proof.
  apply (inj_countable' Params_encode Params_decode).
  intros []; reflexivity.
Defined.

(** [_vkarray.DataShape(x, y, z)]. *)
Record DataShape : Type := mkDataShape { ds_x : Z; ds_y : Z; ds_z : Z }.

Global Instance DataShape_eq_dec : EqDecision DataShape.
Proof. solve_decision. Defined.

(** The arguments of [GPU._createOp] after [self]. *)
Record OpSig : Type := mkOpSig {
  sig_spv : string;
  sig_n : nat;
  sig_params : Params;
  sig_local_size_x : Z;
  sig_local_size_y : Z;
  sig_local_size_z : Z
}.

Global Instance OpSig_eq_dec : EqDecision OpSig.
Proof. solve_decision. Defined.

Global Instance OpSig_countable : Countable OpSig.
Proof.
  apply (inj_countable'
    (fun s => (sig_spv s, sig_n s, sig_params s,
               sig_local_size_x s, sig_local_size_y s, sig_local_size_z s))
    (fun t => match t with
              | (spv, n, p, x, y, z) => mkOpSig spv n p x y z
              end)).
  intros []; reflexivity.
Defined.

(** An index into the host view [self.array]: an integer on the first
    axis, a slice of the first axis, or [...]. *)
Inductive Key : Type :=
| KInt (i : Z)
| KSlice (start stop : option Z)
| KEllipsis.

Global Instance Key_eq_dec : EqDecision Key.
Proof. solve_decision. Defined.

(** A host [numpy] array given as [data]: its shape; [np.ravel] of it has
    as many elements as the product of the shape. *)
Record ndarray : Type := mkNdarray { nd_shape : list Z }.

(** Modelled from the spec: a [_vkarray.Buffer] is a handle to device
    memory of a fixed element count, created by [createBuffer] or
    [toBuffer]; [size()] returns that count. *)
Record Buffer : Type := mkBuffer { buf_id : buffer_id; buf_size : Z }.

Global Instance Buffer_eq_dec : EqDecision Buffer.
Proof. solve_decision. Defined.

(** ** Exceptions *)

(** The two [ValueError]s of the source (incompatible shapes; neither
    [data] nor [shape]), the [IndexError] of an index out of range, and
    [DanglingRef] for a reference to no live object, which Python cannot
    form: it keeps [load] total. *)
Inductive Exn : Type :=
| ValueError_IncompatibleShapes (self_shape other_shape : list Z)
| ValueError_DataOrShape
| IndexError
| DanglingRef.

(** ** Objects and state *)

(** An [Array] object: [self._gpu], [self.shape], [self.buffer] (of which
    [self.array] is the host view) and [self.job]. *)
Record Array : Type := mkArray {
  _gpu : gpu_id;
  shape : list Z;
  buffer : Buffer;
  job : option job_id
}.

Global Instance Array_eq_dec : EqDecision Array.
Proof. solve_decision. Defined.

(** The calls that reach [_vkarray] and the host accesses to a buffer's
    view, in the order in which they are made. *)
Inductive Event : Type :=
| EvCreateBuffer (g : gpu_id) (b : Buffer)
| EvToBuffer (g : gpu_id) (b : Buffer)
| EvCreateOp (g : gpu_id) (h : op_id) (sg : OpSig)
| EvSubmit (g : gpu_id) (h : op_id) (buffers : list Buffer)
    (dshape : DataShape) (params : Params) (semaphores : list job_id)
    (j : job_id)
| EvJobWait (j : job_id)
| EvHostRead (b : Buffer) (k : Key)
| EvHostWrite (b : Buffer) (k : Key) (v : scalar).

Global Instance Event_eq_dec : EqDecision Event.
Proof. solve_decision. Defined.

Record State : Type := mkState {
  heap : gmap ref Array;                   (* the live Array objects *)
  op_cache : gmap (gpu_id * OpSig) op_id;  (* functools.cache of _createOp *)
  compiled : gmap op_id (gpu_id * OpSig);  (* the Ops the backend created *)
  buffers : gset buffer_id;                (* the buffers it allocated *)
  jobs : gset job_id;                      (* the jobs it returned *)
  trace : list Event
}.

Definition empty_state : State := mkState ∅ ∅ ∅ ∅ ∅ [].

Definition set_heap (f : gmap ref Array -> gmap ref Array) (s : State) : State :=
  mkState (f (heap s)) (op_cache s) (compiled s) (buffers s) (jobs s) (trace s).
Definition set_op_cache
    (f : gmap (gpu_id * OpSig) op_id -> gmap (gpu_id * OpSig) op_id)
    (s : State) : State :=
  mkState (heap s) (f (op_cache s)) (compiled s) (buffers s) (jobs s) (trace s).
Definition set_compiled
    (f : gmap op_id (gpu_id * OpSig) -> gmap op_id (gpu_id * OpSig))
    (s : State) : State :=
  mkState (heap s) (op_cache s) (f (compiled s)) (buffers s) (jobs s) (trace s).
Definition set_buffers (f : gset buffer_id -> gset buffer_id) (s : State) : State :=
  mkState (heap s) (op_cache s) (compiled s) (f (buffers s)) (jobs s) (trace s).
Definition set_jobs (f : gset job_id -> gset job_id) (s : State) : State :=
  mkState (heap s) (op_cache s) (compiled s) (buffers s) (f (jobs s)) (trace s).
Definition add_event (e : Event) (s : State) : State :=
  mkState (heap s) (op_cache s) (compiled s) (buffers s) (jobs s) (trace s ++ [e]).

(** ** The monad of methods *)

Inductive Res (A : Type) : Type :=
| Ok (a : A)
| Raise (e : Exn).
Arguments Ok {A} a.
Arguments Raise {A} e.

Definition M (A : Type) : Type := State -> Res A * State.

Definition ret {A} (a : A) : M A := fun s => (Ok a, s).
Definition raise {A} (e : Exn) : M A := fun s => (Raise e, s).
Definition bind {A B} (m : M A) (f : A -> M B) : M B :=
  fun s => match m s with
           | (Ok a, s') => f a s'
           | (Raise e, s') => (Raise e, s')
           end.
Definition get_state : M State := fun s => (Ok s, s).
Definition modify (f : State -> State) : M unit := fun s => (Ok tt, f s).

Declare Scope m_scope.
Delimit Scope m_scope with M.
Notation "x <- m ;; k" := (bind m (fun x => k))
  (at level 100, m at next level, right associativity) : m_scope.
Notation "m ;;; k" := (bind m (fun _ => k))
  (at level 100, right associativity) : m_scope.
Open Scope m_scope.

Definition emit (e : Event) : M unit := modify (add_event e).

(** Reading and writing the attributes of an object. *)
Definition load (r : ref) : M Array :=
  fun s => match heap s !! r with
           | Some a => (Ok a, s)
           | None => (Raise DanglingRef, s)
           end.

Fixpoint load_all (rs : list ref) : M (list Array) :=
  match rs with
  | [] => ret []
  | r :: rs' => a <- load r ;; l <- load_all rs' ;; ret (a :: l)
  end.

Definition set_job (r : ref) (j : option job_id) : M unit :=
  a <- load r ;;
  modify (set_heap <[r := mkArray (_gpu a) (shape a) (buffer a) j]>).

(** A new instance: a reference that no live object has. *)
Definition new_object (a : Array) : M ref :=
  fun s => let r := fresh (dom (heap s)) in (Ok r, set_heap <[r := a]> s).

(** ** The backend: the compiled extension [_vkarray], which is not part
    of the Python sources.  Failures of the device are outside this
    model. *)
Module Backend.

(** Modelled from the spec: [createBuffer(elementCount)] returns the
    handle of a new buffer of that many elements. *)
Definition createBuffer (g : gpu_id) (n : Z) : M Buffer :=
  fun s => let b := mkBuffer (fresh (buffers s)) n in
           (Ok b, add_event (EvCreateBuffer g b)
                    (set_buffers (union {[buf_id b]}) s)).

(** Modelled from the spec: [toBuffer(hostData)] copies host data into a
    new buffer and returns its handle; [n] is the length of the data. *)
Definition toBuffer (g : gpu_id) (n : Z) : M Buffer :=
  fun s => let b := mkBuffer (fresh (buffers s)) n in
           (Ok b, add_event (EvToBuffer g b)
                    (set_buffers (union {[buf_id b]}) s)).

(** Modelled from the spec: [createOp] compiles the kernel for the given
    buffer count, parameters and workgroup dimensions and returns the
    handle of the new operation, which is immutable. *)
Definition createOp (g : gpu_id) (n : nat) (params : Params) (spv : string)
    (local_size_x local_size_y local_size_z : Z) : M op_id :=
  fun s => let h := fresh (dom (compiled s)) in
           let sg := mkOpSig spv n params
                       local_size_x local_size_y local_size_z in
           (Ok h, add_event (EvCreateOp g h sg)
                    (set_compiled <[h := (g, sg)]> s)).

(** Modelled from the spec: [submit] issues a non-blocking submission of
    the operation on the buffers, with the parameters and the semaphores
    to wait for, and returns a new job at once. *)
Definition submit (g : gpu_id) (op : op_id) (infos : list Buffer)
    (dshape : DataShape) (params : Params) (semaphores : list job_id)
    : M job_id :=
  fun s => let j := fresh (jobs s) in
           (Ok j, add_event (EvSubmit g op infos dshape params semaphores j)
                    (set_jobs (union {[j]}) s)).

(** Modelled from the spec: [Job.wait()] blocks until the device reports
    the job complete. *)
Definition wait (j : job_id) : M unit := emit (EvJobWait j).

End Backend.

(** ** class GPU *)
Module GPU.

(** [@functools.cache]: the arguments, [self] included, are the key; the
    body runs on a miss only and its result is stored. *)
Definition functools_cache (key : gpu_id * OpSig) (body : M op_id) : M op_id :=
  s <- get_state ;;
  match op_cache s !! key with
  | Some h => ret h
  | None =>
      h <- body ;;
      modify (set_op_cache <[key := h]>) ;;;
      ret h
  end.

Definition _createOp (self : gpu_id) (spv : string) (n : nat)
    (params : Params) (local_size_x local_size_y local_size_z : Z)
    : M op_id :=
  functools_cache
    (self, mkOpSig spv n params local_size_x local_size_y local_size_z)
    (Backend.createOp self n params spv
       local_size_x local_size_y local_size_z).

Definition _submit (self : gpu_id) (spv : string)
    (local_size_x local_size_y local_size_z : Z)
    (buffers : list Buffer) (shape : DataShape) (params : Params)
    (semaphores : list job_id) : M job_id :=
  op <- _createOp self spv (length buffers) params
          local_size_x local_size_y local_size_z ;;
  size <- match buffers with
          | b :: _ => ret (buf_size b)
          | [] => raise IndexError
          end ;;
  Backend.submit self op buffers shape params semaphores.

End GPU.

(** ** class Array *)

(** [os.path.join] on POSIX paths without a trailing separator. *)
Definition os_path_join (a b : string) : string := a +:+ "/" +:+ b.

(** [shader_dir]: the directory [shader] next to the module, written
    relative to the directory that holds the package. *)
Definition shader_dir : string := os_path_join "vulkpy" "shader".

(** The right operand of a binary operator: an [Array] or a [float]. *)
Inductive operand : Type :=
| OArray (r : ref)
| OFloat (x : scalar).

(** What materialisation hands to the host: the view [self.array], one of
    its items, or its rendering as text. *)
Inductive HostVal : Type :=
| HostArray (b : Buffer)
| HostItem (b : Buffer) (k : Key)
| HostStr (b : Buffer).

Module Array.

Definition _add : string := os_path_join shader_dir "add.spv".
Definition _sub : string := os_path_join shader_dir "sub.spv".
Definition _mul : string := os_path_join shader_dir "mul.spv".
Definition _div : string := os_path_join shader_dir "div.spv".
Definition _iadd : string := os_path_join shader_dir "iadd.spv".
Definition _isub : string := os_path_join shader_dir "isub.spv".
Definition _imul : string := os_path_join shader_dir "imul.spv".
Definition _idiv : string := os_path_join shader_dir "idiv.spv".
Definition _add_scalar : string := os_path_join shader_dir "add_scalar.spv".
Definition _sub_scalar : string := os_path_join shader_dir "sub_scalar.spv".
Definition _mul_scalar : string := os_path_join shader_dir "mul_scalar.spv".
Definition _div_scalar : string := os_path_join shader_dir "div_scalar.spv".
Definition _iadd_scalar : string := os_path_join shader_dir "iadd_scalar.spv".
Definition _isub_scalar : string := os_path_join shader_dir "isub_scalar.spv".
Definition _imul_scalar : string := os_path_join shader_dir "imul_scalar.spv".
Definition _idiv_scalar : string := os_path_join shader_dir "idiv_scalar.spv".
Definition _rsub_scalar : string := os_path_join shader_dir "rsub_scalar.spv".
Definition _rdiv_scalar : string := os_path_join shader_dir "rdiv_scalar.spv".
Definition _matmul : string := os_path_join shader_dir "matmul.spv".
Definition _max : string := os_path_join shader_dir "max.spv".
Definition _min : string := os_path_join shader_dir "min.spv".
Definition _imax : string := os_path_join shader_dir "imax.spv".
Definition _imin : string := os_path_join shader_dir "imin.spv".
Definition _max_scalar : string := os_path_join shader_dir "max_scalar.spv".
Definition _min_scalar : string := os_path_join shader_dir "min_scalar.spv".
Definition _imax_scalar : string := os_path_join shader_dir "imax_scalar.spv".
Definition _imin_scalar : string := os_path_join shader_dir "imin_scalar.spv".
Definition _abs : string := os_path_join shader_dir "abs.spv".
Definition _sign : string := os_path_join shader_dir "sign.spv".
Definition _iabs : string := os_path_join shader_dir "iabs.spv".
Definition _isign : string := os_path_join shader_dir "isign.spv".
Definition _sin : string := os_path_join shader_dir "sin.spv".
Definition _cos : string := os_path_join shader_dir "cos.spv".
Definition _tan : string := os_path_join shader_dir "tan.spv".
Definition _isin : string := os_path_join shader_dir "isin.spv".
Definition _icos : string := os_path_join shader_dir "icos.spv".
Definition _itan : string := os_path_join shader_dir "itan.spv".
Definition _asin : string := os_path_join shader_dir "asin.spv".
Definition _acos : string := os_path_join shader_dir "acos.spv".
Definition _atan : string := os_path_join shader_dir "atan.spv".
Definition _iasin : string := os_path_join shader_dir "iasin.spv".
Definition _iacos : string := os_path_join shader_dir "iacos.spv".
Definition _iatan : string := os_path_join shader_dir "iatan.spv".
Definition _sinh : string := os_path_join shader_dir "sinh.spv".
Definition _cosh : string := os_path_join shader_dir "cosh.spv".
Definition _tanh : string := os_path_join shader_dir "tanh.spv".
Definition _isinh : string := os_path_join shader_dir "isinh.spv".
Definition _icosh : string := os_path_join shader_dir "icosh.spv".
Definition _itanh : string := os_path_join shader_dir "itanh.spv".
Definition _asinh : string := os_path_join shader_dir "asinh.spv".
Definition _acosh : string := os_path_join shader_dir "acosh.spv".
Definition _atanh : string := os_path_join shader_dir "atanh.spv".
Definition _iasinh : string := os_path_join shader_dir "iasinh.spv".
Definition _iacosh : string := os_path_join shader_dir "iacosh.spv".
Definition _iatanh : string := os_path_join shader_dir "iatanh.spv".
Definition _exp : string := os_path_join shader_dir "exp.spv".
Definition _log : string := os_path_join shader_dir "log.spv".
Definition _iexp : string := os_path_join shader_dir "iexp.spv".
Definition _ilog : string := os_path_join shader_dir "ilog.spv".
Definition _exp2 : string := os_path_join shader_dir "exp2.spv".
Definition _log2 : string := os_path_join shader_dir "log2.spv".
Definition _iexp2 : string := os_path_join shader_dir "iexp2.spv".
Definition _ilog2 : string := os_path_join shader_dir "ilog2.spv".
Definition _sqrt : string := os_path_join shader_dir "sqrt.spv".
Definition _invsqrt : string := os_path_join shader_dir "invsqrt.spv".
Definition _isqrt : string := os_path_join shader_dir "isqrt.spv".
Definition _iinvsqrt : string := os_path_join shader_dir "iinvsqrt.spv".
Definition _pow : string := os_path_join shader_dir "pow.spv".
Definition _ipow : string := os_path_join shader_dir "ipow.spv".
Definition _pow_scalar : string := os_path_join shader_dir "pow_scalar.spv".
Definition _ipow_scalar : string := os_path_join shader_dir "ipow_scalar.spv".
Definition _rpow_scalar : string := os_path_join shader_dir "rpow_scalar.spv".
Definition _clamp : string := os_path_join shader_dir "clamp.spv".
Definition _iclamp : string := os_path_join shader_dir "iclamp.spv".
Definition _clamp_sv : string := os_path_join shader_dir "clamp_sv.spv".
Definition _iclamp_sv : string := os_path_join shader_dir "iclamp_sv.spv".
Definition _clamp_vs : string := os_path_join shader_dir "clamp_vs.spv".
Definition _iclamp_vs : string := os_path_join shader_dir "iclamp_vs.spv".
Definition _clamp_ss : string := os_path_join shader_dir "clamp_ss.spv".
Definition _iclamp_ss : string := os_path_join shader_dir "iclamp_ss.spv".

(** [int(np.asarray(shape).prod())]. *)
Definition prod (shape : list Z) : Z := foldr Z.mul 1 shape.

(** [np.array_equal] on two shapes: same length and same entries. *)
Definition np_array_equal (a b : list Z) : bool := bool_decide (a = b).

(** [Array(gpu, data=..., shape=...)]. *)
Definition __init__ (gpu : gpu_id) (data : option ndarray)
    (shape : option (list Z)) : M ref :=
  match data, shape with
  | Some d, _ =>
      b <- Backend.toBuffer gpu (prod (nd_shape d)) ;;
      new_object (mkArray gpu (nd_shape d) b None)
  | None, Some sh =>
      b <- Backend.createBuffer gpu (prod sh) ;;
      new_object (mkArray gpu sh b None)
  | None, None => raise ValueError_DataOrShape
  end.

Definition _check_shape (self other : ref) : M unit :=
  a <- load self ;;
  b <- load other ;;
  if negb (np_array_equal (shape a) (shape b))
  then raise (ValueError_IncompatibleShapes (shape a) (shape b))
  else ret tt.

(** [[b.job.getSemaphore() for b in buffers if b.job is not None]]: a
    semaphore is named by the job that signals it. *)
Definition semaphores_of (bs : list Array) : list job_id := omap job bs.

Definition _opVec (self : ref) (spv : string) (buffers : list ref) : M job_id :=
  a <- load self ;;
  let size := buf_size (buffer a) in
  bs <- load_all buffers ;;
  GPU._submit (_gpu a) spv 64 1 1
    (map buffer bs)
    (mkDataShape size 1 1)
    (VectorParams size)
    (semaphores_of bs).

Definition _opVec3 (self : ref) (spv : string) (other : ref) : M ref :=
  _check_shape self other ;;;
  a <- load self ;;
  ret_ <- __init__ (_gpu a) None (Some (shape a)) ;;
  j <- _opVec self spv [self; other; ret_] ;;
  set_job ret_ (Some j) ;;;
  ret ret_.

Definition _opVec2 (self : ref) (spv : string) (other : option ref)
    : M (option ref) :=
  match other with
  | Some o =>
      _check_shape self o ;;;
      j <- _opVec self spv [self; o] ;;
      set_job self (Some j) ;;;
      ret None
  | None =>
      a <- load self ;;
      ret_ <- __init__ (_gpu a) None (Some (shape a)) ;;
      j <- _opVec self spv [self; ret_] ;;
      set_job ret_ (Some j) ;;;
      ret (Some ret_)
  end.

Definition _opVec1 (self : ref) (spv : string) : M unit :=
  j <- _opVec self spv [self] ;;
  set_job self (Some j).

Definition _opVecScalar (self : ref) (spv : string) (buffers : list ref)
    (scalar0 : scalar) : M job_id :=
  a <- load self ;;
  let size := buf_size (buffer a) in
  bs <- load_all buffers ;;
  GPU._submit (_gpu a) spv 64 1 1
    (map buffer bs)
    (mkDataShape size 1 1)
    (VectorScalarParams size scalar0)
    (semaphores_of bs).

Definition _opVecScalar2 (self : ref) (spv : string) (other : scalar) : M ref :=
  a <- load self ;;
  ret_ <- __init__ (_gpu a) None (Some (shape a)) ;;
  j <- _opVecScalar self spv [self; ret_] other ;;
  set_job ret_ (Some j) ;;;
  ret ret_.

Definition _opVecScalar1 (self : ref) (spv : string) (other : scalar) : M unit :=
  j <- _opVecScalar self spv [self] other ;;
  set_job self (Some j).

Definition _opVec2Scalar (self : ref) (spv : string) (buffers : list ref)
    (scalars : scalar * scalar) : M job_id :=
  a <- load self ;;
  let size := buf_size (buffer a) in
  bs <- load_all buffers ;;
  GPU._submit (_gpu a) spv 64 1 1
    (map buffer bs)
    (mkDataShape size 1 1)
    (VectorScalar2Params size (fst scalars) (snd scalars))
    (semaphores_of bs).


Definition __add__ (self : ref) (other : operand) : M ref :=
  match other with
  | OArray o => _opVec3 self _add o
  | OFloat x => _opVecScalar2 self _add_scalar x
  end.


Definition __sub__ (self : ref) (other : operand) : M ref :=
  match other with
  | OArray o => _opVec3 self _sub o
  | OFloat x => _opVecScalar2 self _sub_scalar x
  end.


Definition __mul__ (self : ref) (other : operand) : M ref :=
  match other with
  | OArray o => _opVec3 self _mul o
  | OFloat x => _opVecScalar2 self _mul_scalar x
  end.


Definition __truediv__ (self : ref) (other : operand) : M ref :=
  match other with
  | OArray o => _opVec3 self _div o
  | OFloat x => _opVecScalar2 self _div_scalar x
  end.


Definition __iadd__ (self : ref) (other : operand) : M ref :=
  match other with
  | OArray o => _opVec2 self _iadd (Some o) ;;; ret self
  | OFloat x => _opVecScalar1 self _iadd_scalar x ;;; ret self
  end.


Definition __isub__ (self : ref) (other : operand) : M ref :=
  match other with
  | OArray o => _opVec2 self _isub (Some o) ;;; ret self
  | OFloat x => _opVecScalar1 self _isub_scalar x ;;; ret self
  end.


Definition __imul__ (self : ref) (other : operand) : M ref :=
  match other with
  | OArray o => _opVec2 self _imul (Some o) ;;; ret self
  | OFloat x => _opVecScalar1 self _imul_scalar x ;;; ret self
  end.


Definition __itruediv__ (self : ref) (other : operand) : M ref :=
  match other with
  | OArray o => _opVec2 self _idiv (Some o) ;;; ret self
  | OFloat x => _opVecScalar1 self _idiv_scalar x ;;; ret self
  end.


Definition __radd__ (self : ref) (other : scalar) : M ref :=
  _opVecScalar2 self _add_scalar other.


Definition __rsub__ (self : ref) (other : scalar) : M ref :=
  _opVecScalar2 self _rsub_scalar other.


Definition __rmul__ (self : ref) (other : scalar) : M ref :=
  _opVecScalar2 self _mul_scalar other.


Definition __rtruediv__ (self : ref) (other : scalar) : M ref :=
  _opVecScalar2 self _rdiv_scalar other.

(** [shape[-1]] and [shape[0]]: [IndexError] on an empty shape. *)
Definition index_last (shape : list Z) : M Z :=
  match last shape with
  | Some d => ret d
  | None => raise IndexError
  end.

Definition index_first (shape : list Z) : M Z :=
  match shape with
  | d :: _ => ret d
  | [] => raise IndexError
  end.

Definition __matmul__ (self other : ref) : M ref :=
  a <- load self ;;
  b <- load other ;;
  incompatible <-
    ((if bool_decide (3 < length (shape a))%nat then ret true
     else if bool_decide (3 < length (shape b))%nat then ret true
     else x <- index_last (shape a) ;;
          y <- index_first (shape b) ;;
          ret (negb (bool_decide (x = y)))) : M bool) ;;
  if (incompatible : bool)
  then raise (ValueError_IncompatibleShapes (shape a) (shape b))
  else
    let shape0 := removelast (shape a) ++ tail (shape b) in
    let shape1 := if bool_decide (length shape0 = 0%nat) then [1%Z] else shape0 in
    rowA <- ((if bool_decide (1 < length (shape a))%nat
             then index_first (shape a) else ret 1%Z) : M Z) ;;
    contractSize <- index_last (shape a) ;;
    columnB <- ((if bool_decide (1 < length (shape b))%nat
                then match shape b !! 1%nat with
                     | Some d => ret d
                     | None => raise IndexError
                     end
                else ret 1%Z) : M Z) ;;
    ret_ <- __init__ (_gpu a) None (Some shape1) ;;
    r <- load ret_ ;;
    j <- GPU._submit (_gpu a) _matmul 1 64 1
           [buffer a; buffer b; buffer r]
           (mkDataShape rowA columnB 1)
           (MatMulParams rowA contractSize columnB)
           (semaphores_of [a; b]) ;;
    set_job ret_ (Some j) ;;;
    ret ret_.

Definition wait (self : ref) : M unit :=
  a <- load self ;;
  match job a with
  | Some j => Backend.wait j ;;; set_job self None
  | None => ret tt
  end.

(** Whether [numpy] accepts [key] on a view of the given shape: an
    integer must lie within the first axis, a slice needs a first axis. *)
Definition key_ok (shape : list Z) (key : Key) : bool :=
  match key, shape with
  | KInt i, d :: _ => bool_decide (- d <= i < d)
  | KInt _, [] => false
  | KSlice _ _, _ :: _ => true
  | KSlice _ _, [] => false
  | KEllipsis, _ => true
  end.

Definition __getitem__ (self : ref) (key : Key) : M HostVal :=
  wait self ;;;
  a <- load self ;;
  if key_ok (shape a) key
  then emit (EvHostRead (buffer a) key) ;;; ret (HostItem (buffer a) key)
  else raise IndexError.

Definition __setitem__ (self : ref) (key : Key) (value : scalar) : M unit :=
  a <- load self ;;
  if key_ok (shape a) key
  then emit (EvHostWrite (buffer a) key value)
  else raise IndexError.

Definition __str__ (self : ref) : M HostVal :=
  wait self ;;;
  a <- load self ;;
  emit (EvHostRead (buffer a) KEllipsis) ;;;
  ret (HostStr (buffer a)).

Definition __array__ (self : ref) : M HostVal :=
  wait self ;;;
  a <- load self ;;
  ret (HostArray (buffer a)).


Definition max (self : ref) (other : operand) (inplace : bool)
    : M (option ref) :=
  match other with
  | OArray o =>
      if inplace then _opVec2 self _imax (Some o) ;;; ret None
      else r <- _opVec3 self _max o ;; ret (Some r)
  | OFloat x =>
      if inplace then _opVecScalar1 self _imax_scalar x ;;; ret None
      else r <- _opVecScalar2 self _max_scalar x ;; ret (Some r)
  end.


Definition min (self : ref) (other : operand) (inplace : bool)
    : M (option ref) :=
  match other with
  | OArray o =>
      if inplace then _opVec2 self _imin (Some o) ;;; ret None
      else r <- _opVec3 self _min o ;; ret (Some r)
  | OFloat x =>
      if inplace then _opVecScalar1 self _imin_scalar x ;;; ret None
      else r <- _opVecScalar2 self _min_scalar x ;; ret (Some r)
  end.


Definition abs (self : ref) (inplace : bool) : M (option ref) :=
  if inplace then _opVec1 self _iabs ;;; ret None
  else _opVec2 self _abs None.


Definition sign (self : ref) (inplace : bool) : M (option ref) :=
  if inplace then _opVec1 self _isign ;;; ret None
  else _opVec2 self _sign None.


Definition sin (self : ref) (inplace : bool) : M (option ref) :=
  if inplace then _opVec1 self _isin ;;; ret None
  else _opVec2 self _sin None.


Definition cos (self : ref) (inplace : bool) : M (option ref) :=
  if inplace then _opVec1 self _icos ;;; ret None
  else _opVec2 self _cos None.


Definition tan (self : ref) (inplace : bool) : M (option ref) :=
  if inplace then _opVec1 self _itan ;;; ret None
  else _opVec2 self _tan None.


Definition asin (self : ref) (inplace : bool) : M (option ref) :=
  if inplace then _opVec1 self _iasin ;;; ret None
  else _opVec2 self _asin None.


Definition acos (self : ref) (inplace : bool) : M (option ref) :=
  if inplace then _opVec1 self _iacos ;;; ret None
  else _opVec2 self _acos None.


Definition atan (self : ref) (inplace : bool) : M (option ref) :=
  if inplace then _opVec1 self _iatan ;;; ret None
  else _opVec2 self _atan None.


Definition sinh (self : ref) (inplace : bool) : M (option ref) :=
  if inplace then _opVec1 self _isinh ;;; ret None
  else _opVec2 self _sinh None.


Definition cosh (self : ref) (inplace : bool) : M (option ref) :=
  if inplace then _opVec1 self _icosh ;;; ret None
  else _opVec2 self _cosh None.


Definition tanh (self : ref) (inplace : bool) : M (option ref) :=
  if inplace then _opVec1 self _itanh ;;; ret None
  else _opVec2 self _tanh None.


Definition asinh (self : ref) (inplace : bool) : M (option ref) :=
  if inplace then _opVec1 self _iasinh ;;; ret None
  else _opVec2 self _asinh None.


Definition acosh (self : ref) (inplace : bool) : M (option ref) :=
  if inplace then _opVec1 self _iacosh ;;; ret None
  else _opVec2 self _acosh None.


Definition atanh (self : ref) (inplace : bool) : M (option ref) :=
  if inplace then _opVec1 self _iatanh ;;; ret None
  else _opVec2 self _atanh None.


Definition exp (self : ref) (inplace : bool) : M (option ref) :=
  if inplace then _opVec1 self _iexp ;;; ret None
  else _opVec2 self _exp None.


Definition log (self : ref) (inplace : bool) : M (option ref) :=
  if inplace then _opVec1 self _ilog ;;; ret None
  else _opVec2 self _log None.


Definition exp2 (self : ref) (inplace : bool) : M (option ref) :=
  if inplace then _opVec1 self _iexp2 ;;; ret None
  else _opVec2 self _exp2 None.


Definition log2 (self : ref) (inplace : bool) : M (option ref) :=
  if inplace then _opVec1 self _ilog2 ;;; ret None
  else _opVec2 self _log2 None.


Definition sqrt (self : ref) (inplace : bool) : M (option ref) :=
  if inplace then _opVec1 self _isqrt ;;; ret None
  else _opVec2 self _sqrt None.


Definition invsqrt (self : ref) (inplace : bool) : M (option ref) :=
  if inplace then _opVec1 self _iinvsqrt ;;; ret None
  else _opVec2 self _invsqrt None.


Definition __pow__ (self : ref) (other : operand) : M ref :=
  match other with
  | OArray o => _opVec3 self _pow o
  | OFloat x => _opVecScalar2 self _pow_scalar x
  end.

Definition __ipow__ (self : ref) (other : operand) : M ref :=
  match other with
  | OArray o => _opVec2 self _ipow (Some o) ;;; ret self
  | OFloat x => _opVecScalar1 self _ipow_scalar x ;;; ret self
  end.

Definition __rpow__ (self : ref) (other : scalar) : M ref :=
  _opVecScalar2 self _rpow_scalar other.

Definition clamp (self : ref) (min max : operand) (inplace : bool)
    : M (option ref) :=
  match min with OArray mn => _check_shape self mn | OFloat _ => ret tt end ;;;
  match max with OArray mx => _check_shape self mx | OFloat _ => ret tt end ;;;
  if negb inplace then
    a <- load self ;;
    ret_ <- __init__ (_gpu a) None (Some (shape a)) ;;
    j <- match min, max with
         | OArray mn, OArray mx => _opVec self _clamp [self; mn; mx; ret_]
         | OFloat mn, OArray mx =>
             _opVecScalar self _clamp_sv [self; mx; ret_] mn
         | OArray mn, OFloat mx =>
             _opVecScalar self _clamp_vs [self; mn; ret_] mx
         | OFloat mn, OFloat mx =>
             _opVec2Scalar self _clamp_ss [self; ret_] (mn, mx)
         end ;;
    set_job ret_ (Some j) ;;;
    ret (Some ret_)
  else
    j <- match min, max with
         | OArray mn, OArray mx => _opVec self _iclamp [self; mn; mx]
         | OFloat mn, OArray mx => _opVecScalar self _iclamp_sv [self; mx] mn
         | OArray mn, OFloat mx => _opVecScalar self _iclamp_vs [self; mn] mx
         | OFloat mn, OFloat mx =>
             _opVec2Scalar self _iclamp_ss [self] (mn, mx)
         end ;;
    set_job self (Some j) ;;;
    ret None.

End Array.

(** * The vocabulary of the specification *)

(** ** Objects *)

(** The objects a list of references denotes in a state. *)
Definition live (s : State) (rs : list ref) (objs : list Array) : Prop :=
  Forall2 (fun r a => heap s !! r = Some a) rs objs.

Definition with_job (a : Array) (j : option job_id) : Array :=
  mkArray (_gpu a) (shape a) (buffer a) j.

(** ** Allocation *)

(** The state after [Array(gpu, shape=sh)], and the new object. *)
Definition new_buffer (s : State) (sh : list Z) : Buffer :=
  mkBuffer (fresh (buffers s)) (Array.prod sh).

Definition new_array (s : State) (g : gpu_id) (sh : list Z) : Array :=
  mkArray g sh (new_buffer s sh) None.

Definition allocated (s : State) (g : gpu_id) (sh : list Z) : State :=
  set_heap <[fresh (dom (heap s)) := new_array s g sh]>
    (add_event (EvCreateBuffer g (new_buffer s sh))
       (set_buffers (union {[fresh (buffers s)]}) s)).

(** ** Submission *)

(** What [GPU._submit] does to a state [s]: it resolves the handle [h] for
    the signature [sg] through the cache, compiling on a miss only, and
    issues one backend submission that returns the new job [j]. *)
Definition launched (s s' : State) (g : gpu_id) (sg : OpSig)
    (bufs : list Buffer) (ds : DataShape) (sems : list job_id)
    (h : op_id) (j : job_id) : Prop :=
  heap s' = heap s /\
  buffers s' = buffers s /\
  j = fresh (jobs s) /\
  jobs s' = {[j]} ∪ jobs s /\
  op_cache s' !! (g, sg) = Some h /\
  match op_cache s !! (g, sg) with
  | Some h0 =>
      h = h0 /\ op_cache s' = op_cache s /\ compiled s' = compiled s /\
      trace s' = trace s ++ [EvSubmit g h bufs ds (sig_params sg) sems j]
  | None =>
      h = fresh (dom (compiled s)) /\
      op_cache s' = <[(g, sg) := h]> (op_cache s) /\
      compiled s' = <[h := (g, sg)]> (compiled s) /\
      trace s' = trace s ++ [EvCreateOp g h sg;
                              EvSubmit g h bufs ds (sig_params sg) sems j]
  end.

(** Every cached handle is an operation the backend compiled from the
    signature it is cached under. *)
Definition cache_sound (s : State) : Prop :=
  forall g sg h, op_cache s !! (g, sg) = Some h ->
                 compiled s !! h = Some (g, sg).

(** ** The operation catalogue: the public operations of [Array] as
    data, so that a statement can range over all of them; [run] calls the
    method of the source. *)

Inductive binop : Type := Add | Sub | Mul | Div | Max | Min | Pow.

(** The reflected operators of the source: [__radd__], [__rsub__],
    [__rmul__], [__rtruediv__], [__rpow__]. *)
Inductive rop : Type := RAdd | RSub | RMul | RDiv | RPow.

Inductive unop : Type :=
| Abs | Sign | Sin | Cos | Tan | Asin | Acos | Atan
| Sinh | Cosh | Tanh | Asinh | Acosh | Atanh
| Exp | Log | Exp2 | Log2 | Sqrt | Invsqrt.

Inductive call : Type :=
| Binary (op : binop) (inplace : bool) (self : ref) (other : operand)
| Reflected (op : rop) (self : ref) (other : scalar)
| Unary (op : unop) (inplace : bool) (self : ref)
| Clamp (self : ref) (min max : operand) (inplace : bool)
| Matmul (self other : ref).

Definition run_binary (op : binop) (inplace : bool) (self : ref)
    (other : operand) : M (option ref) :=
  match op, inplace with
  | Add, false => r <- Array.__add__ self other ;; ret (Some r)
  | Sub, false => r <- Array.__sub__ self other ;; ret (Some r)
  | Mul, false => r <- Array.__mul__ self other ;; ret (Some r)
  | Div, false => r <- Array.__truediv__ self other ;; ret (Some r)
  | Pow, false => r <- Array.__pow__ self other ;; ret (Some r)
  | Add, true => r <- Array.__iadd__ self other ;; ret (Some r)
  | Sub, true => r <- Array.__isub__ self other ;; ret (Some r)
  | Mul, true => r <- Array.__imul__ self other ;; ret (Some r)
  | Div, true => r <- Array.__itruediv__ self other ;; ret (Some r)
  | Pow, true => r <- Array.__ipow__ self other ;; ret (Some r)
  | Max, _ => Array.max self other inplace
  | Min, _ => Array.min self other inplace
  end.

Definition run_reflected (op : rop) (self : ref) (other : scalar)
    : M (option ref) :=
  match op with
  | RAdd => r <- Array.__radd__ self other ;; ret (Some r)
  | RSub => r <- Array.__rsub__ self other ;; ret (Some r)
  | RMul => r <- Array.__rmul__ self other ;; ret (Some r)
  | RDiv => r <- Array.__rtruediv__ self other ;; ret (Some r)
  | RPow => r <- Array.__rpow__ self other ;; ret (Some r)
  end.

Definition run_unary (op : unop) (inplace : bool) (self : ref)
    : M (option ref) :=
  match op with
  | Abs => Array.abs self inplace
  | Sign => Array.sign self inplace
  | Sin => Array.sin self inplace
  | Cos => Array.cos self inplace
  | Tan => Array.tan self inplace
  | Asin => Array.asin self inplace
  | Acos => Array.acos self inplace
  | Atan => Array.atan self inplace
  | Sinh => Array.sinh self inplace
  | Cosh => Array.cosh self inplace
  | Tanh => Array.tanh self inplace
  | Asinh => Array.asinh self inplace
  | Acosh => Array.acosh self inplace
  | Atanh => Array.atanh self inplace
  | Exp => Array.exp self inplace
  | Log => Array.log self inplace
  | Exp2 => Array.exp2 self inplace
  | Log2 => Array.log2 self inplace
  | Sqrt => Array.sqrt self inplace
  | Invsqrt => Array.invsqrt self inplace
  end.

(** The value a call evaluates to: an [Array] or [None]. *)
Definition run (c : call) : M (option ref) :=
  match c with
  | Binary op inplace self other => run_binary op inplace self other
  | Reflected op self other => run_reflected op self other
  | Unary op inplace self => run_unary op inplace self
  | Clamp self min max inplace => Array.clamp self min max inplace
  | Matmul self other => r <- Array.__matmul__ self other ;; ret (Some r)
  end.

(** ** What the specification says of a call *)

Definition array_of (o : operand) : list ref :=
  match o with OArray r => [r] | OFloat _ => [] end.

Definition self_of (c : call) : ref :=
  match c with
  | Binary _ _ self _ | Reflected _ self _ | Unary _ _ self
  | Clamp self _ _ _ | Matmul self _ => self
  end.

(** The operand Arrays of a call, [self] first. *)
Definition operands (c : call) : list ref :=
  match c with
  | Binary _ _ self other => self :: array_of other
  | Reflected _ self _ => [self]
  | Unary _ _ self => [self]
  | Clamp self min max _ => self :: array_of min ++ array_of max
  | Matmul self other => [self; other]
  end.

Definition in_place (c : call) : bool :=
  match c with
  | Binary _ inplace _ _ | Unary _ inplace _ | Clamp _ _ _ inplace => inplace
  | Reflected _ _ _ | Matmul _ _ => false
  end.

(** The naming convention of the kernel catalogue, after the
    specification: the base name of the operator, ["i"] in front of the
    in-place sibling, ["_scalar"] behind the form with one scalar, ["r"] in
    front of the scalar form with reversed operands, which subtract, divide
    and power have; for clamp no suffix, ["_sv"], ["_vs"] or ["_ss"]. *)
Definition base_name (op : binop) : string :=
  match op with
  | Add => "add" | Sub => "sub" | Mul => "mul" | Div => "div"
  | Max => "max" | Min => "min" | Pow => "pow"
  end.

Definition rop_binop (op : rop) : binop :=
  match op with
  | RAdd => Add | RSub => Sub | RMul => Mul | RDiv => Div | RPow => Pow
  end.

Definition has_reversed_form (op : binop) : bool :=
  match op with
  | Sub | Div | Pow => true
  | Add | Mul | Max | Min => false
  end.

Definition unop_name (op : unop) : string :=
  match op with
  | Abs => "abs" | Sign => "sign" | Sin => "sin" | Cos => "cos"
  | Tan => "tan" | Asin => "asin" | Acos => "acos" | Atan => "atan"
  | Sinh => "sinh" | Cosh => "cosh" | Tanh => "tanh" | Asinh => "asinh"
  | Acosh => "acosh" | Atanh => "atanh" | Exp => "exp" | Log => "log"
  | Exp2 => "exp2" | Log2 => "log2" | Sqrt => "sqrt" | Invsqrt => "invsqrt"
  end.

Definition i_prefix (inplace : bool) (name : string) : string :=
  if inplace then "i" +:+ name else name.

Definition clamp_suffix (min max : operand) : string :=
  match min, max with
  | OArray _, OArray _ => ""
  | OFloat _, OArray _ => "_sv"
  | OArray _, OFloat _ => "_vs"
  | OFloat _, OFloat _ => "_ss"
  end.

Definition convention_name (c : call) : string :=
  match c with
  | Binary op inplace _ (OArray _) => i_prefix inplace (base_name op)
  | Binary op inplace _ (OFloat _) =>
      i_prefix inplace (base_name op +:+ "_scalar")
  | Reflected op _ _ =>
      if has_reversed_form (rop_binop op)
      then "r" +:+ base_name (rop_binop op) +:+ "_scalar"
      else base_name (rop_binop op) +:+ "_scalar"
  | Unary op inplace _ => i_prefix inplace (unop_name op)
  | Clamp _ min max inplace => i_prefix inplace ("clamp" +:+ clamp_suffix min max)
  | Matmul _ _ => "matmul"
  end.

Definition kernel_file (c : call) : string :=
  os_path_join shader_dir (convention_name c +:+ ".spv").

(** The parameter packing of an elementwise call on [size] elements. *)
Definition packing (c : call) (size : Z) : Params :=
  match c with
  | Binary _ _ _ (OArray _) => VectorParams size
  | Binary _ _ _ (OFloat x) => VectorScalarParams size x
  | Reflected _ _ x => VectorScalarParams size x
  | Unary _ _ _ => VectorParams size
  | Clamp _ (OArray _) (OArray _) _ => VectorParams size
  | Clamp _ (OFloat mn) (OArray _) _ => VectorScalarParams size mn
  | Clamp _ (OArray _) (OFloat mx) _ => VectorScalarParams size mx
  | Clamp _ (OFloat mn) (OFloat mx) _ => VectorScalar2Params size mn mx
  | Matmul _ _ => VectorParams size
  end.

(** Matrix multiply: rows, contraction length, columns and the shape of
    the product. *)
Definition rowA_of (sa : list Z) : Z :=
  if bool_decide (1 < length sa)%nat then default 1 (head sa) else 1.

Definition contractSize_of (sa : list Z) : Z := default 1 (last sa).

Definition columnB_of (sb : list Z) : Z :=
  if bool_decide (1 < length sb)%nat then default 1 (sb !! 1%nat) else 1.

Definition matmul_shape (sa sb : list Z) : list Z :=
  if bool_decide (length (removelast sa ++ tail sb) = 0%nat)
  then [1] else removelast sa ++ tail sb.

Definition is_matmul (c : call) : bool :=
  match c with Matmul _ _ => true | _ => false end.

(** The signature, data shape and result shape of a call whose operand
    Arrays are [objs]. *)
Definition signature (c : call) (objs : list Array) : OpSig :=
  match objs with
  | [] => mkOpSig (kernel_file c) 0 (VectorParams 0) 0 0 0
  | a :: rest =>
      if is_matmul c then
        let sb := default [] (shape <$> head rest) in
        mkOpSig (kernel_file c) 3
          (MatMulParams (rowA_of (shape a)) (contractSize_of (shape a))
             (columnB_of sb))
          1 64 1
      else
        mkOpSig (kernel_file c)
          (length objs + if in_place c then 0 else 1)
          (packing c (buf_size (buffer a))) 64 1 1
  end.

Definition data_shape (c : call) (objs : list Array) : DataShape :=
  match objs with
  | [] => mkDataShape 0 0 0
  | a :: rest =>
      if is_matmul c then
        mkDataShape (rowA_of (shape a))
          (columnB_of (default [] (shape <$> head rest))) 1
      else mkDataShape (buf_size (buffer a)) 1 1
  end.

Definition result_shape (c : call) (objs : list Array) : list Z :=
  match objs with
  | [] => []
  | a :: rest =>
      if is_matmul c
      then matmul_shape (shape a) (default [] (shape <$> head rest))
      else shape a
  end.

(** The value of a call that wrote the Array [target]. *)
Definition result_of (c : call) (target : ref) : option ref :=
  match c with
  | Binary Max true _ _ | Binary Min true _ _ => None
  | Unary _ true _ | Clamp _ _ _ true => None
  | _ => Some target
  end.

(** The shapes a call accepts. *)
Definition shapes_ok (c : call) (objs : list Array) : Prop :=
  match objs with
  | [] => False
  | a :: rest =>
      if is_matmul c then
        exists b, rest = [b] /\
          (1 <= length (shape a) <= 3)%nat /\
          (1 <= length (shape b) <= 3)%nat /\
          last (shape a) = head (shape b)
      else Forall (fun b => shape b = shape a) rest
  end.

(** What a successful call does to a state: an out-of-place call first
    allocates the result; the kernel is launched on the operands' buffers
    (and the result's), waiting for the operands' pending jobs; the new job
    becomes the pending job of the Array written, [target]. *)
Definition dispatch (inplace : bool) (self : ref) (objs : list Array)
    (sg : OpSig) (ds : DataShape) (sh : list Z)
    (s : State) (target : ref) (s' : State) : Prop :=
  exists a rest s1 h j,
    objs = a :: rest /\
    if inplace then
      target = self /\
      launched s s1 (_gpu a) sg (map buffer objs) ds (Array.semaphores_of objs) h j /\
      s' = set_heap <[self := with_job a (Some j)]> s1
    else
      target = fresh (dom (heap s)) /\
      launched (allocated s (_gpu a) sh) s1 (_gpu a) sg
        (map buffer objs ++ [new_buffer s sh]) ds
        (Array.semaphores_of objs) h j /\
      s' = set_heap <[target := with_job (new_array s (_gpu a) sh) (Some j)]> s1.

Definition dispatched (c : call) (objs : list Array)
    (s : State) (target : ref) (s' : State) : Prop :=
  dispatch (in_place c) (self_of c) objs (signature c objs)
    (data_shape c objs) (result_shape c objs) s target s'.

(** ** The two shapes of an elementwise method *)

(** The three launchers of the source differ in the packing only. *)
Inductive pkind : Type :=
| PVec
| PScalar (x : scalar)
| PScalar2 (x y : scalar).

Definition pack (pk : pkind) (size : Z) : Params :=
  match pk with
  | PVec => VectorParams size
  | PScalar x => VectorScalarParams size x
  | PScalar2 x y => VectorScalar2Params size x y
  end.

Definition launch (self : ref) (spv : string) (rs : list ref) (pk : pkind)
    : M job_id :=
  match pk with
  | PVec => Array._opVec self spv rs
  | PScalar x => Array._opVecScalar self spv rs x
  | PScalar2 x y => Array._opVec2Scalar self spv rs (x, y)
  end.

(** Launch on the operands and make the job the pending job of [self]. *)
Definition inplace_form {A} (self : ref) (spv : string) (rs : list ref)
    (pk : pkind) (k : A) : M A :=
  j <- launch self spv rs pk ;;
  set_job self (Some j) ;;;
  ret k.

(** Allocate the result, launch on the operands and the result, make the
    job the pending job of the result. *)
Definition fresh_form {A} (self : ref) (spv : string) (rs : list ref)
    (pk : pkind) (k : ref -> A) : M A :=
  a <- load self ;;
  ret_ <- Array.__init__ (_gpu a) None (Some (shape a)) ;;
  j <- launch self spv (rs ++ [ret_]) pk ;;
  set_job ret_ (Some j) ;;;
  ret (k ret_).

(** ** What no method undoes *)

(** Every Array's buffer holds as many elements as its shape says. *)
Definition sized (s : State) : Prop :=
  forall r a, heap s !! r = Some a -> buf_size (buffer a) = Array.prod (shape a).

(** [s'] is a later state than [s]: the cache has only grown, the trace
    has only been extended, and the invariants of [s] still hold. *)
Definition extends (s s' : State) : Prop :=
  op_cache s ⊆ op_cache s' /\
  (cache_sound s -> cache_sound s') /\
  (sized s -> sized s') /\
  trace s `prefix_of` trace s'.

Definition extending {A} (m : M A) : Prop := forall s, extends s (m s).2.

(** The state a method leaves behind, whatever it returns or raises. *)
Definition exec {A} (m : M A) (s : State) : State := (m s).2.

(** Two Arrays on device [0], allocated from the given shapes: the first
    is reference [0], the second reference [1]. *)
Definition two_arrays (sh1 sh2 : list Z) : State :=
  exec (Array.__init__ 0%nat None (Some sh2))
    (exec (Array.__init__ 0%nat None (Some sh1)) empty_state).

(** ** Materialisation *)

(** The three ways the source hands an Array's contents to the host. *)
Inductive materialization : Type :=
| MGetItem (key : Key)
| MArray
| MStr.

Definition materialize (m : materialization) (self : ref) : M HostVal :=
  match m with
  | MGetItem key => Array.__getitem__ self key
  | MArray => Array.__array__ self
  | MStr => Array.__str__ self
  end.

(** The jobs a trace waits for, in order. *)
Definition waits (t : list Event) : list job_id :=
  omap (fun e => match e with EvJobWait j => Some j | _ => None end) t.

(** The state after [self.wait()]. *)
Definition waited (self : ref) (a : Array) (s : State) : State :=
  match job a with
  | Some j => set_heap <[self := with_job a None]> (add_event (EvJobWait j) s)
  | None => s
  end.

(** An Array with a pending job: [a += b] on two Arrays of three
    elements leaves job [0] pending on reference [0]. *)
Definition pending_state : State :=
  exec (run (Binary Add true 0%nat (OArray 1%nat))) (two_arrays [3] [3]).

(** ** What a dispatched call leaves behind *)

Definition is_submit (e : Event) : bool :=
  match e with EvSubmit _ _ _ _ _ _ _ => true | _ => false end.

(** The submissions of a trace, in order. *)
Definition submissions (t : list Event) : list Event := List.filter is_submit t.

(** ** Clamp *)

Definition is_array (o : operand) : bool :=
  match o with OArray _ => true | OFloat _ => false end.

(** The eight clamp kernels of the source. *)
Definition clamp_kernels : list string :=
  [Array._clamp; Array._iclamp; Array._clamp_sv; Array._iclamp_sv;
   Array._clamp_vs; Array._iclamp_vs; Array._clamp_ss; Array._iclamp_ss].

(** The first bound that is an Array of another shape than [self]. *)
Definition clamp_mismatch (s : State) (a : Array) (mn mx : operand)
    : option Array :=
  match mn, mx with
  | OArray m, _ =>
      match heap s !! m with
      | Some b =>
          if bool_decide (shape a = shape b)
          then match mx with
               | OArray n =>
                   match heap s !! n with
                   | Some c => if bool_decide (shape a = shape c)
                               then None else Some c
                   | None => None
                   end
               | OFloat _ => None
               end
          else Some b
      | None => None
      end
  | OFloat _, OArray n =>
      match heap s !! n with
      | Some c => if bool_decide (shape a = shape c) then None else Some c
      | None => None
      end
  | OFloat _, OFloat _ => None
  end.

(** ** Matrix multiply *)

(** A device with one Array of rank 0, made from a host scalar. *)
Definition rank0_state : State :=
  exec (Array.__init__ 0%nat (Some (mkNdarray [])) None) empty_state.

(** The claim as the specification words it, for every pair of operands:
    a shape error when a rank exceeds 3 or the trailing and the leading
    dimension differ, otherwise a result of the concatenated shape.
    Either way the call ends in the shape error or in a result. *)
Definition matmul_claim_as_stated : Prop :=
  forall self other s a b,
    heap s !! self = Some a -> heap s !! other = Some b ->
    if bool_decide ((3 < length (shape a))%nat \/ (3 < length (shape b))%nat \/
                    last (shape a) <> head (shape b))
    then Array.__matmul__ self other s
         = (Raise (ValueError_IncompatibleShapes (shape a) (shape b)), s)
    else exists target s' r,
           Array.__matmul__ self other s = (Ok target, s') /\
           heap s' !! target = Some r /\
           shape r = matmul_shape (shape a) (shape b).

(** ** The cache of compiled operations *)

(** What a client can do with the library between two submissions. *)
Inductive action : Type :=
| ACall (c : call)
| ANew (g : gpu_id) (data : option ndarray) (shape : option (list Z))
| AMaterialize (m : materialization) (self : ref)
| ASetItem (self : ref) (key : Key) (value : scalar)
| AWait (self : ref).

Definition perform (act : action) (s : State) : State :=
  match act with
  | ACall c => exec (run c) s
  | ANew g data sh => exec (Array.__init__ g data sh) s
  | AMaterialize m self => exec (materialize m self) s
  | ASetItem self key value => exec (Array.__setitem__ self key value) s
  | AWait self => exec (Array.wait self) s
  end.

Definition perform_all (acts : list action) (s : State) : State :=
  foldl (fun s act => perform act s) s acts.

(** Two Arrays of three and of four elements after [abs(inplace=True)]
    on each. *)
Definition two_sizes_state : State :=
  perform_all [ACall (Unary Abs true 0%nat); ACall (Unary Abs true 1%nat)]
    (two_arrays [3] [4]).

(** * Further vocabulary: the engine over a whole session *)

(** ** Steps *)

(** The things a method does to the state, one event each: allocate an
    Array, compile an operation the cache lacks, submit a cached
    operation and record its job on the Array written, wait for an
    Array's job and forget it, touch a buffer's host view. *)
Inductive step : State -> State -> Prop :=
| step_new s g sh (from_data : bool) :
    step s
      (set_heap <[fresh (dom (heap s)) := new_array s g sh]>
         (add_event (if from_data then EvToBuffer g (new_buffer s sh)
                     else EvCreateBuffer g (new_buffer s sh))
            (set_buffers (union {[fresh (buffers s)]}) s)))
| step_compile s g sg :
    op_cache s !! (g, sg) = None ->
    step s
      (set_op_cache <[(g, sg) := fresh (dom (compiled s))]>
         (add_event (EvCreateOp g (fresh (dom (compiled s))) sg)
            (set_compiled <[fresh (dom (compiled s)) := (g, sg)]> s)))
| step_submit s target a rs objs g sg h ds :
    live s rs objs -> target ∈ rs -> heap s !! target = Some a ->
    op_cache s !! (g, sg) = Some h -> sig_n sg = length objs ->
    step s
      (set_heap <[target := with_job a (Some (fresh (jobs s)))]>
         (add_event (EvSubmit g h (map buffer objs) ds (sig_params sg)
                       (Array.semaphores_of objs) (fresh (jobs s)))
            (set_jobs (union {[fresh (jobs s)]}) s)))
| step_wait s r a j :
    heap s !! r = Some a -> job a = Some j ->
    step s (set_heap <[r := with_job a None]> (add_event (EvJobWait j) s))
| step_read s b k : step s (add_event (EvHostRead b k) s)
| step_write s b k v : step s (add_event (EvHostWrite b k v) s).

(** ** Traces *)

(** The jobs the submissions of a trace returned, in order. *)
Definition submitted_jobs (t : list Event) : list job_id :=
  omap (fun e => match e with
                 | EvSubmit _ _ _ _ _ _ j => Some j
                 | _ => None
                 end) t.

(** The device and signature of each compilation of a trace, in order. *)
Definition compiled_keys (t : list Event) : list (gpu_id * OpSig) :=
  omap (fun e => match e with
                 | EvCreateOp g _ sg => Some (g, sg)
                 | _ => None
                 end) t.

(** [P pre e] holds of every event [e] of the trace and the events [pre]
    before it. *)
Definition each_event (P : list Event -> Event -> Prop) (t : list Event)
    : Prop :=
  forall pre e post, t = pre ++ e :: post -> P pre e.

(** A submission returns a job no earlier submission returned and waits
    only for jobs earlier submissions returned. *)
Definition submits_in_order (pre : list Event) (e : Event) : Prop :=
  match e with
  | EvSubmit _ _ _ _ _ sems j =>
      (j ∉ submitted_jobs pre) /\ forall x, x ∈ sems -> x ∈ submitted_jobs pre
  | _ => True
  end.

(** A submission runs an operation compiled earlier, on the same device,
    for its number of buffers and its parameters. *)
Definition submits_compiled (pre : list Event) (e : Event) : Prop :=
  match e with
  | EvSubmit g h bufs _ ps _ _ =>
      exists sg, EvCreateOp g h sg ∈ pre /\
                 sig_n sg = length bufs /\ sig_params sg = ps
  | _ => True
  end.

(** The host waits for a job a submission has returned, and has not
    waited for it before. *)
Definition waits_after_submit (pre : list Event) (e : Event) : Prop :=
  match e with
  | EvJobWait j => j ∈ submitted_jobs pre /\ (j ∉ waits pre)
  | _ => True
  end.

(** ** The invariant of a session *)

Record session_inv (s : State) : Prop := mkSessionInv {
  inv_sized : sized s;
  inv_allocated :
    forall r a, heap s !! r = Some a -> buf_id (buffer a) ∈ buffers s;
  inv_exclusive :
    forall r1 r2 a1 a2,
      heap s !! r1 = Some a1 -> heap s !! r2 = Some a2 ->
      buf_id (buffer a1) = buf_id (buffer a2) -> r1 = r2;
  inv_pending :
    forall r a j,
      heap s !! r = Some a -> job a = Some j ->
      exists g h bufs ds ps sems,
        EvSubmit g h bufs ds ps sems j ∈ trace s /\ buffer a ∈ bufs;
  inv_pending_distinct :
    forall r1 r2 a1 a2 j,
      heap s !! r1 = Some a1 -> heap s !! r2 = Some a2 ->
      job a1 = Some j -> job a2 = Some j -> r1 = r2;
  inv_jobs : forall j, j ∈ jobs s <-> j ∈ submitted_jobs (trace s);
  inv_in_order : each_event submits_in_order (trace s);
  inv_cache :
    forall g sg h,
      op_cache s !! (g, sg) = Some h <-> EvCreateOp g h sg ∈ trace s;
  inv_compiled :
    forall g sg h,
      EvCreateOp g h sg ∈ trace s -> compiled s !! h = Some (g, sg);
  inv_compile_once : NoDup (compiled_keys (trace s));
  inv_submits_compiled : each_event submits_compiled (trace s);
  inv_waits : each_event waits_after_submit (trace s);
  inv_waited_not_pending :
    forall r a j,
      heap s !! r = Some a -> job a = Some j -> j ∉ waits (trace s)
}.

(** The states a client can reach from a new session. *)
Definition reachable (s : State) : Prop :=
  exists acts, s = perform_all acts empty_state.

(** ** A session to try the statements on: [a], [b] of six elements,
    [c = a + b], [d = c * 2], [d += c], then [d[0]] is read. *)
Definition demo_session : list action :=
  [ANew 0%nat None (Some [2; 3]);
   ANew 0%nat None (Some [2; 3]);
   ACall (Binary Add false 0%nat (OArray 1%nat));
   ACall (Binary Mul false 2%nat (OFloat 2));
   ACall (Binary Add true 3%nat (OArray 2%nat));
   AMaterialize (MGetItem (KInt 0)) 3%nat].

Definition demo_state : State := perform_all demo_session empty_state.

(** The same session without the read: [d] still has its job pending. *)
Definition demo_pending_state : State :=
  perform_all (take 5 demo_session) empty_state.


(** * Lemmas and theorems *)

(** ** Running the monad *)

Lemma bind_Ok {A B} (m : M A) (f : A -> M B) s a s1 :
  m s = (Ok a, s1) -> bind m f s = f a s1.
Proof. intros H. unfold bind. rewrite H. reflexivity. Qed.

Lemma bind_Raise {A B} (m : M A) (f : A -> M B) s e s1 :
  m s = (Raise e, s1) -> bind m f s = (Raise e, s1).
Proof. intros H. unfold bind. rewrite H. reflexivity. Qed.

Lemma load_Ok r a s : heap s !! r = Some a -> load r s = (Ok a, s).
Proof. intros H. unfold load. rewrite H. reflexivity. Qed.

Lemma load_all_Ok rs objs s : live s rs objs -> load_all rs s = (Ok objs, s).
Proof.
  induction 1 as [|r a rs objs Hr _ IH]; [reflexivity|].
  cbn [load_all].
  rewrite (bind_Ok _ _ _ _ _ (load_Ok _ _ _ Hr)).
  rewrite (bind_Ok _ _ _ _ _ IH). reflexivity.
Qed.

Lemma set_job_Ok r a j s :
  heap s !! r = Some a ->
  set_job r j s = (Ok tt, set_heap <[r := with_job a j]> s).
Proof.
  intros H. unfold set_job. rewrite (bind_Ok _ _ _ _ _ (load_Ok _ _ _ H)).
  reflexivity.
Qed.

(** ** Allocation *)

Lemma init_shape_Ok g sh s :
  Array.__init__ g None (Some sh) s
  = (Ok (fresh (dom (heap s))), allocated s g sh).
Proof. reflexivity. Qed.

Lemma fresh_ref_None s : heap s !! fresh (dom (heap s)) = None.
Proof. apply not_elem_of_dom, is_fresh. Qed.

Lemma allocated_lookup_new s g sh :
  heap (allocated s g sh) !! fresh (dom (heap s)) = Some (new_array s g sh).
Proof. cbn. apply lookup_insert_eq. Qed.

Lemma allocated_lookup_old s g sh r a :
  heap s !! r = Some a -> heap (allocated s g sh) !! r = Some a.
Proof.
  intros H. cbn. rewrite lookup_insert_ne; [exact H|].
  intros <-. rewrite fresh_ref_None in H. discriminate.
Qed.

Lemma allocated_live s g sh rs objs :
  live s rs objs -> live (allocated s g sh) rs objs.
Proof.
  unfold live. intros H. eapply Forall2_impl; [exact H|].
  intros r a. apply allocated_lookup_old.
Qed.

(** ** Shape checks *)

Lemma np_array_equal_true a b : Array.np_array_equal a b = true <-> a = b.
Proof. unfold Array.np_array_equal. apply bool_decide_eq_true. Qed.

Lemma check_shape_Ok self other a b s :
  heap s !! self = Some a -> heap s !! other = Some b ->
  shape a = shape b ->
  Array._check_shape self other s = (Ok tt, s).
Proof.
  intros Ha Hb E. unfold Array._check_shape.
  rewrite (bind_Ok _ _ _ _ _ (load_Ok _ _ _ Ha)).
  rewrite (bind_Ok _ _ _ _ _ (load_Ok _ _ _ Hb)).
  rewrite (proj2 (np_array_equal_true _ _) E). reflexivity.
Qed.

Lemma check_shape_Raise self other a b s :
  heap s !! self = Some a -> heap s !! other = Some b ->
  shape a <> shape b ->
  Array._check_shape self other s
  = (Raise (ValueError_IncompatibleShapes (shape a) (shape b)), s).
Proof.
  intros Ha Hb E. unfold Array._check_shape.
  rewrite (bind_Ok _ _ _ _ _ (load_Ok _ _ _ Ha)).
  rewrite (bind_Ok _ _ _ _ _ (load_Ok _ _ _ Hb)).
  destruct (Array.np_array_equal (shape a) (shape b)) eqn:Heq.
  - apply np_array_equal_true in Heq. contradiction.
  - reflexivity.
Qed.

(** ** Submission *)

Lemma createOp_hit g spv n ps lx ly lz h s :
  op_cache s !! (g, mkOpSig spv n ps lx ly lz) = Some h ->
  GPU._createOp g spv n ps lx ly lz s = (Ok h, s).
Proof.
  intros H. unfold GPU._createOp, GPU.functools_cache, bind, get_state.
  rewrite H. reflexivity.
Qed.

Lemma createOp_miss g spv n ps lx ly lz s :
  op_cache s !! (g, mkOpSig spv n ps lx ly lz) = None ->
  GPU._createOp g spv n ps lx ly lz s
  = (Ok (fresh (dom (compiled s))),
     set_op_cache <[(g, mkOpSig spv n ps lx ly lz) := fresh (dom (compiled s))]>
       (add_event (EvCreateOp g (fresh (dom (compiled s)))
                     (mkOpSig spv n ps lx ly lz))
          (set_compiled <[fresh (dom (compiled s))
                          := (g, mkOpSig spv n ps lx ly lz)]> s))).
Proof.
  intros H. unfold GPU._createOp, GPU.functools_cache, bind, get_state.
  rewrite H. reflexivity.
Qed.

Lemma submit_launched g spv lx ly lz b bufs ds ps sems s :
  exists h j s',
    GPU._submit g spv lx ly lz (b :: bufs) ds ps sems s = (Ok j, s') /\
    launched s s' g (mkOpSig spv (length (b :: bufs)) ps lx ly lz)
      (b :: bufs) ds sems h j.
Proof.
  unfold GPU._submit.
  destruct (op_cache s !! (g, mkOpSig spv (length (b :: bufs)) ps lx ly lz))
    as [h|] eqn:Hc.
  - exists h. eexists. eexists.
    rewrite (bind_Ok _ _ _ _ _ (createOp_hit _ _ _ _ _ _ _ _ _ Hc)).
    split; [reflexivity|].
    unfold launched. rewrite Hc. cbn. repeat split; try reflexivity. exact Hc.
  - eexists. eexists. eexists.
    rewrite (bind_Ok _ _ _ _ _ (createOp_miss _ _ _ _ _ _ _ _ Hc)).
    split; [reflexivity|].
    unfold launched. rewrite Hc. cbn. repeat split; try reflexivity.
    + apply lookup_insert_eq.
    + rewrite <- app_assoc. reflexivity.
Qed.

Lemma cache_sound_empty : cache_sound empty_state.
Proof. intros g sg h H. cbn in H. rewrite lookup_empty in H. discriminate. Qed.

Lemma launched_cache_sound s s' g sg bufs ds sems h j :
  launched s s' g sg bufs ds sems h j -> cache_sound s ->
  cache_sound s' /\ compiled s' !! h = Some (g, sg).
Proof.
  intros (_ & _ & _ & _ & Hh & Hm) Hs.
  destruct (op_cache s !! (g, sg)) as [h0|] eqn:Hc.
  - destruct Hm as (-> & Ec & Ek & _). split.
    + intros g' sg' h' H. rewrite Ec in H. rewrite Ek. auto.
    + rewrite Ek. auto.
  - destruct Hm as (Eh & Ec & Ek & _). split.
    + intros g' sg' h' H. rewrite Ec in H. rewrite Ek.
      destruct (decide ((g, sg) = (g', sg'))) as [E|N].
      * inversion E; subst g' sg'. rewrite lookup_insert_eq in H.
        inversion H; subst h'. apply lookup_insert_eq.
      * rewrite lookup_insert_ne in H by exact N.
        rewrite lookup_insert_ne; [auto|].
        intros <-. apply Hs in H.
        assert (fresh (dom (compiled s)) ∈ dom (compiled s)) as Hin
          by (apply elem_of_dom; rewrite <- Eh, H; eauto).
        exact (is_fresh _ Hin).
    + rewrite Ek. apply lookup_insert_eq.
Qed.

Lemma launched_cache_mono s s' g sg bufs ds sems h j :
  launched s s' g sg bufs ds sems h j -> op_cache s ⊆ op_cache s'.
Proof.
  intros (_ & _ & _ & _ & _ & Hm).
  destruct (op_cache s !! (g, sg)) as [h0|] eqn:Hc.
  - destruct Hm as (_ & -> & _). reflexivity.
  - destruct Hm as (_ & -> & _). apply insert_subseteq. exact Hc.
Qed.

(** ** The two shapes of an elementwise method *)

Lemma launch_submit self a spv rs objs pk s :
  heap s !! self = Some a -> live s rs objs ->
  launch self spv rs pk s
  = GPU._submit (_gpu a) spv 64 1 1 (map buffer objs)
      (mkDataShape (buf_size (buffer a)) 1 1)
      (pack pk (buf_size (buffer a))) (Array.semaphores_of objs) s.
Proof.
  intros Ha Hl.
  destruct pk; cbn [launch pack];
    unfold Array._opVec, Array._opVecScalar, Array._opVec2Scalar;
    rewrite (bind_Ok _ _ _ _ _ (load_Ok _ _ _ Ha));
    rewrite (bind_Ok _ _ _ _ _ (load_all_Ok _ _ _ Hl));
    reflexivity.
Qed.

Lemma live_cons_inv s r rs objs :
  live s (r :: rs) objs ->
  exists a rest, objs = a :: rest /\ heap s !! r = Some a /\ live s rs rest.
Proof. intros H. inversion H; subst. eauto. Qed.

Lemma live_nil_inv s objs : live s [] objs -> objs = [].
Proof. intros H. inversion H. reflexivity. Qed.

Lemma inplace_form_spec {A} self spv rs pk (k : A) s objs sh :
  live s (self :: rs) objs ->
  exists s',
    inplace_form self spv (self :: rs) pk k s = (Ok k, s') /\
    exists a, head objs = Some a /\
      dispatch true self objs
        (mkOpSig spv (length objs) (pack pk (buf_size (buffer a))) 64 1 1)
        (mkDataShape (buf_size (buffer a)) 1 1) sh s self s'.
Proof.
  intros Hl.
  destruct (live_cons_inv _ _ _ _ Hl) as (a & rest & -> & Ha & Hrest).
  unfold inplace_form, bind.
  rewrite (launch_submit _ _ _ _ _ _ _ Ha Hl).
  cbn [map].
  destruct (submit_launched (_gpu a) spv 64 1 1 (buffer a) (map buffer rest)
              (mkDataShape (buf_size (buffer a)) 1 1)
              (pack pk (buf_size (buffer a)))
              (Array.semaphores_of (a :: rest)) s) as (h & j & s1 & E & L).
  rewrite E.
  assert (heap s1 !! self = Some a) as Ha1
    by (destruct L as (-> & _); exact Ha).
  rewrite (set_job_Ok _ _ _ _ Ha1). unfold ret.
  eexists. split; [reflexivity|].
  exists a. split; [reflexivity|].
  exists a, rest, s1, h, j. split; [reflexivity|].
  cbn [length map] in *. rewrite List.length_map in L. auto.
Qed.

Lemma semaphores_of_snoc_new objs s g sh :
  Array.semaphores_of (objs ++ [new_array s g sh]) = Array.semaphores_of objs.
Proof.
  unfold Array.semaphores_of. rewrite omap_app. cbn. apply app_nil_r.
Qed.

Lemma live_snoc_new s g sh rs objs :
  live s rs objs ->
  live (allocated s g sh) (rs ++ [fresh (dom (heap s))])
    (objs ++ [new_array s g sh]).
Proof.
  intros H. apply Forall2_app.
  - apply allocated_live, H.
  - constructor; [apply allocated_lookup_new|constructor].
Qed.

Lemma fresh_form_spec {A} self spv rs pk (k : ref -> A) s objs :
  live s (self :: rs) objs ->
  exists s',
    fresh_form self spv (self :: rs) pk k s
    = (Ok (k (fresh (dom (heap s)))), s') /\
    exists a, head objs = Some a /\
      dispatch false self objs
        (mkOpSig spv (length objs + 1) (pack pk (buf_size (buffer a))) 64 1 1)
        (mkDataShape (buf_size (buffer a)) 1 1) (shape a) s
        (fresh (dom (heap s))) s'.
Proof.
  intros Hl.
  destruct (live_cons_inv _ _ _ _ Hl) as (a & rest & -> & Ha & Hrest).
  unfold fresh_form.
  rewrite (bind_Ok _ _ _ _ _ (load_Ok _ _ _ Ha)).
  rewrite (bind_Ok _ _ _ _ _ (init_shape_Ok _ _ _)).
  pose proof (live_snoc_new s (_gpu a) (shape a) _ _ Hl) as Hl'.
  pose proof (allocated_lookup_old s (_gpu a) (shape a) _ _ Ha) as Ha'.
  unfold bind.
  rewrite (launch_submit _ _ _ _ _ _ _ Ha' Hl').
  rewrite semaphores_of_snoc_new.
  cbn [app map].
  destruct (submit_launched (_gpu a) spv 64 1 1 (buffer a)
              (map buffer (rest ++ [new_array s (_gpu a) (shape a)]))
              (mkDataShape (buf_size (buffer a)) 1 1)
              (pack pk (buf_size (buffer a)))
              (Array.semaphores_of (a :: rest))
              (allocated s (_gpu a) (shape a))) as (h & j & s1 & E & L).
  rewrite E.
  assert (heap s1 !! fresh (dom (heap s))
          = Some (new_array s (_gpu a) (shape a))) as Hn
    by (destruct L as (-> & _); apply allocated_lookup_new).
  rewrite (set_job_Ok _ _ _ _ Hn).
  eexists. split; [reflexivity|].
  exists a. split; [reflexivity|].
  exists a, rest, s1, h, j. split; [reflexivity|].
  cbn [length map] in *.
  rewrite List.length_map, length_app in L.
  rewrite map_app in L. cbn [length map new_array buffer] in L.
  replace (S (length rest) + 1)%nat with (S (length rest + 1)) by lia.
  auto.
Qed.

(** ** The helpers of the source *)

Lemma opVec3_spec self spv o s a b :
  heap s !! self = Some a -> heap s !! o = Some b -> shape b = shape a ->
  exists s',
    Array._opVec3 self spv o s = (Ok (fresh (dom (heap s))), s') /\
    dispatch false self [a; b]
      (mkOpSig spv 3 (VectorParams (buf_size (buffer a))) 64 1 1)
      (mkDataShape (buf_size (buffer a)) 1 1) (shape a) s
      (fresh (dom (heap s))) s'.
Proof.
  intros Ha Hb E.
  assert (live s [self; o] [a; b]) as Hl by (repeat constructor; assumption).
  destruct (fresh_form_spec self spv [o] PVec id s _ Hl)
    as (s' & Er & a' & Hh & D).
  injection Hh as <-.
  exists s'. split; [|exact D].
  unfold Array._opVec3.
  rewrite (bind_Ok _ _ _ _ _ (check_shape_Ok _ _ _ _ _ Ha Hb (eq_sym E))).
  exact Er.
Qed.

Lemma opVec2_some_spec self spv o s a b :
  heap s !! self = Some a -> heap s !! o = Some b -> shape b = shape a ->
  exists s',
    Array._opVec2 self spv (Some o) s = (Ok None, s') /\
    dispatch true self [a; b]
      (mkOpSig spv 2 (VectorParams (buf_size (buffer a))) 64 1 1)
      (mkDataShape (buf_size (buffer a)) 1 1) (shape a) s self s'.
Proof.
  intros Ha Hb E.
  assert (live s [self; o] [a; b]) as Hl by (repeat constructor; assumption).
  destruct (inplace_form_spec self spv [o] PVec (@None ref) s _ (shape a) Hl)
    as (s' & Er & a' & Hh & D).
  injection Hh as <-.
  exists s'. split; [|exact D].
  unfold Array._opVec2.
  rewrite (bind_Ok _ _ _ _ _ (check_shape_Ok _ _ _ _ _ Ha Hb (eq_sym E))).
  exact Er.
Qed.

Lemma opVec2_none_spec self spv s a :
  heap s !! self = Some a ->
  exists s',
    Array._opVec2 self spv None s = (Ok (Some (fresh (dom (heap s)))), s') /\
    dispatch false self [a]
      (mkOpSig spv 2 (VectorParams (buf_size (buffer a))) 64 1 1)
      (mkDataShape (buf_size (buffer a)) 1 1) (shape a) s
      (fresh (dom (heap s))) s'.
Proof.
  intros Ha.
  assert (live s [self] [a]) as Hl by (repeat constructor; assumption).
  destruct (fresh_form_spec self spv [] PVec Some s _ Hl)
    as (s' & Er & a' & Hh & D).
  injection Hh as <-.
  exists s'. split; [exact Er|exact D].
Qed.

(** A method that ends in the assignment to [self.job] returns [None]. *)
Lemma inplace_form_unit self spv rs pk s s' :
  inplace_form self spv rs pk tt s = (Ok tt, s') ->
  (j <- launch self spv rs pk ;; set_job self (Some j)) s = (Ok tt, s').
Proof.
  unfold inplace_form, bind.
  destruct (launch self spv rs pk s) as [[j|e] s1]; [|auto].
  destruct (set_job self (Some j) s1) as [[[]|e] s2]; auto.
Qed.

Lemma opVec1_spec self spv s a :
  heap s !! self = Some a ->
  exists s',
    Array._opVec1 self spv s = (Ok tt, s') /\
    dispatch true self [a]
      (mkOpSig spv 1 (VectorParams (buf_size (buffer a))) 64 1 1)
      (mkDataShape (buf_size (buffer a)) 1 1) (shape a) s self s'.
Proof.
  intros Ha.
  assert (live s [self] [a]) as Hl by (repeat constructor; assumption).
  destruct (inplace_form_spec self spv [] PVec tt s _ (shape a) Hl)
    as (s' & Er & a' & Hh & D).
  injection Hh as <-.
  exists s'. split; [|exact D].
  exact (inplace_form_unit _ _ _ _ _ _ Er).
Qed.

Lemma opVecScalar2_spec self spv x s a :
  heap s !! self = Some a ->
  exists s',
    Array._opVecScalar2 self spv x s = (Ok (fresh (dom (heap s))), s') /\
    dispatch false self [a]
      (mkOpSig spv 2 (VectorScalarParams (buf_size (buffer a)) x) 64 1 1)
      (mkDataShape (buf_size (buffer a)) 1 1) (shape a) s
      (fresh (dom (heap s))) s'.
Proof.
  intros Ha.
  assert (live s [self] [a]) as Hl by (repeat constructor; assumption).
  destruct (fresh_form_spec self spv [] (PScalar x) id s _ Hl)
    as (s' & Er & a' & Hh & D).
  injection Hh as <-.
  exists s'. split; [exact Er|exact D].
Qed.

Lemma opVecScalar1_spec self spv x s a :
  heap s !! self = Some a ->
  exists s',
    Array._opVecScalar1 self spv x s = (Ok tt, s') /\
    dispatch true self [a]
      (mkOpSig spv 1 (VectorScalarParams (buf_size (buffer a)) x) 64 1 1)
      (mkDataShape (buf_size (buffer a)) 1 1) (shape a) s self s'.
Proof.
  intros Ha.
  assert (live s [self] [a]) as Hl by (repeat constructor; assumption).
  destruct (inplace_form_spec self spv [] (PScalar x) tt s _ (shape a) Hl)
    as (s' & Er & a' & Hh & D).
  injection Hh as <-.
  exists s'. split; [|exact D].
  exact (inplace_form_unit _ _ _ _ _ _ Er).
Qed.

(** ** Every call of the catalogue *)

(** Unfold a call down to the helper it ends in. *)
Ltac run_methods :=
  cbv beta iota delta
    [run run_binary run_reflected run_unary
     Array.__add__ Array.__sub__ Array.__mul__ Array.__truediv__
     Array.__pow__ Array.__iadd__ Array.__isub__ Array.__imul__
     Array.__itruediv__ Array.__ipow__ Array.max Array.min
     Array.__radd__ Array.__rsub__ Array.__rmul__ Array.__rtruediv__
     Array.__rpow__
     Array.abs Array.sign Array.sin Array.cos Array.tan Array.asin
     Array.acos Array.atan Array.sinh Array.cosh Array.tanh Array.asinh
     Array.acosh Array.atanh Array.exp Array.log Array.exp2 Array.log2
     Array.sqrt Array.invsqrt bind ret].

(** Close a case: the helper's equation decides the run, its [dispatch]
    is the call's up to computation of the signature. *)
Ltac close_case target Er D :=
  match type of Er with
  | _ = (_, ?s') =>
      exists target, s'; split;
      [run_methods; rewrite Er; reflexivity | exact D]
  end.

Lemma run_binary_dispatched op ip self other s objs :
  live s (operands (Binary op ip self other)) objs ->
  shapes_ok (Binary op ip self other) objs ->
  exists target s',
    run (Binary op ip self other) s
    = (Ok (result_of (Binary op ip self other) target), s') /\
    dispatched (Binary op ip self other) objs s target s'.
Proof.
  intros Hl Hs. destruct other as [o|x]; cbn [operands array_of] in Hl.
  - destruct (live_cons_inv _ _ _ _ Hl) as (a & rest & -> & Ha & Hl1).
    destruct (live_cons_inv _ _ _ _ Hl1) as (b & rest' & -> & Hb & Hl2).
    apply live_nil_inv in Hl2 as ->.
    cbn in Hs. apply Forall_cons in Hs as [E _].
    destruct op, ip;
      first
        [ edestruct (opVec2_some_spec self) as (s' & Er & D);
          [exact Ha|exact Hb|exact E|]; close_case self Er D
        | edestruct (opVec3_spec self) as (s' & Er & D);
          [exact Ha|exact Hb|exact E|];
          close_case (fresh (dom (heap s))) Er D ].
  - destruct (live_cons_inv _ _ _ _ Hl) as (a & rest & -> & Ha & Hl1).
    apply live_nil_inv in Hl1 as ->.
    destruct op, ip;
      first
        [ edestruct (opVecScalar1_spec self) as (s' & Er & D);
          [exact Ha|]; close_case self Er D
        | edestruct (opVecScalar2_spec self) as (s' & Er & D);
          [exact Ha|]; close_case (fresh (dom (heap s))) Er D ].
Qed.

Lemma run_reflected_dispatched op self x s objs :
  live s (operands (Reflected op self x)) objs ->
  exists target s',
    run (Reflected op self x) s
    = (Ok (result_of (Reflected op self x) target), s') /\
    dispatched (Reflected op self x) objs s target s'.
Proof.
  intros Hl. cbn [operands] in Hl.
  destruct (live_cons_inv _ _ _ _ Hl) as (a & rest & -> & Ha & Hl1).
  apply live_nil_inv in Hl1 as ->.
  destruct op;
    edestruct (opVecScalar2_spec self) as (s' & Er & D);
    [exact Ha| |exact Ha| |exact Ha| |exact Ha| |exact Ha| ];
    close_case (fresh (dom (heap s))) Er D.
Qed.

Lemma run_unary_dispatched op ip self s objs :
  live s (operands (Unary op ip self)) objs ->
  exists target s',
    run (Unary op ip self) s
    = (Ok (result_of (Unary op ip self) target), s') /\
    dispatched (Unary op ip self) objs s target s'.
Proof.
  intros Hl. cbn [operands] in Hl.
  destruct (live_cons_inv _ _ _ _ Hl) as (a & rest & -> & Ha & Hl1).
  apply live_nil_inv in Hl1 as ->.
  destruct op, ip;
    first
      [ edestruct (opVec1_spec self) as (s' & Er & D);
        [exact Ha|]; close_case self Er D
      | edestruct (opVec2_none_spec self) as (s' & Er & D);
        [exact Ha|]; close_case (fresh (dom (heap s))) Er D ].
Qed.

Lemma bind_ret {A B} (a : A) (f : A -> M B) s : bind (ret a) f s = f a s.
Proof. reflexivity. Qed.

(** Both branches of [clamp] after its shape checks. *)
Ltac clamp_forms self s ip Hl ispv spv pk sh :=
  destruct ip; cbn [negb];
  [ edestruct (@inplace_form_spec (option ref) self ispv _ pk None s _ sh Hl)
      as (s' & Er & a' & Hh & D); injection Hh as <-;
    exists self, s'; split; [exact Er|exact D]
  | edestruct (@fresh_form_spec (option ref) self spv _ pk Some s _ Hl)
      as (s' & Er & a' & Hh & D); injection Hh as <-;
    exists (fresh (dom (heap s))), s'; split; [exact Er|exact D] ].

Lemma run_clamp_dispatched self mn mx ip s objs :
  live s (operands (Clamp self mn mx ip)) objs ->
  shapes_ok (Clamp self mn mx ip) objs ->
  exists target s',
    run (Clamp self mn mx ip) s
    = (Ok (result_of (Clamp self mn mx ip) target), s') /\
    dispatched (Clamp self mn mx ip) objs s target s'.
Proof.
  intros Hl Hs. pose proof Hl as Hl0.
  destruct mn as [m|x], mx as [n|y]; cbn [operands array_of app] in Hl, Hl0;
    destruct (live_cons_inv _ _ _ _ Hl) as (a & rest & -> & Ha & Hl1);
    cbn [shapes_ok is_matmul] in Hs; cbn [run]; unfold Array.clamp.
  - destruct (live_cons_inv _ _ _ _ Hl1) as (b & rest1 & -> & Hb & Hl2).
    destruct (live_cons_inv _ _ _ _ Hl2) as (c & rest2 & -> & Hc & Hl3).
    apply live_nil_inv in Hl3 as ->.
    apply Forall_cons in Hs as [Eb Hs]. apply Forall_cons in Hs as [Ec _].
    rewrite (bind_Ok _ _ _ _ _ (check_shape_Ok _ _ _ _ _ Ha Hb (eq_sym Eb))).
    rewrite (bind_Ok _ _ _ _ _ (check_shape_Ok _ _ _ _ _ Ha Hc (eq_sym Ec))).
    clamp_forms self s ip Hl0 Array._iclamp Array._clamp PVec (shape a).
  - destruct (live_cons_inv _ _ _ _ Hl1) as (b & rest1 & -> & Hb & Hl2).
    apply live_nil_inv in Hl2 as ->.
    apply Forall_cons in Hs as [Eb _].
    rewrite (bind_Ok _ _ _ _ _ (check_shape_Ok _ _ _ _ _ Ha Hb (eq_sym Eb))).
    rewrite bind_ret.
    clamp_forms self s ip Hl0 Array._iclamp_vs Array._clamp_vs (PScalar y)
      (shape a).
  - destruct (live_cons_inv _ _ _ _ Hl1) as (b & rest1 & -> & Hb & Hl2).
    apply live_nil_inv in Hl2 as ->.
    apply Forall_cons in Hs as [Eb _].
    rewrite bind_ret.
    rewrite (bind_Ok _ _ _ _ _ (check_shape_Ok _ _ _ _ _ Ha Hb (eq_sym Eb))).
    clamp_forms self s ip Hl0 Array._iclamp_sv Array._clamp_sv (PScalar x)
      (shape a).
  - apply live_nil_inv in Hl1 as ->.
    rewrite !bind_ret.
    clamp_forms self s ip Hl0 Array._iclamp_ss Array._clamp_ss (PScalar2 x y)
      (shape a).
Qed.

(** ** Matrix multiply *)

Lemma last_is_Some {A} (l : list A) : (1 <= length l)%nat -> is_Some (last l).
Proof.
  intros H. destruct (last l) eqn:E; [eauto|].
  apply last_None in E. subst l. cbn in H. lia.
Qed.

Lemma index_last_Ok sa x s :
  last sa = Some x -> Array.index_last sa s = (Ok x, s).
Proof. intros H. unfold Array.index_last. rewrite H. reflexivity. Qed.

Lemma index_first_Ok sa x s :
  head sa = Some x -> Array.index_first sa s = (Ok x, s).
Proof. destruct sa; intros [= ->]. reflexivity. Qed.

Lemma rowA_Ok sa s :
  (1 <= length sa)%nat ->
  (if bool_decide (1 < length sa)%nat then Array.index_first sa else ret 1) s
  = (Ok (rowA_of sa), s).
Proof.
  intros H. unfold rowA_of. destruct (bool_decide (1 < length sa)%nat).
  - destruct sa; [cbn in H; lia|reflexivity].
  - reflexivity.
Qed.

Lemma columnB_Ok sb s :
  (if bool_decide (1 < length sb)%nat
   then match sb !! 1%nat with
        | Some d => ret d
        | None => raise IndexError
        end
   else ret 1) s
  = (Ok (columnB_of sb), s).
Proof.
  unfold columnB_of. destruct (bool_decide (1 < length sb)%nat) eqn:E;
    [|reflexivity].
  apply bool_decide_eq_true in E.
  destruct (lookup_lt_is_Some_2 sb 1%nat E) as [d Hd]. rewrite Hd. reflexivity.
Qed.

Lemma matmul_spec self other s a b :
  heap s !! self = Some a -> heap s !! other = Some b ->
  (1 <= length (shape a) <= 3)%nat -> (1 <= length (shape b) <= 3)%nat ->
  last (shape a) = head (shape b) ->
  exists s',
    Array.__matmul__ self other s = (Ok (fresh (dom (heap s))), s') /\
    dispatched (Matmul self other) [a; b] s (fresh (dom (heap s))) s'.
Proof.
  intros Ha Hb [La1 La3] [Lb1 Lb3] E.
  destruct (last_is_Some (shape a) La1) as [x Hx].
  unfold Array.__matmul__.
  rewrite (bind_Ok _ _ _ _ _ (load_Ok _ _ _ Ha)).
  rewrite (bind_Ok _ _ _ _ _ (load_Ok _ _ _ Hb)).
  rewrite (bool_decide_eq_false_2 (3 < length (shape a))%nat) by lia.
  rewrite (bool_decide_eq_false_2 (3 < length (shape b))%nat) by lia.
  assert (head (shape b) = Some x) as Hy by (rewrite <- E; exact Hx).
  erewrite bind_Ok; cycle 1.
  { rewrite (bind_Ok _ _ _ _ _ (index_last_Ok _ _ _ Hx)).
    rewrite (bind_Ok _ _ _ _ _ (index_first_Ok _ _ _ Hy)).
    reflexivity. }
  rewrite (bool_decide_eq_true_2 (x = x) eq_refl). cbn [negb].
  rewrite (bind_Ok _ _ _ _ _ (rowA_Ok _ _ La1)).
  rewrite (bind_Ok _ _ _ _ _ (index_last_Ok _ _ _ Hx)).
  rewrite (bind_Ok _ _ _ _ _ (columnB_Ok _ _)).
  fold (matmul_shape (shape a) (shape b)).
  rewrite (bind_Ok _ _ _ _ _ (init_shape_Ok _ _ _)).
  rewrite (bind_Ok _ _ _ _ _ (load_Ok _ _ _ (allocated_lookup_new _ _ _))).
  destruct (submit_launched (_gpu a) Array._matmul 1 64 1 (buffer a)
              [buffer b; buffer (new_array s (_gpu a)
                                   (matmul_shape (shape a) (shape b)))]
              (mkDataShape (rowA_of (shape a)) (columnB_of (shape b)) 1)
              (MatMulParams (rowA_of (shape a)) x (columnB_of (shape b)))
              (Array.semaphores_of [a; b])
              (allocated s (_gpu a) (matmul_shape (shape a) (shape b))))
    as (h & j & s1 & Es & L).
  rewrite (bind_Ok _ _ _ _ _ Es).
  assert (heap s1 !! fresh (dom (heap s))
          = Some (new_array s (_gpu a) (matmul_shape (shape a) (shape b))))
    as Hn by (destruct L as (-> & _); apply allocated_lookup_new).
  rewrite (bind_Ok _ _ _ _ _ (set_job_Ok _ _ _ _ Hn)).
  eexists. split; [reflexivity|].
  exists a, [b], s1, h, j. split; [reflexivity|].
  cbn [in_place]. split; [reflexivity|]. split; [|reflexivity].
  unfold signature, data_shape, result_shape. cbn [is_matmul head fmap].
  unfold contractSize_of. rewrite Hx. exact L.
Qed.

Lemma run_dispatched c s objs :
  live s (operands c) objs -> shapes_ok c objs ->
  exists target s',
    run c s = (Ok (result_of c target), s') /\ dispatched c objs s target s'.
Proof.
  intros Hl Hs. destruct c as [op ip self o|op self x|op ip self|self mn mx ip|self o].
  - apply run_binary_dispatched; assumption.
  - apply run_reflected_dispatched; assumption.
  - apply run_unary_dispatched; assumption.
  - apply run_clamp_dispatched; assumption.
  - cbn [operands] in Hl.
    destruct (live_cons_inv _ _ _ _ Hl) as (a & rest & -> & Ha & Hl1).
    destruct Hs as (b & -> & Ra & Rb & E).
    destruct (live_cons_inv _ _ _ _ Hl1) as (b' & rest' & Eq & Hb & _).
    injection Eq as <- <-.
    destruct (matmul_spec self o s a b Ha Hb Ra Rb E) as (s' & Er & D).
    exists (fresh (dom (heap s))), s'. split; [|exact D].
    cbn [run]. rewrite (bind_Ok _ _ _ _ _ Er). reflexivity.
Qed.

(** ** What no method undoes *)

Lemma extends_refl s : extends s s.
Proof. repeat split; auto. Qed.

Lemma extends_trans s1 s2 s3 : extends s1 s2 -> extends s2 s3 -> extends s1 s3.
Proof.
  intros (C1 & K1 & Z1 & T1) (C2 & K2 & Z2 & T2). repeat split; auto.
  - etransitivity; eassumption.
  - etransitivity; eassumption.
Qed.

Lemma extending_ret {A} (a : A) : extending (ret a).
Proof. intros s. apply extends_refl. Qed.

Lemma extending_raise {A} e : extending (@raise A e).
Proof. intros s. apply extends_refl. Qed.

Lemma extending_bind {A B} (m : M A) (f : A -> M B) :
  extending m -> (forall a, extending (f a)) -> extending (bind m f).
Proof.
  intros Hm Hf s. unfold bind. specialize (Hm s).
  destruct (m s) as [[a|e] s1]; cbn in *; [|exact Hm].
  eapply extends_trans; [exact Hm|apply Hf].
Qed.

Lemma extending_load r : extending (load r).
Proof. intros s. unfold load. destruct (heap s !! r); apply extends_refl. Qed.

Lemma extending_load_all rs : extending (load_all rs).
Proof.
  induction rs as [|r rs IH]; cbn [load_all].
  - apply extending_ret.
  - apply extending_bind; [apply extending_load|intros a].
    apply extending_bind; [exact IH|intros l]. apply extending_ret.
Qed.

Lemma extending_emit e : extending (emit e).
Proof.
  intros s. cbn. repeat split; auto. apply prefix_app_r. reflexivity.
Qed.

Lemma extending_set_job r j : extending (set_job r j).
Proof.
  intros s. unfold set_job, bind, load.
  destruct (heap s !! r) as [a|] eqn:Ha; cbn; [|apply extends_refl].
  repeat split; auto.
  intros Hz r' a' H. cbn [heap set_heap] in H.
  destruct (decide (r = r')) as [<-|N].
  - rewrite lookup_insert_eq in H. injection H as <-. cbn. eauto.
  - rewrite lookup_insert_ne in H by exact N. eauto.
Qed.

Lemma extending_init g data sh : extending (Array.__init__ g data sh).
Proof.
  assert (forall s n shp,
    n = Array.prod shp ->
    forall ev,
    extends s
      (set_heap <[fresh (dom (heap s)) := mkArray g shp (mkBuffer (fresh (buffers s)) n) None]>
         (add_event ev (set_buffers (union {[fresh (buffers s)]}) s)))) as H.
  { intros s n shp -> ev. repeat split; auto.
    - intros Hz r a H. cbn [heap set_heap add_event set_buffers] in H.
      destruct (decide (fresh (dom (heap s)) = r)) as [<-|N].
      + rewrite lookup_insert_eq in H. injection H as <-. reflexivity.
      + rewrite lookup_insert_ne in H by exact N. eauto.
    - cbn. apply prefix_app_r. reflexivity. }
  intros s. destruct data as [d|]; [|destruct sh as [shp|]].
  - exact (H s _ (nd_shape d) eq_refl
             (EvToBuffer g (mkBuffer (fresh (buffers s))
                              (Array.prod (nd_shape d))))).
  - exact (H s _ shp eq_refl
             (EvCreateBuffer g (mkBuffer (fresh (buffers s))
                                  (Array.prod shp)))).
  - apply extends_refl.
Qed.

Lemma extending_submit g spv lx ly lz bufs ds ps sems :
  extending (GPU._submit g spv lx ly lz bufs ds ps sems).
Proof.
  intros s. destruct bufs as [|b bufs].
  - unfold GPU._submit, bind.
    destruct (GPU._createOp g spv (length []) ps lx ly lz s) as [[h|e] s1] eqn:E.
    + cbn.
      destruct (op_cache s !! (g, mkOpSig spv (length (@nil Buffer)) ps lx ly lz))
        as [h0|] eqn:Hc.
      * rewrite (createOp_hit _ _ _ _ _ _ _ _ _ Hc) in E.
        injection E as <- <-. apply extends_refl.
      * rewrite (createOp_miss _ _ _ _ _ _ _ _ Hc) in E.
        injection E as <- <-. repeat split; auto.
        -- cbn. apply insert_subseteq. exact Hc.
        -- intros Hs g' sg' h' H. cbn in *.
           destruct (decide ((g, mkOpSig spv 0 ps lx ly lz) = (g', sg'))) as [Eq|N].
           ++ rewrite <- Eq in *. rewrite lookup_insert_eq in H.
              injection H as <-. apply lookup_insert_eq.
           ++ rewrite lookup_insert_ne in H by exact N.
              rewrite lookup_insert_ne; [auto|].
              intros <-. apply Hs in H.
              apply (is_fresh (dom (compiled s))), elem_of_dom. eauto.
        -- cbn. apply prefix_app_r. reflexivity.
    + unfold GPU._createOp, GPU.functools_cache, bind, get_state in E.
      destruct (op_cache s !! _); discriminate.
  - destruct (submit_launched g spv lx ly lz b bufs ds ps sems s)
      as (h & j & s' & E & L).
    rewrite E. cbn [snd].
    pose proof (launched_cache_mono _ _ _ _ _ _ _ _ _ L) as Hm.
    repeat split; auto.
    + intros Hs. eapply launched_cache_sound; eassumption.
    + destruct L as (Hh & _). intros Hz r a H. rewrite Hh in H. eauto.
    + destruct L as (_ & _ & _ & _ & _ & L).
      destruct (op_cache s !! _); destruct L as (_ & _ & _ & ->);
        apply prefix_app_r; reflexivity.
Qed.

Ltac extending_step :=
  lazymatch goal with
  | |- extending (ret _) => apply extending_ret
  | |- extending (raise _) => apply extending_raise
  | |- extending (load _) => apply extending_load
  | |- extending (load_all _) => apply extending_load_all
  | |- extending (emit _) => apply extending_emit
  | |- extending (set_job _ _) => apply extending_set_job
  | |- extending (Array.__init__ _ _ _) => apply extending_init
  | |- extending (GPU._submit _ _ _ _ _ _ _ _ _) => apply extending_submit
  | |- extending (bind _ _) => apply extending_bind; [|intros ?]
  | |- extending (match ?x with _ => _ end) => destruct x
  end.

Ltac extending_auto := repeat extending_step.

Lemma extending_check_shape self other : extending (Array._check_shape self other).
Proof. unfold Array._check_shape. extending_auto. Qed.

Lemma extending_launch self spv rs pk : extending (launch self spv rs pk).
Proof.
  destruct pk; cbn [launch];
    unfold Array._opVec, Array._opVecScalar, Array._opVec2Scalar;
    extending_auto.
Qed.

Lemma extending_opVec self spv rs : extending (Array._opVec self spv rs).
Proof. apply (extending_launch self spv rs PVec). Qed.

Lemma extending_opVecScalar self spv rs x :
  extending (Array._opVecScalar self spv rs x).
Proof. apply (extending_launch self spv rs (PScalar x)). Qed.

Lemma extending_opVec2Scalar self spv rs xy :
  extending (Array._opVec2Scalar self spv rs xy).
Proof. destruct xy as [x y]. apply (extending_launch self spv rs (PScalar2 x y)). Qed.

Ltac extending_more :=
  repeat first
    [ extending_step
    | lazymatch goal with
      | |- extending (Array._check_shape _ _) => apply extending_check_shape
      | |- extending (Array._opVec _ _ _) => apply extending_opVec
      | |- extending (Array._opVecScalar _ _ _ _) => apply extending_opVecScalar
      | |- extending (Array._opVec2Scalar _ _ _ _) => apply extending_opVec2Scalar
      | |- extending (Array.index_last _) =>
          unfold Array.index_last
      | |- extending (Array.index_first _) =>
          unfold Array.index_first
      | |- extending (Backend.wait _) => apply extending_emit
      end ].

Lemma extending_opVec3 self spv o : extending (Array._opVec3 self spv o).
Proof.
  unfold Array._opVec3. extending_more.
Qed.

Lemma extending_opVec2 self spv o : extending (Array._opVec2 self spv o).
Proof.
  unfold Array._opVec2. destruct o; extending_more.
Qed.

Lemma extending_opVec1 self spv : extending (Array._opVec1 self spv).
Proof.
  unfold Array._opVec1. extending_more.
Qed.

Lemma extending_opVecScalar2 self spv x : extending (Array._opVecScalar2 self spv x).
Proof.
  unfold Array._opVecScalar2. extending_more.
Qed.

Lemma extending_opVecScalar1 self spv x : extending (Array._opVecScalar1 self spv x).
Proof.
  unfold Array._opVecScalar1. extending_more.
Qed.

Lemma extending_matmul self other : extending (Array.__matmul__ self other).
Proof.
  unfold Array.__matmul__. extending_more.
Qed.

Lemma extending_clamp self mn mx ip : extending (Array.clamp self mn mx ip).
Proof.
  unfold Array.clamp. destruct mn, mx, ip; cbn [negb]; extending_more.
Qed.

Lemma extending_wait self : extending (Array.wait self).
Proof. unfold Array.wait. extending_more. Qed.

Ltac extending_methods :=
  repeat lazymatch goal with
    | |- extending (Array._opVec3 _ _ _) => apply extending_opVec3
    | |- extending (Array._opVec2 _ _ _) => apply extending_opVec2
    | |- extending (Array._opVec1 _ _) => apply extending_opVec1
    | |- extending (Array._opVecScalar2 _ _ _) => apply extending_opVecScalar2
    | |- extending (Array._opVecScalar1 _ _ _) => apply extending_opVecScalar1
    | |- extending (Array.__matmul__ _ _) => apply extending_matmul
    | |- extending (Array.clamp _ _ _ _) => apply extending_clamp
    | |- extending (ret _) => apply extending_ret
    | |- extending (bind _ _) => apply extending_bind; [|intros ?]
    end.

Lemma extending_run c : extending (run c).
Proof.
  destruct c as [op ip self o|op self x|op ip self|self mn mx ip|self o];
    cbn [run].
  - destruct op, ip, o; cbv beta iota delta
      [run_binary Array.__add__ Array.__sub__ Array.__mul__
       Array.__truediv__ Array.__pow__ Array.__iadd__ Array.__isub__
       Array.__imul__ Array.__itruediv__ Array.__ipow__ Array.max Array.min];
      extending_methods.
  - destruct op; cbv beta iota delta
      [run_reflected Array.__radd__ Array.__rsub__ Array.__rmul__
       Array.__rtruediv__ Array.__rpow__];
      extending_methods.
  - destruct op, ip; cbv beta iota delta
      [run_unary Array.abs Array.sign Array.sin Array.cos Array.tan
       Array.asin Array.acos Array.atan Array.sinh Array.cosh Array.tanh
       Array.asinh Array.acosh Array.atanh Array.exp Array.log Array.exp2
       Array.log2 Array.sqrt Array.invsqrt];
      extending_methods.
  - extending_methods.
  - extending_methods.
Qed.

(** C1. A binary elementwise operation on two Arrays (add, subtract,
    multiply, divide, max, min, power, out of place or in place) whose
    shapes are not equal raises the shape [ValueError] and leaves the
    whole state as it was: no buffer is allocated, nothing is compiled or
    submitted, and no Array's buffer, shape or pending job changes. *)
Theorem binary_shape_mismatch_raises op ip self other s a b :
  heap s !! self = Some a ->
  heap s !! other = Some b ->
  shape a <> shape b ->
  run (Binary op ip self (OArray other)) s
  = (Raise (ValueError_IncompatibleShapes (shape a) (shape b)), s).
Proof.
  intros Ha Hb N.
  pose proof (check_shape_Raise _ _ _ _ _ Ha Hb N) as E.
  destruct op, ip; run_methods;
    unfold Array._opVec3, Array._opVec2, bind; rewrite E; reflexivity.
Qed.

Lemma binary_shape_mismatch_raises_witness :
  run (Binary Add false 0%nat (OArray 1%nat)) (two_arrays [2; 3] [3; 2])
  = (Raise (ValueError_IncompatibleShapes [2; 3] [3; 2]),
     two_arrays [2; 3] [3; 2]).
Proof.
  apply (binary_shape_mismatch_raises Add false 0%nat 1%nat
           (two_arrays [2; 3] [3; 2])
           (mkArray 0%nat [2; 3] (mkBuffer 0%nat 6) None)
           (mkArray 0%nat [3; 2] (mkBuffer 1%nat 6) None)).
  - vm_compute. reflexivity.
  - vm_compute. reflexivity.
  - cbn. discriminate.
Defined.

(** ** Materialisation *)

Lemma wait_Ok self a s :
  heap s !! self = Some a -> Array.wait self s = (Ok tt, waited self a s).
Proof.
  intros Ha. unfold Array.wait, waited.
  rewrite (bind_Ok _ _ _ _ _ (load_Ok _ _ _ Ha)).
  destruct (job a) as [j|]; [|reflexivity].
  unfold Backend.wait.
  erewrite bind_Ok by reflexivity.
  apply (set_job_Ok self a None). exact Ha.
Qed.

Lemma waited_lookup self a s :
  heap s !! self = Some a ->
  heap (waited self a s) !! self = Some (with_job a None).
Proof.
  intros Ha. unfold waited. destruct a as [g sh b [j|]]; cbn.
  - apply lookup_insert_eq.
  - exact Ha.
Qed.

Lemma waited_heap self a s :
  heap s !! self = Some a ->
  heap (waited self a s) = <[self := with_job a None]> (heap s).
Proof.
  intros Ha. unfold waited. destruct a as [g sh b [j|]]; cbn.
  - reflexivity.
  - symmetry. apply insert_id. exact Ha.
Qed.

Lemma waited_trace self a s :
  trace (waited self a s)
  = trace s ++ match job a with Some j => [EvJobWait j] | None => [] end.
Proof.
  unfold waited. destruct (job a); cbn; [reflexivity|].
  symmetry. apply app_nil_r.
Qed.

Lemma materialize_spec m self s a :
  heap s !! self = Some a ->
  exists reads,
    heap (exec (materialize m self) s) = <[self := with_job a None]> (heap s) /\
    trace (exec (materialize m self) s)
    = trace s
      ++ match job a with Some j => [EvJobWait j] | None => [] end ++ reads /\
    waits reads = [].
Proof.
  intros Ha.
  pose proof (wait_Ok _ _ _ Ha) as Ew.
  pose proof (waited_lookup _ _ _ Ha) as Hw.
  pose proof (waited_heap _ _ _ Ha) as Hh.
  pose proof (waited_trace self a s) as Ht.
  unfold exec. destruct m as [key| |]; cbn [materialize];
    unfold Array.__getitem__, Array.__array__, Array.__str__;
    rewrite (bind_Ok _ _ _ _ _ Ew);
    rewrite (bind_Ok _ _ _ _ _ (load_Ok _ _ _ Hw)).
  - cbn [shape with_job]. destruct (Array.key_ok (shape a) key).
    + exists [EvHostRead (buffer a) key]. cbn.
      rewrite Hh, Ht, <- app_assoc. auto.
    + exists []. cbn. rewrite Hh, Ht, app_nil_r. auto.
  - exists []. cbn. rewrite Hh, Ht, app_nil_r. auto.
  - exists [EvHostRead (buffer a) KEllipsis]. cbn.
    rewrite Hh, Ht, <- app_assoc. auto.
Qed.

Lemma waits_app t1 t2 : waits (t1 ++ t2) = waits t1 ++ waits t2.
Proof. apply omap_app. Qed.

(** C5. Materialising an Array (through [__getitem__], [__array__] or
    [__str__]) first waits for its pending job, if it has one, and leaves
    the pending-job reference [None], all else in the heap unchanged; it
    waits for nothing else.  A second materialisation of the same Array
    then changes no object and waits for nothing. *)
Theorem materialization_waits_then_clears m self s a :
  heap s !! self = Some a ->
  heap (exec (materialize m self) s) = <[self := with_job a None]> (heap s) /\
  (exists reads,
     trace (exec (materialize m self) s)
     = trace s
       ++ match job a with Some j => [EvJobWait j] | None => [] end ++ reads /\
     waits reads = []) /\
  (forall m2,
     heap (exec (materialize m2 self) (exec (materialize m self) s))
     = heap (exec (materialize m self) s) /\
     waits (trace (exec (materialize m2 self) (exec (materialize m self) s)))
     = waits (trace (exec (materialize m self) s))).
Proof.
  intros Ha.
  destruct (materialize_spec m self s a Ha) as (reads & Hh & Ht & Hr).
  split; [exact Hh|]. split; [eauto|].
  intros m2.
  assert (heap (exec (materialize m self) s) !! self = Some (with_job a None))
    as Ha' by (rewrite Hh; apply lookup_insert_eq).
  destruct (materialize_spec m2 self _ _ Ha') as (reads2 & Hh2 & Ht2 & Hr2).
  split.
  - rewrite Hh2. apply insert_id. exact Ha'.
  - rewrite Ht2. cbn [job with_job app]. rewrite waits_app, Hr2.
    apply app_nil_r.
Qed.

Lemma materialization_waits_then_clears_witness :
  heap pending_state !! 0%nat
  = Some (mkArray 0%nat [3] (mkBuffer 0%nat 3) (Some 0%nat)) /\
  heap (exec (materialize (MGetItem (KInt 0)) 0%nat) pending_state)
  = <[0%nat := mkArray 0%nat [3] (mkBuffer 0%nat 3) None]> (heap pending_state).
Proof.
  split; [vm_compute; reflexivity|].
  apply (materialization_waits_then_clears (MGetItem (KInt 0)) 0%nat
           pending_state
           (mkArray 0%nat [3] (mkBuffer 0%nat 3) (Some 0%nat))).
  vm_compute. reflexivity.
Defined.

(** C10. [__setitem__] changes no object, so the pending-job reference
    stays as it is, and waits for no job; with a key the view accepts it
    writes through.  [__getitem__] on the same Array with a pending job
    waits for that job first. *)
Theorem setitem_does_not_wait self key value s a :
  heap s !! self = Some a ->
  heap (exec (Array.__setitem__ self key value) s) = heap s /\
  waits (trace (exec (Array.__setitem__ self key value) s)) = waits (trace s) /\
  (Array.key_ok (shape a) key = true ->
   Array.__setitem__ self key value s
   = (Ok tt, add_event (EvHostWrite (buffer a) key value) s)) /\
  (forall j, job a = Some j ->
     heap (exec (Array.__setitem__ self key value) s) !! self = Some a /\
     exists reads,
       trace (exec (Array.__getitem__ self key) s)
       = trace s ++ EvJobWait j :: reads).
Proof.
  intros Ha. unfold exec, Array.__setitem__.
  rewrite (bind_Ok _ _ _ _ _ (load_Ok _ _ _ Ha)).
  destruct (Array.key_ok (shape a) key) eqn:K; cbn.
  - split; [reflexivity|]. split.
    + rewrite waits_app. cbn. apply app_nil_r.
    + split; [reflexivity|]. intros j Hj. split; [exact Ha|].
      destruct (materialize_spec (MGetItem key) self s a Ha)
        as (reads & _ & Ht & _).
      rewrite Hj in Ht. exists reads. exact Ht.
  - split; [reflexivity|]. split; [reflexivity|].
    split; [discriminate|]. intros j Hj. split; [exact Ha|].
    destruct (materialize_spec (MGetItem key) self s a Ha)
      as (reads & _ & Ht & _).
    rewrite Hj in Ht. exists reads. exact Ht.
Qed.

Lemma setitem_does_not_wait_witness :
  heap pending_state !! 0%nat
  = Some (mkArray 0%nat [3] (mkBuffer 0%nat 3) (Some 0%nat)) /\
  heap (exec (Array.__setitem__ 0%nat (KInt 0) 5) pending_state) !! 0%nat
  = Some (mkArray 0%nat [3] (mkBuffer 0%nat 3) (Some 0%nat)) /\
  waits (trace (exec (Array.__setitem__ 0%nat (KInt 0) 5) pending_state))
  = waits (trace pending_state).
Proof.
  assert (heap pending_state !! 0%nat
          = Some (mkArray 0%nat [3] (mkBuffer 0%nat 3) (Some 0%nat))) as H
    by (vm_compute; reflexivity).
  pose proof (setitem_does_not_wait 0%nat (KInt 0) 5 pending_state _ H)
    as (_ & Hw & _ & Hp).
  split; [exact H|]. split; [|exact Hw].
  exact (proj1 (Hp 0%nat eq_refl)).
Defined.

(** ** What a dispatched call leaves behind *)

Lemma submissions_app t1 t2 :
  submissions (t1 ++ t2) = submissions t1 ++ submissions t2.
Proof. apply List.filter_app. Qed.

(** The events of a [launched] submission: a compilation on a miss, then
    the submission. *)
Lemma launched_trace s s' g sg bufs ds sems h j :
  launched s s' g sg bufs ds sems h j ->
  exists evs,
    trace s' = trace s ++ evs ++ [EvSubmit g h bufs ds (sig_params sg) sems j] /\
    submissions evs = [] /\ waits evs = [] /\
    (evs = [] \/ evs = [EvCreateOp g h sg]) /\
    (evs = [] <-> is_Some (op_cache s !! (g, sg))).
Proof.
  intros (_ & _ & _ & _ & _ & Hm).
  destruct (op_cache s !! (g, sg)) as [h0|].
  - destruct Hm as (_ & _ & _ & ->). exists []. cbn.
    repeat split; eauto.
  - destruct Hm as (_ & _ & _ & ->). exists [EvCreateOp g h sg]. cbn.
    repeat split; eauto; intros H; [discriminate|destruct H; discriminate].
Qed.

Lemma dispatch_summary inplace self objs sg ds sh s target s' :
  dispatch inplace self objs sg ds sh s target s' ->
  exists a rest h j evs,
    objs = a :: rest /\
    target = (if inplace then self else fresh (dom (heap s))) /\
    heap s' = <[target := with_job (if inplace then a
                                    else new_array s (_gpu a) sh) (Some j)]>
                (heap s) /\
    trace s' = trace s ++ evs
               ++ [EvSubmit (_gpu a) h
                     (map buffer objs
                      ++ if inplace then [] else [new_buffer s sh])
                     ds (sig_params sg) (Array.semaphores_of objs) j] /\
    submissions evs = [] /\ waits evs = [] /\
    op_cache s' !! (_gpu a, sg) = Some h /\
    (cache_sound s -> compiled s' !! h = Some (_gpu a, sg)).
Proof.
  intros (a & rest & s1 & h & j & -> & H).
  exists a, rest, h, j. destruct inplace.
  - destruct H as (-> & L & ->).
    destruct (launched_trace _ _ _ _ _ _ _ _ _ L) as (evs & Ht & Hs & Hw & _).
    exists evs. rewrite app_nil_r.
    pose proof L as (Hh & _ & _ & _ & Hc & _).
    repeat split; auto.
    + cbn. rewrite Hh. reflexivity.
    + intros K. apply (launched_cache_sound _ _ _ _ _ _ _ _ _ L K).
  - destruct H as (-> & L & ->).
    destruct (launched_trace _ _ _ _ _ _ _ _ _ L) as (evs & Ht & Hs & Hw & _).
    exists (EvCreateBuffer (_gpu a) (new_buffer s sh) :: evs).
    pose proof L as (Hh & _ & _ & _ & Hc & _).
    repeat split; auto.
    + cbn. rewrite Hh. cbn. apply insert_insert_eq.
    + cbn [trace set_heap]. rewrite Ht. cbn. rewrite <- app_assoc. reflexivity.
    + intros K. apply (launched_cache_sound _ _ _ _ _ _ _ _ _ L K).
Qed.

Lemma operands_self c : exists rs, operands c = self_of c :: rs.
Proof. destruct c; cbn; eauto. Qed.

Lemma result_of_out_of_place c target :
  in_place c = false -> result_of c target = Some target.
Proof.
  destruct c as [op ip self o|op self x|op ip self|self mn mx ip|self o];
    cbn; intros H; try subst ip; try reflexivity; destruct op; reflexivity.
Qed.

Lemma live_pending s rs objs x :
  live s rs objs ->
  x ∈ Array.semaphores_of objs <->
  exists r a, r ∈ rs /\ heap s !! r = Some a /\ job a = Some x.
Proof.
  intros Hl. unfold Array.semaphores_of. rewrite list_elem_of_omap. split.
  - intros (a & Hin & Hj).
    apply list_elem_of_lookup in Hin as [i Hi].
    destruct (Forall2_lookup_r _ _ _ _ _ Hl Hi) as (r & Hr & Hh).
    exists r, a. split; [eapply list_elem_of_lookup_2, Hr|]. auto.
  - intros (r & a & Hin & Hh & Hj).
    apply list_elem_of_lookup in Hin as [i Hi].
    destruct (Forall2_lookup_l _ _ _ _ _ Hl Hi) as (a' & Ha' & Hh').
    rewrite Hh in Hh'. injection Hh' as <-.
    exists a. split; [eapply list_elem_of_lookup_2, Ha'|exact Hj].
Qed.

(** C3. Every call issues one submission; the wait-dependencies it passes
    are the pending jobs of its operand Arrays, in operand order: a job is
    among them exactly when it is the pending job of some operand.  An
    in-place call writes [self]: the pending job [self] had before the
    call is among the dependencies, and the job the submission returned
    is the pending job of [self] afterwards. *)
Theorem submission_waits_for_operands c s objs :
  live s (operands c) objs ->
  shapes_ok c objs ->
  exists target s' g h bufs ds ps j evs,
    run c s = (Ok (result_of c target), s') /\
    trace s' = trace s ++ evs
               ++ [EvSubmit g h bufs ds ps (Array.semaphores_of objs) j] /\
    submissions evs = [] /\
    (forall x, x ∈ Array.semaphores_of objs <->
               exists r a, r ∈ operands c /\ heap s !! r = Some a /\
                           job a = Some x) /\
    (in_place c = true ->
     target = self_of c /\
     exists a, heap s !! self_of c = Some a /\
               (forall j0, job a = Some j0 -> j0 ∈ Array.semaphores_of objs) /\
               heap s' !! self_of c = Some (with_job a (Some j))).
Proof.
  intros Hl Hs.
  destruct (run_dispatched c s objs Hl Hs) as (target & s' & Er & D).
  destruct (dispatch_summary _ _ _ _ _ _ _ _ _ D)
    as (a & rest & h & j & evs & -> & Ht & Hh & Htr & Hsub & _ & _ & _).
  exists target, s', (_gpu a), h. do 3 eexists. exists j, evs.
  split; [exact Er|]. split; [exact Htr|]. split; [exact Hsub|].
  split; [intros x; apply live_pending; exact Hl|].
  intros Hip. rewrite Hip in Ht, Hh. split; [exact Ht|].
  destruct (operands_self c) as [rs Eo]. rewrite Eo in Hl.
  destruct (live_cons_inv _ _ _ _ Hl) as (a' & rest' & Eq & Ha & _).
  injection Eq as <- <-.
  exists a. split; [exact Ha|]. split.
  - intros j0 Hj. apply (live_pending s (operands c) (a :: rest) j0).
    + rewrite Eo. exact Hl.
    + exists (self_of c), a. rewrite Eo. split; [left|auto].
  - rewrite Hh, Ht. apply lookup_insert_eq.
Qed.

Lemma submission_waits_for_operands_witness :
  exists target s' g h bufs ds ps j evs,
    run (Binary Mul true 0%nat (OArray 1%nat)) pending_state
    = (Ok (result_of (Binary Mul true 0%nat (OArray 1%nat)) target), s') /\
    trace s' = trace pending_state ++ evs
               ++ [EvSubmit g h bufs ds ps [0%nat] j] /\
    submissions evs = [].
Proof.
  destruct (submission_waits_for_operands
              (Binary Mul true 0%nat (OArray 1%nat)) pending_state
              [mkArray 0%nat [3] (mkBuffer 0%nat 3) (Some 0%nat);
               mkArray 0%nat [3] (mkBuffer 1%nat 3) None])
    as (target & s' & g & h & bufs & ds & ps & j & evs & Er & Ht & Hs & _).
  - repeat constructor; vm_compute; reflexivity.
  - cbn. repeat constructor.
  - exists target, s', g, h, bufs, ds, ps, j, evs. auto.
Defined.

Lemma signature_spv c a rest : sig_spv (signature c (a :: rest)) = kernel_file c.
Proof. unfold signature. destruct (is_matmul c); reflexivity. Qed.

Lemma signature_local_size c a rest :
  (sig_local_size_x (signature c (a :: rest)),
   sig_local_size_y (signature c (a :: rest)),
   sig_local_size_z (signature c (a :: rest)))
  = if is_matmul c then (1, 64, 1) else (64, 1, 1).
Proof. unfold signature. destruct (is_matmul c); reflexivity. Qed.

(** C8. An out-of-place call (binary, with a scalar, reflected, unary,
    clamp, matrix multiply) returns a new Array: a reference no live
    object had, with the shape of the result, a buffer the backend had not
    allocated before, sized to that shape, and the job of the call's
    submission as its pending job.  The heap changes at that reference
    only, so every operand keeps its buffer, shape and pending job. *)
Theorem out_of_place_leaves_operands c s objs :
  in_place c = false ->
  live s (operands c) objs ->
  shapes_ok c objs ->
  exists target s' r j,
    run c s = (Ok (Some target), s') /\
    heap s !! target = None /\
    heap s' = <[target := r]> (heap s) /\
    shape r = result_shape c objs /\
    (buf_id (buffer r) ∉ buffers s) /\
    buf_size (buffer r) = Array.prod (shape r) /\
    job r = Some j /\
    (exists pre g h bufs ds ps sems,
        trace s' = pre ++ [EvSubmit g h bufs ds ps sems j]) /\
    live s' (operands c) objs /\
    (forall r' a', heap s !! r' = Some a' -> heap s' !! r' = Some a').
Proof.
  intros Hip Hl Hs.
  destruct (run_dispatched c s objs Hl Hs) as (target & s' & Er & D).
  rewrite (result_of_out_of_place c target Hip) in Er.
  destruct (dispatch_summary _ _ _ _ _ _ _ _ _ D)
    as (a & rest & h & j & evs & -> & Ht & Hh & Htr & _).
  rewrite Hip in Ht, Hh, Htr.
  assert (heap s !! target = None) as Hnone
    by (rewrite Ht; apply fresh_ref_None).
  assert (forall r' a', heap s !! r' = Some a' -> heap s' !! r' = Some a')
    as Hold.
  { intros r' a' H. rewrite Hh. rewrite lookup_insert_ne; [exact H|].
    intros <-. rewrite Hnone in H. discriminate. }
  exists target, s'. eexists. exists j.
  split; [exact Er|]. split; [exact Hnone|]. split; [exact Hh|].
  split; [reflexivity|]. split; [apply is_fresh|]. split; [reflexivity|].
  split; [reflexivity|]. split.
  - rewrite Htr, app_assoc. eauto 10.
  - split; [|exact Hold].
    eapply Forall2_impl; [exact Hl|]. intros r' a'. apply Hold.
Qed.

Lemma out_of_place_leaves_operands_witness :
  exists target s' r j,
    run (Binary Sub false 0%nat (OArray 1%nat)) pending_state
    = (Ok (Some target), s') /\
    heap pending_state !! target = None /\
    heap s' = <[target := r]> (heap pending_state) /\
    shape r = [3] /\ job r = Some j.
Proof.
  destruct (out_of_place_leaves_operands
              (Binary Sub false 0%nat (OArray 1%nat)) pending_state
              [mkArray 0%nat [3] (mkBuffer 0%nat 3) (Some 0%nat);
               mkArray 0%nat [3] (mkBuffer 1%nat 3) None])
    as (target & s' & r & j & Er & Hn & Hh & Hs & _ & _ & Hj & _).
  - reflexivity.
  - repeat constructor; vm_compute; reflexivity.
  - cbn. repeat constructor.
  - exists target, s', r, j. auto.
Defined.

(** C9. Under the invariants of the cache and of buffer sizes, the
    operation a call submits was compiled with workgroup dimensions
    (64,1,1) and runs on the data shape (n,1,1), n the number of elements
    of [self], unless the call is a matrix multiply, whose operation was
    compiled with (1,64,1) and runs on (rows, columns, 1), the rows and
    columns of its parameters. *)
Theorem workgroup_and_data_shape c s objs :
  live s (operands c) objs ->
  shapes_ok c objs ->
  cache_sound s ->
  sized s ->
  exists target s' a pre g h bufs ds ps sems j sg,
    run c s = (Ok (result_of c target), s') /\
    heap s !! self_of c = Some a /\
    trace s' = pre ++ [EvSubmit g h bufs ds ps sems j] /\
    submissions (trace s') = submissions (trace s)
                             ++ [EvSubmit g h bufs ds ps sems j] /\
    compiled s' !! h = Some (g, sg) /\
    if is_matmul c then
      (sig_local_size_x sg, sig_local_size_y sg, sig_local_size_z sg)
      = (1, 64, 1) /\
      exists b,
        objs = [a; b] /\
        ds = mkDataShape (rowA_of (shape a)) (columnB_of (shape b)) 1 /\
        ps = MatMulParams (rowA_of (shape a)) (contractSize_of (shape a))
               (columnB_of (shape b))
    else
      (sig_local_size_x sg, sig_local_size_y sg, sig_local_size_z sg)
      = (64, 1, 1) /\
      ds = mkDataShape (Array.prod (shape a)) 1 1.
Proof.
  intros Hl Hs K Z.
  destruct (run_dispatched c s objs Hl Hs) as (target & s' & Er & D).
  destruct (dispatch_summary _ _ _ _ _ _ _ _ _ D)
    as (a & rest & h & j & evs & -> & Ht & Hh & Htr & Hsub & _ & _ & Hk).
  destruct (operands_self c) as [rs Eo]. rewrite Eo in Hl.
  destruct (live_cons_inv _ _ _ _ Hl) as (a' & rest' & Eq & Ha & _).
  injection Eq as <- <-.
  exists target, s', a, (trace s ++ evs), (_gpu a), h.
  do 4 eexists. exists j, (signature c (a :: rest)).
  split; [exact Er|]. split; [exact Ha|].
  split; [rewrite Htr, app_assoc; reflexivity|].
  split; [rewrite Htr, !submissions_app, Hsub; reflexivity|].
  split; [exact (Hk K)|].
  pose proof (signature_local_size c a rest) as Hls.
  unfold data_shape, signature, shapes_ok in *.
  destruct (is_matmul c).
  - destruct Hs as (b & -> & _). split; [exact Hls|]. exists b. cbn. auto.
  - split; [exact Hls|]. rewrite (Z _ _ Ha). reflexivity.
Qed.

Lemma workgroup_and_data_shape_witness :
  cache_sound pending_state /\ sized pending_state /\
  exists target s' a pre g h bufs ds ps sems j sg,
    run (Unary Exp false 0%nat) pending_state
    = (Ok (result_of (Unary Exp false 0%nat) target), s') /\
    heap pending_state !! 0%nat = Some a /\
    trace s' = pre ++ [EvSubmit g h bufs ds ps sems j] /\
    compiled s' !! h = Some (g, sg) /\
    (sig_local_size_x sg, sig_local_size_y sg, sig_local_size_z sg)
    = (64, 1, 1) /\
    ds = mkDataShape 3 1 1.
Proof.
  assert (extends empty_state pending_state) as (_ & K & Z & _).
  { unfold pending_state, two_arrays, exec.
    eapply extends_trans; [|apply extending_run].
    eapply extends_trans; [|apply extending_init].
    apply extending_init. }
  assert (cache_sound pending_state) as K' by (apply K, cache_sound_empty).
  assert (sized pending_state) as Z'.
  { apply Z. intros r a H. cbn in H. rewrite lookup_empty in H. discriminate. }
  split; [exact K'|]. split; [exact Z'|].
  destruct (workgroup_and_data_shape (Unary Exp false 0%nat) pending_state
              [mkArray 0%nat [3] (mkBuffer 0%nat 3) (Some 0%nat)])
    as (target & s' & a & pre & g & h & bufs & ds & ps & sems & j & sg
        & Er & Ha & Ht & _ & Hc & Hw & Hd).
  - repeat constructor; vm_compute; reflexivity.
  - cbn. constructor.
  - exact K'.
  - exact Z'.
  - assert (a = mkArray 0%nat [3] (mkBuffer 0%nat 3) (Some 0%nat)) as ->.
    { assert (Some a
              = Some (mkArray 0%nat [3] (mkBuffer 0%nat 3) (Some 0%nat))) as H
        by (rewrite <- Ha; vm_compute; reflexivity).
      injection H as ->. reflexivity. }
    exists target, s', (mkArray 0%nat [3] (mkBuffer 0%nat 3) (Some 0%nat)),
      pre, g, h, bufs, ds, ps, sems, j, sg.
    repeat split; auto.
Defined.

(** C6. The kernel of the operation a call submits is the file the naming
    convention gives: the base name for the out-of-place form on two
    Arrays, ["i"] in front for the in-place sibling, ["_scalar"] behind for
    an Array and a scalar, and ["r"] in front of the scalar form for the
    reflected subtract, divide and power; reflected add and multiply use
    the kernel of the Array-scalar form. *)
Theorem kernel_follows_convention c s objs :
  live s (operands c) objs ->
  shapes_ok c objs ->
  cache_sound s ->
  (exists target s' pre g h bufs ds ps sems j sg,
     run c s = (Ok (result_of c target), s') /\
     trace s' = pre ++ [EvSubmit g h bufs ds ps sems j] /\
     submissions (trace s') = submissions (trace s)
                              ++ [EvSubmit g h bufs ds ps sems j] /\
     compiled s' !! h = Some (g, sg) /\
     sig_spv sg = os_path_join shader_dir (convention_name c +:+ ".spv")) /\
  (forall self x,
     convention_name (Reflected RAdd self x)
     = convention_name (Binary Add false self (OFloat x)) /\
     convention_name (Reflected RMul self x)
     = convention_name (Binary Mul false self (OFloat x))) /\
  (forall op self x,
     convention_name (Reflected op self x)
     = "r" +:+ convention_name (Binary (rop_binop op) false self (OFloat x))
     <-> op = RSub \/ op = RDiv \/ op = RPow).
Proof.
  intros Hl Hs K. split; [|split].
  - destruct (run_dispatched c s objs Hl Hs) as (target & s' & Er & D).
    destruct (dispatch_summary _ _ _ _ _ _ _ _ _ D)
      as (a & rest & h & j & evs & -> & Ht & Hh & Htr & Hsub & _ & _ & Hk).
    exists target, s', (trace s ++ evs), (_gpu a), h.
    do 4 eexists. exists j, (signature c (a :: rest)).
    split; [exact Er|].
    split; [rewrite Htr, app_assoc; reflexivity|].
    split; [rewrite Htr, !submissions_app, Hsub; reflexivity|].
    split; [exact (Hk K)|].
    apply signature_spv.
  - intros self x. split; reflexivity.
  - intros op self x. destruct op; cbn; split; intros H;
      try discriminate; try reflexivity; auto;
      destruct H as [H|[H|H]]; discriminate.
Qed.

Lemma kernel_follows_convention_witness :
  exists target s' pre g h bufs ds ps sems j sg,
    run (Reflected RSub 0%nat 7) pending_state
    = (Ok (result_of (Reflected RSub 0%nat 7) target), s') /\
    trace s' = pre ++ [EvSubmit g h bufs ds ps sems j] /\
    compiled s' !! h = Some (g, sg) /\
    sig_spv sg = "vulkpy/shader/rsub_scalar.spv".
Proof.
  assert (extends empty_state pending_state) as (_ & K & _ & _).
  { unfold pending_state, two_arrays, exec.
    eapply extends_trans; [|apply extending_run].
    eapply extends_trans; [|apply extending_init].
    apply extending_init. }
  destruct (kernel_follows_convention (Reflected RSub 0%nat 7) pending_state
              [mkArray 0%nat [3] (mkBuffer 0%nat 3) (Some 0%nat)])
    as ((target & s' & pre & g & h & bufs & ds & ps & sems & j & sg
         & Er & Ht & _ & Hc & Hn) & _).
  - repeat constructor; vm_compute; reflexivity.
  - cbn. constructor.
  - apply K, cache_sound_empty.
  - exists target, s', pre, g, h, bufs, ds, ps, sems, j, sg. auto.
Defined.

(** ** Clamp *)

Lemma clamp_raises self mn mx ip s a b :
  heap s !! self = Some a ->
  clamp_mismatch s a mn mx = Some b ->
  Array.clamp self mn mx ip s
  = (Raise (ValueError_IncompatibleShapes (shape a) (shape b)), s).
Proof.
  intros Ha H. unfold Array.clamp, clamp_mismatch in *.
  destruct mn as [m|x].
  - destruct (heap s !! m) as [b1|] eqn:Hm; [|discriminate].
    destruct (bool_decide (shape a = shape b1)) eqn:E1.
    + apply bool_decide_eq_true in E1.
      rewrite (bind_Ok _ _ _ _ _ (check_shape_Ok _ _ _ _ _ Ha Hm E1)).
      destruct mx as [n|y]; [|discriminate].
      destruct (heap s !! n) as [c|] eqn:Hn; [|discriminate].
      destruct (bool_decide (shape a = shape c)) eqn:E2; [discriminate|].
      apply bool_decide_eq_false in E2. injection H as <-.
      apply bind_Raise, check_shape_Raise; assumption.
    + apply bool_decide_eq_false in E1. injection H as <-.
      apply bind_Raise, check_shape_Raise; assumption.
  - rewrite bind_ret. destruct mx as [n|y]; [|discriminate].
    destruct (heap s !! n) as [c|] eqn:Hn; [|discriminate].
    destruct (bool_decide (shape a = shape c)) eqn:E2; [discriminate|].
    apply bool_decide_eq_false in E2. injection H as <-.
    apply bind_Raise, check_shape_Raise; assumption.
Qed.

(** C7. [clamp] submits the kernel the convention names from the kinds
    of its bounds and the in-place flag: one of the eight clamp kernels,
    which are pairwise different, and the same for two calls exactly when
    the kinds of the bounds and the flag agree.  When a bound is an Array
    whose shape differs from that of [self], the call raises the shape
    [ValueError] and leaves the state as it was, so nothing is allocated
    or submitted. *)
Theorem clamp_selects_and_checks self mn mx ip s a :
  heap s !! self = Some a ->
  (forall objs,
     live s (operands (Clamp self mn mx ip)) objs ->
     shapes_ok (Clamp self mn mx ip) objs ->
     cache_sound s ->
     exists target s' pre g h bufs ds ps sems j sg,
       run (Clamp self mn mx ip) s
       = (Ok (result_of (Clamp self mn mx ip) target), s') /\
       trace s' = pre ++ [EvSubmit g h bufs ds ps sems j] /\
       submissions (trace s') = submissions (trace s)
                                ++ [EvSubmit g h bufs ds ps sems j] /\
       compiled s' !! h = Some (g, sg) /\
       sig_spv sg = kernel_file (Clamp self mn mx ip)) /\
  kernel_file (Clamp self mn mx ip) ∈ clamp_kernels /\
  NoDup clamp_kernels /\
  (forall self' mn' mx' ip',
     kernel_file (Clamp self mn mx ip) = kernel_file (Clamp self' mn' mx' ip')
     <-> is_array mn = is_array mn' /\ is_array mx = is_array mx' /\ ip = ip') /\
  (forall b,
     clamp_mismatch s a mn mx = Some b ->
     run (Clamp self mn mx ip) s
     = (Raise (ValueError_IncompatibleShapes (shape a) (shape b)), s)).
Proof.
  intros Ha. split; [|split; [|split; [|split]]].
  - intros objs Hl Hs K.
    destruct (run_dispatched _ s objs Hl Hs) as (target & s' & Er & D).
    destruct (dispatch_summary _ _ _ _ _ _ _ _ _ D)
      as (a0 & rest & h & j & evs & -> & Ht & Hh & Htr & Hsub & _ & _ & Hk).
    exists target, s', (trace s ++ evs), (_gpu a0), h.
    do 4 eexists. exists j, (signature (Clamp self mn mx ip) (a0 :: rest)).
    split; [exact Er|].
    split; [rewrite Htr, app_assoc; reflexivity|].
    split; [rewrite Htr, !submissions_app, Hsub; reflexivity|].
    split; [exact (Hk K)|].
    apply signature_spv.
  - destruct mn, mx, ip; apply (bool_decide_unpack _); vm_compute; exact I.
  - apply (bool_decide_unpack _). vm_compute. exact I.
  - intros self' mn' mx' ip'.
    destruct mn, mx, ip, mn', mx', ip'; vm_compute; split;
      first [ intros H; discriminate H
            | intros (H1 & H2 & H3); discriminate
            | auto ].
  - intros b H. cbn [run]. apply clamp_raises; assumption.
Qed.

Lemma clamp_selects_and_checks_witness :
  heap (two_arrays [2; 3] [3; 2]) !! 0%nat
  = Some (mkArray 0%nat [2; 3] (mkBuffer 0%nat 6) None) /\
  kernel_file (Clamp 0%nat (OArray 1%nat) (OFloat 1) false)
  = "vulkpy/shader/clamp_vs.spv" /\
  run (Clamp 0%nat (OArray 1%nat) (OFloat 1) false) (two_arrays [2; 3] [3; 2])
  = (Raise (ValueError_IncompatibleShapes [2; 3] [3; 2]),
     two_arrays [2; 3] [3; 2]).
Proof.
  assert (heap (two_arrays [2; 3] [3; 2]) !! 0%nat
          = Some (mkArray 0%nat [2; 3] (mkBuffer 0%nat 6) None)) as H
    by (vm_compute; reflexivity).
  split; [exact H|]. split; [reflexivity|].
  destruct (clamp_selects_and_checks 0%nat (OArray 1%nat) (OFloat 1) false
              (two_arrays [2; 3] [3; 2]) _ H) as (_ & _ & _ & _ & Hr).
  apply (Hr (mkArray 0%nat [3; 2] (mkBuffer 1%nat 6) None)).
  vm_compute. reflexivity.
Defined.

(** ** Matrix multiply *)

Lemma matmul_raises self other s a b :
  heap s !! self = Some a -> heap s !! other = Some b ->
  (3 < length (shape a))%nat \/ (3 < length (shape b))%nat \/
  ((1 <= length (shape a))%nat /\ (1 <= length (shape b))%nat /\
   last (shape a) <> head (shape b)) ->
  Array.__matmul__ self other s
  = (Raise (ValueError_IncompatibleShapes (shape a) (shape b)), s).
Proof.
  intros Ha Hb H. unfold Array.__matmul__.
  rewrite (bind_Ok _ _ _ _ _ (load_Ok _ _ _ Ha)).
  rewrite (bind_Ok _ _ _ _ _ (load_Ok _ _ _ Hb)).
  destruct (bool_decide (3 < length (shape a))%nat) eqn:Ea; [reflexivity|].
  destruct (bool_decide (3 < length (shape b))%nat) eqn:Eb; [reflexivity|].
  apply bool_decide_eq_false in Ea, Eb.
  destruct H as [H|[H|(La & Lb & N)]]; [lia|lia|].
  destruct (last_is_Some (shape a) La) as [x Hx].
  destruct (shape b) as [|y sb] eqn:Esb; [cbn in Lb; lia|].
  erewrite bind_Ok; cycle 1.
  { rewrite (bind_Ok _ _ _ _ _ (index_last_Ok _ _ _ Hx)).
    erewrite bind_Ok by reflexivity. reflexivity. }
  rewrite bool_decide_eq_false_2; [reflexivity|].
  intros ->. apply N. rewrite Hx. reflexivity.
Qed.

(** The product of a rank-0 Array with itself raises [IndexError]: it
    neither is a shape error nor yields a result. *)
Lemma matmul_rank0_counterexample : ~ matmul_claim_as_stated.
Proof.
  intros H.
  specialize (H 0%nat 0%nat rank0_state
                (mkArray 0%nat [] (mkBuffer 0%nat 1) None)
                (mkArray 0%nat [] (mkBuffer 0%nat 1) None)
                eq_refl eq_refl).
  vm_compute in H. destruct H as (target & s' & r & H & _). discriminate H.
Qed.

Lemma matmul_shape_cases sa sb :
  matmul_shape sa sb
  = match removelast sa ++ tail sb with
    | [] => [1]
    | d :: sh => d :: sh
    end.
Proof.
  unfold matmul_shape. destruct (removelast sa ++ tail sb); reflexivity.
Qed.

(** C4 (amended). For operands of rank at least 1: when a rank exceeds 3
    or the trailing dimension of the left operand differs from the leading
    dimension of the right one, [a @ b] raises the shape [ValueError] and
    leaves the state as it was; otherwise it returns a new Array whose
    shape is all but the last dimension of [a] followed by all but the
    first of [b], or [(1,)] when that is empty, and submits with data
    shape (rows, columns, 1) and parameters (rows, contraction, columns):
    rows is 1 for [a] of rank 1 and its first dimension otherwise, columns
    is 1 for [b] of rank 1 and its second dimension otherwise, and the
    contraction length is the shared dimension. *)
Theorem matmul_shapes self other s a b :
  heap s !! self = Some a ->
  heap s !! other = Some b ->
  (1 <= length (shape a))%nat ->
  (1 <= length (shape b))%nat ->
  ((3 < length (shape a))%nat \/ (3 < length (shape b))%nat \/
   last (shape a) <> head (shape b) ->
   Array.__matmul__ self other s
   = (Raise (ValueError_IncompatibleShapes (shape a) (shape b)), s)) /\
  (~ ((3 < length (shape a))%nat \/ (3 < length (shape b))%nat \/
      last (shape a) <> head (shape b)) ->
   exists target s' r pre g h bufs rows contraction columns sems j,
     Array.__matmul__ self other s = (Ok target, s') /\
     heap s !! target = None /\
     heap s' = <[target := r]> (heap s) /\
     shape r = match removelast (shape a) ++ tail (shape b) with
               | [] => [1]
               | d :: sh => d :: sh
               end /\
     trace s' = pre ++ [EvSubmit g h bufs (mkDataShape rows columns 1)
                          (MatMulParams rows contraction columns) sems j] /\
     submissions (trace s')
     = submissions (trace s)
       ++ [EvSubmit g h bufs (mkDataShape rows columns 1)
             (MatMulParams rows contraction columns) sems j] /\
     (length (shape a) = 1%nat -> rows = 1) /\
     ((1 < length (shape a))%nat -> head (shape a) = Some rows) /\
     (length (shape b) = 1%nat -> columns = 1) /\
     ((1 < length (shape b))%nat -> shape b !! 1%nat = Some columns) /\
     last (shape a) = Some contraction /\
     head (shape b) = Some contraction).
Proof.
  intros Ha Hb La Lb. split.
  - intros H. apply matmul_raises; [assumption..|].
    destruct H as [H|[H|H]]; auto.
  - intros N.
    assert ((length (shape a) <= 3)%nat /\ (length (shape b) <= 3)%nat /\
            last (shape a) = head (shape b)) as (Ra & Rb & E).
    { repeat split.
      - destruct (decide (3 < length (shape a))%nat); [tauto|lia].
      - destruct (decide (3 < length (shape b))%nat); [tauto|lia].
      - destruct (decide (last (shape a) = head (shape b))); [assumption|tauto]. }
    destruct (matmul_spec self other s a b Ha Hb (conj La Ra) (conj Lb Rb) E)
      as (s' & Er & D).
    unfold dispatched in D.
    destruct (dispatch_summary _ _ _ _ _ _ _ _ _ D)
      as (a0 & rest & h & j & evs & Eq & Ht & Hh & Htr & Hsub & _).
    injection Eq as <- <-.
    cbn [in_place] in Ht, Hh, Htr.
    destruct (last_is_Some (shape a) La) as [x Hx].
    exists (fresh (dom (heap s))), s'. eexists.
    exists (trace s ++ evs), (_gpu a), h. eexists.
    exists (rowA_of (shape a)), x, (columnB_of (shape b)).
    exists (Array.semaphores_of [a; b]), j.
    split; [exact Er|]. split; [apply fresh_ref_None|].
    split; [exact Hh|].
    split; [cbn; apply matmul_shape_cases|].
    assert (sig_params (signature (Matmul self other) [a; b])
            = MatMulParams (rowA_of (shape a)) x (columnB_of (shape b))) as Ep.
    { cbn. unfold contractSize_of. rewrite Hx. reflexivity. }
    rewrite Ep in Htr.
    split; [rewrite Htr, app_assoc; reflexivity|].
    split; [rewrite Htr, !submissions_app, Hsub; reflexivity|].
    unfold rowA_of, columnB_of.
    split; [intros ->; reflexivity|].
    split.
    { intros L. rewrite bool_decide_eq_true_2 by exact L.
      destruct (shape a); [cbn in L; lia|reflexivity]. }
    split; [intros ->; reflexivity|].
    split.
    { intros L. rewrite bool_decide_eq_true_2 by exact L.
      destruct (lookup_lt_is_Some_2 (shape b) 1%nat L) as [d Hd].
      rewrite Hd. reflexivity. }
    split; [exact Hx|]. rewrite <- E. exact Hx.
Qed.

Lemma matmul_shapes_witness :
  exists target s' r,
    Array.__matmul__ 0%nat 1%nat (two_arrays [2; 3] [3; 4]) = (Ok target, s') /\
    heap s' = <[target := r]> (heap (two_arrays [2; 3] [3; 4])) /\
    shape r = [2; 4].
Proof.
  destruct (matmul_shapes 0%nat 1%nat (two_arrays [2; 3] [3; 4])
              (mkArray 0%nat [2; 3] (mkBuffer 0%nat 6) None)
              (mkArray 0%nat [3; 4] (mkBuffer 1%nat 12) None))
    as (_ & Hok).
  - vm_compute. reflexivity.
  - vm_compute. reflexivity.
  - cbn. lia.
  - cbn. lia.
  - destruct Hok
      as (target & s' & r & pre & g & h & bufs & rows & k & cols & sems & j
          & Er & _ & Hh & Hs & _).
    + cbn. intros [H|[H|H]]; [lia|lia|]. apply H. reflexivity.
    + exists target, s', r. auto.
Defined.

(** ** The cache of compiled operations *)

Lemma perform_extends act s : extends s (perform act s).
Proof.
  destruct act as [c|g data sh|m self|self key value|self];
    cbn [perform]; unfold exec.
  - apply extending_run.
  - apply extending_init.
  - revert s. change (extending (materialize m self)).
    destruct m; cbn [materialize];
      unfold Array.__getitem__, Array.__array__, Array.__str__;
      repeat first
        [ extending_step
        | lazymatch goal with
          | |- extending (Array.wait _) => apply extending_wait
          end ].
  - revert s. change (extending (Array.__setitem__ self key value)).
    unfold Array.__setitem__. extending_auto.
  - apply extending_wait.
Qed.

Lemma perform_all_extends acts s : extends s (perform_all acts s).
Proof.
  revert s. induction acts as [|act acts IH]; intros s; cbn.
  - apply extends_refl.
  - eapply extends_trans; [apply perform_extends|apply IH].
Qed.

(** C2. A submission resolves its operation through the cache: on a hit
    it uses the cached handle and compiles nothing, on a miss it compiles
    once and caches the new handle.  Whatever the client does in between,
    a later submission with the same kernel, buffer count, parameters and
    workgroup dimensions uses the handle of the earlier one and compiles
    nothing.  Two submissions that differ in the element count only have
    two cache entries with different handles. *)
Theorem cache_reuses_compiled_operation :
  (forall g spv lx ly lz b bufs ds ps sems s,
     exists h j s1,
       GPU._submit g spv lx ly lz (b :: bufs) ds ps sems s = (Ok j, s1) /\
       op_cache s1 !! (g, mkOpSig spv (length (b :: bufs)) ps lx ly lz)
       = Some h /\
       match op_cache s !! (g, mkOpSig spv (length (b :: bufs)) ps lx ly lz)
       with
       | Some h0 =>
           h = h0 /\ op_cache s1 = op_cache s /\
           trace s1 = trace s ++ [EvSubmit g h (b :: bufs) ds ps sems j]
       | None =>
           (h ∉ dom (compiled s)) /\
           trace s1 = trace s
                      ++ [EvCreateOp g h
                            (mkOpSig spv (length (b :: bufs)) ps lx ly lz);
                          EvSubmit g h (b :: bufs) ds ps sems j]
       end /\
       forall acts b' bufs' ds' sems',
         length bufs' = length bufs ->
         exists j' s3,
           GPU._submit g spv lx ly lz (b' :: bufs') ds' ps sems'
             (perform_all acts s1) = (Ok j', s3) /\
           op_cache s3 = op_cache (perform_all acts s1) /\
           trace s3 = trace (perform_all acts s1)
                      ++ [EvSubmit g h (b' :: bufs') ds' ps sems' j']) /\
  (exists g spv n lx ly lz h3 h4,
     op_cache two_sizes_state !! (g, mkOpSig spv n (VectorParams 3) lx ly lz)
     = Some h3 /\
     op_cache two_sizes_state !! (g, mkOpSig spv n (VectorParams 4) lx ly lz)
     = Some h4 /\
     h3 <> h4 /\
     size (op_cache two_sizes_state) = 2%nat).
Proof.
  split.
  - intros g spv lx ly lz b bufs ds ps sems s.
    destruct (submit_launched g spv lx ly lz b bufs ds ps sems s)
      as (h & j & s1 & E & L).
    exists h, j, s1. split; [exact E|].
    pose proof L as (_ & _ & _ & _ & Hc & Hm).
    split; [exact Hc|]. split.
    + cbn [sig_params] in Hm.
      destruct (op_cache s !! _) as [h0|].
      * destruct Hm as (-> & Ec & _ & Ht). auto.
      * destruct Hm as (-> & _ & _ & Ht). split; [apply is_fresh|exact Ht].
    + intros acts b' bufs' ds' sems' Hlen.
      destruct (perform_all_extends acts s1) as (Hsub & _).
      assert (op_cache (perform_all acts s1)
                !! (g, mkOpSig spv (length (b' :: bufs')) ps lx ly lz)
              = Some h) as Hhit.
      { cbn [length] in *. rewrite Hlen.
        eapply lookup_weaken; [exact Hc|exact Hsub]. }
      destruct (submit_launched g spv lx ly lz b' bufs' ds' ps sems'
                  (perform_all acts s1)) as (h' & j' & s3 & E' & L').
      exists j', s3. split; [exact E'|].
      destruct L' as (_ & _ & _ & _ & _ & Hm').
      rewrite Hhit in Hm'. destruct Hm' as (-> & Ec & _ & Ht). auto.
  - exists 0%nat, Array._iabs, 1%nat, 64, 1, 1, 0%nat, 1%nat.
    split; [vm_compute; reflexivity|].
    split; [vm_compute; reflexivity|].
    split; [discriminate|].
    vm_compute. reflexivity.
Qed.

Lemma cache_reuses_compiled_operation_witness :
  exists h j s1,
    GPU._submit 0%nat Array._add 64 1 1
      [mkBuffer 0%nat 3; mkBuffer 1%nat 3; mkBuffer 2%nat 3]
      (mkDataShape 3 1 1) (VectorParams 3) [] empty_state = (Ok j, s1) /\
    exists j' s3,
      GPU._submit 0%nat Array._add 64 1 1
        [mkBuffer 3%nat 3; mkBuffer 4%nat 3; mkBuffer 5%nat 3]
        (mkDataShape 3 1 1) (VectorParams 3) [j]
        (perform_all [AWait 0%nat] s1) = (Ok j', s3) /\
      trace s3 = trace (perform_all [AWait 0%nat] s1)
                 ++ [EvSubmit 0%nat h
                       [mkBuffer 3%nat 3; mkBuffer 4%nat 3; mkBuffer 5%nat 3]
                       (mkDataShape 3 1 1) (VectorParams 3) [j] j'].
Proof.
  destruct cache_reuses_compiled_operation as (H & _).
  destruct (H 0%nat Array._add 64 1 1 (mkBuffer 0%nat 3)
              [mkBuffer 1%nat 3; mkBuffer 2%nat 3]
              (mkDataShape 3 1 1) (VectorParams 3) [] empty_state)
    as (h & j & s1 & E & _ & _ & Hlater).
  exists h, j, s1. split; [exact E|].
  destruct (Hlater [AWait 0%nat] (mkBuffer 3%nat 3)
              [mkBuffer 4%nat 3; mkBuffer 5%nat 3]
              (mkDataShape 3 1 1) [j] eq_refl) as (j' & s3 & E' & _ & Ht).
  exists j', s3. auto.
Defined.

(** * Further properties of the engine *)

(** ** How a call fails *)

Lemma load_None r s : heap s !! r = None -> load r s = (Raise DanglingRef, s).
Proof. intros H. unfold load. rewrite H. reflexivity. Qed.

Lemma check_shape_dangling self other s :
  heap s !! self = None \/ heap s !! other = None ->
  Array._check_shape self other s = (Raise DanglingRef, s).
Proof.
  intros H. unfold Array._check_shape, bind, load.
  destruct (heap s !! self) as [a|]; [|reflexivity].
  destruct H as [H|H]; [discriminate|]. rewrite H. reflexivity.
Qed.

Lemma launch_dangling self spv rs pk s :
  heap s !! self = None -> launch self spv rs pk s = (Raise DanglingRef, s).
Proof.
  intros H. destruct pk; cbn [launch];
    unfold Array._opVec, Array._opVecScalar, Array._opVec2Scalar;
    apply bind_Raise, load_None, H.
Qed.

Lemma opVec_dangling self spv rs s :
  heap s !! self = None -> Array._opVec self spv rs s = (Raise DanglingRef, s).
Proof. apply (launch_dangling self spv rs PVec). Qed.

Lemma opVecScalar_dangling self spv rs x s :
  heap s !! self = None ->
  Array._opVecScalar self spv rs x s = (Raise DanglingRef, s).
Proof. apply (launch_dangling self spv rs (PScalar x)). Qed.

(** A binary method on two Arrays fails as its shape check fails. *)
Lemma run_binary_check_fails op ip self o s e :
  Array._check_shape self o s = (Raise e, s) ->
  run (Binary op ip self (OArray o)) s = (Raise e, s).
Proof.
  intros E. destruct op, ip; run_methods;
    unfold Array._opVec3, Array._opVec2, bind; rewrite E; reflexivity.
Qed.

Lemma run_dangling_self c s :
  heap s !! self_of c = None -> run c s = (Raise DanglingRef, s).
Proof.
  intros H.
  destruct c as [op ip self o|op self x|op ip self|self mn mx ip|self o];
    cbn [self_of] in H.
  - destruct o as [o|x].
    + apply run_binary_check_fails, check_shape_dangling. auto.
    + destruct op, ip; run_methods;
        unfold Array._opVecScalar1, Array._opVecScalar2, bind, load;
        rewrite ?H, ?(opVecScalar_dangling _ _ _ _ _ H); reflexivity.
  - destruct op; run_methods; unfold Array._opVecScalar2, bind, load;
      rewrite H; reflexivity.
  - destruct op, ip; run_methods;
      unfold Array._opVec1, Array._opVec2, bind, load;
      rewrite ?H, ?(opVec_dangling _ _ _ _ H); reflexivity.
  - cbn [run]. unfold Array.clamp.
    destruct mn as [m|x].
    { apply bind_Raise, check_shape_dangling. auto. }
    rewrite bind_ret. destruct mx as [n|y].
    { apply bind_Raise, check_shape_dangling. auto. }
    rewrite bind_ret. destruct ip; cbn [negb].
    + apply bind_Raise. apply (launch_dangling self _ _ (PScalar2 x y) s H).
    + apply bind_Raise, load_None, H.
  - cbn [run]. apply bind_Raise. unfold Array.__matmul__.
    apply bind_Raise, load_None, H.
Qed.

Lemma matmul_index_error self other s a b :
  heap s !! self = Some a -> heap s !! other = Some b ->
  (length (shape a) <= 3)%nat -> (length (shape b) <= 3)%nat ->
  shape a = [] \/ shape b = [] ->
  Array.__matmul__ self other s = (Raise IndexError, s).
Proof.
  intros Ha Hb La Lb H. unfold Array.__matmul__.
  rewrite (bind_Ok _ _ _ _ _ (load_Ok _ _ _ Ha)).
  rewrite (bind_Ok _ _ _ _ _ (load_Ok _ _ _ Hb)).
  rewrite (bool_decide_eq_false_2 (3 < length (shape a))%nat) by lia.
  rewrite (bool_decide_eq_false_2 (3 < length (shape b))%nat) by lia.
  apply bind_Raise.
  destruct (last (shape a)) as [x|] eqn:Hx.
  - destruct H as [H|H]; [rewrite H in Hx; discriminate|].
    rewrite (bind_Ok _ _ _ _ _ (index_last_Ok _ _ _ Hx)).
    rewrite H. reflexivity.
  - unfold Array.index_last. rewrite Hx. reflexivity.
Qed.

(** One bound of [clamp]: its check passes on an Array of the shape of
    [self] and on a scalar, and raises otherwise. *)
Lemma bound_check self a o s :
  heap s !! self = Some a ->
  ((match o with
    | OArray r => Array._check_shape self r
    | OFloat _ => ret tt
    end) s = (Ok tt, s) /\
   exists objs, live s (array_of o) objs /\
                Forall (fun b => shape b = shape a) objs) \/
  exists e, (match o with
             | OArray r => Array._check_shape self r
             | OFloat _ => ret tt
             end) s = (Raise e, s).
Proof.
  intros Ha. destruct o as [r|x].
  - destruct (heap s !! r) as [b|] eqn:Hr.
    + destruct (decide (shape a = shape b)) as [E|N].
      * left. split; [eapply check_shape_Ok; eassumption|].
        exists [b]. split; repeat constructor; auto.
      * right. eexists. eapply check_shape_Raise; eassumption.
    + right. eexists. apply check_shape_dangling. auto.
  - left. split; [reflexivity|]. exists []. split; constructor.
Qed.

(** A call either raises and leaves the state as it was, or its operands
    are live Arrays of shapes it accepts. *)
Lemma run_fails_or_dispatches c s :
  (exists e, run c s = (Raise e, s)) \/
  (exists objs, live s (operands c) objs /\ shapes_ok c objs).
Proof.
  destruct (heap s !! self_of c) as [a|] eqn:Ha;
    [|left; eexists; apply run_dangling_self, Ha].
  destruct c as [op ip self o|op self x|op ip self|self mn mx ip|self o];
    cbn [self_of] in Ha.
  - destruct o as [o|x].
    + destruct (heap s !! o) as [b|] eqn:Hb.
      * destruct (decide (shape a = shape b)) as [E|N].
        -- right. exists [a; b]. split; repeat constructor; auto.
        -- left. eexists. apply run_binary_check_fails.
           eapply check_shape_Raise; eassumption.
      * left. eexists. apply run_binary_check_fails, check_shape_dangling.
        auto.
    + right. exists [a]. split; repeat constructor; auto.
  - right. exists [a]. split; repeat constructor; auto.
  - right. exists [a]. split; repeat constructor; auto.
  - destruct (bound_check self a mn s Ha) as [(E1 & objs1 & L1 & F1)|[e E1]].
    + destruct (bound_check self a mx s Ha) as [(E2 & objs2 & L2 & F2)|[e E2]].
      * right. exists (a :: objs1 ++ objs2). split.
        -- cbn [operands]. constructor; [exact Ha|].
           apply Forall2_app; assumption.
        -- cbn. apply Forall_app. auto.
      * left. exists e. cbn [run]. unfold Array.clamp.
        rewrite (bind_Ok _ _ _ _ _ E1). apply bind_Raise, E2.
    + left. exists e. cbn [run]. unfold Array.clamp. apply bind_Raise, E1.
  - destruct (heap s !! o) as [b|] eqn:Hb.
    + destruct (decide (3 < length (shape a))%nat) as [La|La].
      { left. eexists. cbn [run]. apply bind_Raise.
        apply (matmul_raises self o s a b Ha Hb). auto. }
      destruct (decide (3 < length (shape b))%nat) as [Lb|Lb].
      { left. eexists. cbn [run]. apply bind_Raise.
        apply (matmul_raises self o s a b Ha Hb). auto. }
      destruct (shape a) as [|d sa] eqn:Ea.
      { left. eexists. cbn [run]. apply bind_Raise.
        apply (matmul_index_error self o s a b Ha Hb); rewrite ?Ea; cbn; auto; lia. }
      destruct (shape b) as [|d' sb] eqn:Eb.
      { left. eexists. cbn [run]. apply bind_Raise.
        apply (matmul_index_error self o s a b Ha Hb); rewrite ?Ea, ?Eb; cbn in *; auto; lia. }
      destruct (decide (last (d :: sa) = head (d' :: sb))) as [E|N].
      * right. exists [a; b]. split; [repeat constructor; auto|].
        cbn [shapes_ok is_matmul]. exists b. rewrite Ea, Eb.
        cbn [length] in *. repeat split; auto; lia.
      * left. eexists. cbn [run]. apply bind_Raise.
        apply (matmul_raises self o s a b Ha Hb).
        right. right. rewrite Ea, Eb. cbn [length]. repeat split; auto; lia.
    + left. eexists. cbn [run]. apply bind_Raise. unfold Array.__matmul__.
      rewrite (bind_Ok _ _ _ _ _ (load_Ok _ _ _ Ha)).
      apply bind_Raise, load_None, Hb.
Qed.


(** ** A method is a sequence of steps *)

Lemma launched_state s s1 g sg bufs ds sems h j :
  launched s s1 g sg bufs ds sems h j ->
  match op_cache s !! (g, sg) with
  | Some h0 =>
      h = h0 /\
      s1 = add_event (EvSubmit g h bufs ds (sig_params sg) sems (fresh (jobs s)))
             (set_jobs (union {[fresh (jobs s)]}) s)
  | None =>
      h = fresh (dom (compiled s)) /\
      s1 = add_event (EvSubmit g h bufs ds (sig_params sg) sems (fresh (jobs s)))
             (set_jobs (union {[fresh (jobs s)]})
                (set_op_cache <[(g, sg) := h]>
                   (add_event (EvCreateOp g h sg)
                      (set_compiled <[h := (g, sg)]> s))))
  end /\ j = fresh (jobs s).
Proof.
  intros (Hh & Hb & -> & Hj & _ & Hm). split; [|reflexivity].
  destruct s1 as [hp oc cp bf jb tr]. cbn in *. subst hp bf jb.
  destruct (op_cache s !! (g, sg)) as [h0|].
  - destruct Hm as (-> & -> & -> & ->). split; reflexivity.
  - destruct Hm as (-> & -> & -> & ->). split; [reflexivity|].
    unfold add_event, set_jobs, set_op_cache, set_compiled. cbn.
    rewrite <- app_assoc. reflexivity.
Qed.

(** A launch on live Arrays, recorded on one of them, is a compilation
    on a miss followed by a submission. *)
Lemma launch_steps s s1 target a rs objs g sg ds h j :
  live s rs objs -> target ∈ rs -> heap s !! target = Some a ->
  sig_n sg = length objs ->
  launched s s1 g sg (map buffer objs) ds (Array.semaphores_of objs) h j ->
  rtc step s (set_heap <[target := with_job a (Some j)]> s1).
Proof.
  intros Hl Ht Ha Hn L.
  pose proof L as (_ & _ & _ & _ & Hc & _).
  destruct (launched_state _ _ _ _ _ _ _ _ _ L) as (Hm & ->).
  destruct (op_cache s !! (g, sg)) as [h0|] eqn:E.
  - destruct Hm as (-> & ->). apply rtc_once.
    apply (step_submit s target a rs objs g sg h0 ds); assumption.
  - destruct Hm as (-> & ->).
    eapply rtc_l; [apply (step_compile s g sg E)|].
    apply rtc_once.
    refine (step_submit _ target a rs objs g sg _ ds _ Ht _ _ Hn).
    + exact Hl.
    + exact Ha.
    + cbn. apply lookup_insert_eq.
Qed.

Lemma signature_n c objs :
  shapes_ok c objs ->
  sig_n (signature c objs)
  = (length objs + if in_place c then 0 else 1)%nat.
Proof.
  destruct objs as [|a rest]; [intros []|]. unfold shapes_ok, signature.
  destruct (is_matmul c) eqn:M; [|reflexivity].
  intros (b & -> & _). destruct c; try discriminate. reflexivity.
Qed.

Lemma call_steps c s : rtc step s (exec (run c) s).
Proof.
  unfold exec.
  destruct (run_fails_or_dispatches c s) as [[e E]|(objs & Hl & Hs)].
  { rewrite E. apply rtc_refl. }
  destruct (run_dispatched c s objs Hl Hs) as (target & s' & E & D).
  rewrite E. cbn [snd].
  pose proof (signature_n c objs Hs) as Hn.
  destruct D as (a & rest & s1 & h & j & -> & D).
  destruct (operands_self c) as [rs Eo].
  pose proof Hl as Hl'. rewrite Eo in Hl'.
  destruct (live_cons_inv _ _ _ _ Hl') as (a' & rest' & Eq & Ha & _).
  injection Eq as <- <-.
  destruct (in_place c).
  - destruct D as (-> & L & ->).
    apply (launch_steps s s1 (self_of c) a (operands c) (a :: rest)
             (_gpu a) (signature c (a :: rest)) (data_shape c (a :: rest)) h j);
      [exact Hl|rewrite Eo; left|exact Ha|rewrite Hn; lia|exact L].
  - destruct D as (-> & L & ->).
    eapply rtc_l; [apply (step_new s (_gpu a) (result_shape c (a :: rest)) false)|].
    pose proof (live_snoc_new s (_gpu a) (result_shape c (a :: rest)) _ _ Hl)
      as Hl2.
    eapply (launch_steps _ _ _ _ _ _ _ _ _ _ _ Hl2).
    + apply elem_of_app. right. left.
    + apply allocated_lookup_new.
    + rewrite Hn, length_app. reflexivity.
    + rewrite map_app, semaphores_of_snoc_new. exact L.
Qed.

Lemma wait_steps self s : rtc step s (exec (Array.wait self) s).
Proof.
  unfold exec. destruct (heap s !! self) as [a|] eqn:Ha.
  - rewrite (wait_Ok _ _ _ Ha). cbn [snd]. unfold waited.
    destruct (job a) as [j|] eqn:Hj; [|apply rtc_refl].
    apply rtc_once. apply (step_wait s self a j Ha Hj).
  - unfold Array.wait. rewrite (bind_Raise _ _ _ _ _ (load_None _ _ Ha)).
    apply rtc_refl.
Qed.

Lemma materialize_steps m self s : rtc step s (exec (materialize m self) s).
Proof.
  destruct (heap s !! self) as [a|] eqn:Ha.
  - pose proof (wait_steps self s) as W. unfold exec in *.
    pose proof (wait_Ok _ _ _ Ha) as Ew. rewrite Ew in W. cbn [snd] in W.
    pose proof (waited_lookup _ _ _ Ha) as Hw.
    destruct m as [key| |]; cbn [materialize];
      unfold Array.__getitem__, Array.__array__, Array.__str__;
      rewrite (bind_Ok _ _ _ _ _ Ew);
      rewrite (bind_Ok _ _ _ _ _ (load_Ok _ _ _ Hw)).
    + destruct (Array.key_ok (shape (with_job a None)) key); [|exact W].
      eapply rtc_r; [exact W|]. apply step_read.
    + exact W.
    + eapply rtc_r; [exact W|]. apply step_read.
  - unfold exec. destruct m as [key| |]; cbn [materialize];
      unfold Array.__getitem__, Array.__array__, Array.__str__, Array.wait;
      rewrite (bind_Raise _ _ _ _ _
                 (bind_Raise _ _ _ _ _ (load_None _ _ Ha)));
      apply rtc_refl.
Qed.

Lemma perform_steps act s : rtc step s (perform act s).
Proof.
  destruct act as [c|g data sh|m self|self key value|self]; cbn [perform].
  - apply call_steps.
  - unfold exec. destruct data as [d|]; [|destruct sh as [sh|]].
    + apply rtc_once. apply (step_new s g (nd_shape d) true).
    + apply rtc_once. apply (step_new s g sh false).
    + apply rtc_refl.
  - apply materialize_steps.
  - unfold exec, Array.__setitem__.
    destruct (heap s !! self) as [a|] eqn:Ha.
    + rewrite (bind_Ok _ _ _ _ _ (load_Ok _ _ _ Ha)).
      destruct (Array.key_ok (shape a) key); [|apply rtc_refl].
      apply rtc_once. apply step_write.
    + rewrite (bind_Raise _ _ _ _ _ (load_None _ _ Ha)). apply rtc_refl.
  - apply wait_steps.
Qed.

Lemma perform_all_steps acts s : rtc step s (perform_all acts s).
Proof.
  revert s. induction acts as [|act acts IH]; intros s; cbn.
  - apply rtc_refl.
  - etransitivity; [apply perform_steps|apply IH].
Qed.

(** ** The invariant holds along every step *)

Lemma submitted_jobs_snoc t e :
  submitted_jobs (t ++ [e])
  = submitted_jobs t ++ match e with
                        | EvSubmit _ _ _ _ _ _ j => [j]
                        | _ => []
                        end.
Proof. unfold submitted_jobs. rewrite omap_app. destruct e; reflexivity. Qed.

Lemma compiled_keys_snoc t e :
  compiled_keys (t ++ [e])
  = compiled_keys t ++ match e with
                       | EvCreateOp g _ sg => [(g, sg)]
                       | _ => []
                       end.
Proof. unfold compiled_keys. rewrite omap_app. destruct e; reflexivity. Qed.

Lemma each_event_nil P : each_event P [].
Proof. intros pre e post H. destruct pre; discriminate. Qed.

Lemma each_event_snoc P t x :
  each_event P t -> P t x -> each_event P (t ++ [x]).
Proof.
  intros Ht Hx pre e post H.
  destruct post as [|y post _] using rev_ind.
  - apply (app_inj_tail t pre x e) in H as [-> ->]. exact Hx.
  - rewrite app_comm_cons, app_assoc in H.
    apply app_inj_tail in H as [-> _]. eapply Ht. reflexivity.
Qed.

Lemma elem_of_snoc {A} (t : list A) x e : e ∈ t ++ [x] <-> e ∈ t \/ e = x.
Proof. rewrite elem_of_app, list_elem_of_singleton. reflexivity. Qed.

Lemma session_inv_empty : session_inv empty_state.
Proof.
  assert (forall r a, heap empty_state !! r = Some a -> False) as E
    by (intros r a H; cbn in H; rewrite lookup_empty in H; discriminate).
  constructor.
  - intros r a H. destruct (E _ _ H).
  - intros r a H. destruct (E _ _ H).
  - intros r1 r2 a1 a2 H. destruct (E _ _ H).
  - intros r a j H. destruct (E _ _ H).
  - intros r1 r2 a1 a2 j H. destruct (E _ _ H).
  - intros j. cbn. split; intros H;
      [apply elem_of_empty in H|apply elem_of_nil in H]; destruct H.
  - apply each_event_nil.
  - intros g sg h. cbn. rewrite lookup_empty. split; [discriminate|].
    intros H. apply elem_of_nil in H. destruct H.
  - intros g sg h H. apply elem_of_nil in H. destruct H.
  - constructor.
  - apply each_event_nil.
  - apply each_event_nil.
  - intros r a j H. destruct (E _ _ H).
Qed.

Lemma waits_snoc t e :
  waits (t ++ [e])
  = waits t ++ match e with EvJobWait j => [j] | _ => [] end.
Proof. unfold waits. rewrite omap_app. destruct e; reflexivity. Qed.

(** An event that neither compiles nor submits keeps the invariant; a
    wait must be for a submitted job that is no longer pending and was
    not waited for before. *)
Lemma inv_add_silent s e :
  session_inv s ->
  is_submit e = false ->
  (forall g h sg, e <> EvCreateOp g h sg) ->
  waits_after_submit (trace s) e ->
  (forall j r a, e = EvJobWait j -> heap s !! r = Some a -> job a <> Some j) ->
  session_inv (add_event e s).
Proof.
  intros [Hz Hal Hex Hp Hpd Hj Hord Hc Hcp Honce Hsc Hw Hwp] Hs Hn Hwe Hnp.
  assert (submitted_jobs (trace s ++ [e]) = submitted_jobs (trace s)) as Ej.
  { rewrite submitted_jobs_snoc. destruct e; try discriminate; apply app_nil_r. }
  assert (compiled_keys (trace s ++ [e]) = compiled_keys (trace s)) as Ek.
  { rewrite compiled_keys_snoc.
    destruct e; try apply app_nil_r. destruct (Hn _ _ _ eq_refl). }
  constructor; cbn [heap buffers jobs op_cache compiled trace add_event].
  - exact Hz.
  - exact Hal.
  - exact Hex.
  - intros r a j Ha Hjb.
    destruct (Hp r a j Ha Hjb) as (g & h & bufs & ds & ps & sems & Hin & Hb).
    exists g, h, bufs, ds, ps, sems. split; [|exact Hb].
    apply elem_of_snoc. auto.
  - exact Hpd.
  - intros j. rewrite Ej. apply Hj.
  - apply each_event_snoc; [exact Hord|]. destruct e; try exact I. discriminate.
  - intros g sg h. rewrite Hc, elem_of_snoc. split; [auto|].
    intros [H|H]; [exact H|]. destruct (Hn _ _ _ (eq_sym H)).
  - intros g sg h H. apply elem_of_snoc in H as [H|H]; [auto|].
    destruct (Hn _ _ _ (eq_sym H)).
  - rewrite Ek. exact Honce.
  - apply each_event_snoc; [exact Hsc|]. destruct e; try exact I. discriminate.
  - apply each_event_snoc; [exact Hw|exact Hwe].
  - intros r a j Ha Hjb. rewrite waits_snoc. apply not_elem_of_app.
    split; [eauto|]. destruct e; try apply not_elem_of_nil.
    intros Hin. apply list_elem_of_singleton in Hin as ->.
    exact (Hnp _ _ _ eq_refl Ha Hjb).
Qed.

(** Forgetting the pending job of an Array keeps the invariant. *)
Lemma inv_clear_job s r a :
  session_inv s -> heap s !! r = Some a ->
  session_inv (set_heap <[r := with_job a None]> s).
Proof.
  intros [Hz Hal Hex Hp Hpd Hj Hord Hc Hcp Honce Hsc Hw Hwp] Ha.
  assert (forall r' a', <[r := with_job a None]> (heap s) !! r' = Some a' ->
            exists a0, heap s !! r' = Some a0 /\ buffer a' = buffer a0 /\
                       shape a' = shape a0 /\
                       (job a' = None \/ job a' = job a0)) as Old.
  { intros r' a' H. destruct (decide (r = r')) as [<-|N].
    - rewrite lookup_insert_eq in H. injection H as <-.
      exists a. cbn. auto.
    - rewrite lookup_insert_ne in H by exact N. exists a'. auto. }
  constructor; cbn [heap buffers jobs op_cache compiled trace set_heap];
    try assumption.
  - intros r' a' H. destruct (Old _ _ H) as (a0 & H0 & Eb & Es & _).
    rewrite Eb, Es. eauto.
  - intros r' a' H. destruct (Old _ _ H) as (a0 & H0 & Eb & _).
    rewrite Eb. eauto.
  - intros r1 r2 a1 a2 H1 H2 E.
    destruct (Old _ _ H1) as (b1 & G1 & E1 & _).
    destruct (Old _ _ H2) as (b2 & G2 & E2 & _).
    rewrite E1, E2 in E. eauto.
  - intros r' a' j H Hjb.
    destruct (Old _ _ H) as (a0 & H0 & Eb & _ & [Hn|Hn]);
      [rewrite Hn in Hjb; discriminate|].
    rewrite Eb. rewrite Hn in Hjb. eauto.
  - intros r1 r2 a1 a2 j H1 H2 J1 J2.
    destruct (Old _ _ H1) as (b1 & G1 & _ & _ & [N1|N1]);
      [rewrite N1 in J1; discriminate|].
    destruct (Old _ _ H2) as (b2 & G2 & _ & _ & [N2|N2]);
      [rewrite N2 in J2; discriminate|].
    rewrite N1 in J1. rewrite N2 in J2. eauto.
  - intros r' a' j H Hjb.
    destruct (Old _ _ H) as (a0 & H0 & _ & _ & [Hn|Hn]);
      [rewrite Hn in Hjb; discriminate|].
    rewrite Hn in Hjb. eauto.
Qed.

Lemma inv_new s g sh (from_data : bool) :
  session_inv s ->
  session_inv
    (set_heap <[fresh (dom (heap s)) := new_array s g sh]>
       (add_event (if from_data then EvToBuffer g (new_buffer s sh)
                   else EvCreateBuffer g (new_buffer s sh))
          (set_buffers (union {[fresh (buffers s)]}) s))).
Proof.
  intros I.
  assert (session_inv
            (add_event (if from_data then EvToBuffer g (new_buffer s sh)
                        else EvCreateBuffer g (new_buffer s sh)) s)) as I1.
  { apply inv_add_silent;
      [exact I|destruct from_data; reflexivity| |destruct from_data; constructor|].
    - intros g' h sg. destruct from_data; discriminate.
    - intros j r a E. destruct from_data; discriminate. }
  destruct I1 as [Hz Hal Hex Hp Hpd Hj Hord Hc Hcp Honce Hsc Hw Hwp].
  cbn [heap buffers jobs op_cache compiled trace add_event] in *.
  assert (forall r a, <[fresh (dom (heap s)) := new_array s g sh]> (heap s) !! r
                      = Some a ->
            (r = fresh (dom (heap s)) /\ a = new_array s g sh) \/
            (r <> fresh (dom (heap s)) /\ heap s !! r = Some a)) as Cases.
  { intros r a H. destruct (decide (fresh (dom (heap s)) = r)) as [<-|N].
    - rewrite lookup_insert_eq in H. injection H as <-. auto.
    - rewrite lookup_insert_ne in H by exact N. auto. }
  constructor;
    cbn [heap buffers jobs op_cache compiled trace add_event set_heap
         set_buffers]; try assumption.
  - intros r a H. destruct (Cases _ _ H) as [[-> ->]|[_ H0]];
      [reflexivity|eauto].
  - intros r a H. destruct (Cases _ _ H) as [[-> ->]|[_ H0]].
    + apply elem_of_union. left. apply elem_of_singleton. reflexivity.
    + apply elem_of_union. right. eauto.
  - intros r1 r2 a1 a2 H1 H2 E.
    pose proof (is_fresh (buffers s)) as F.
    destruct (Cases _ _ H1) as [[-> ->]|[N1 G1]];
      destruct (Cases _ _ H2) as [[-> ->]|[N2 G2]].
    + reflexivity.
    + exfalso. apply F. cbn in E. rewrite E. eauto.
    + exfalso. apply F. cbn in E. rewrite <- E. eauto.
    + eauto.
  - intros r a j H Hjb. destruct (Cases _ _ H) as [[-> ->]|[_ H0]];
      [discriminate|eauto].
  - intros r1 r2 a1 a2 j H1 H2 J1 J2.
    destruct (Cases _ _ H1) as [[-> ->]|[N1 G1]]; [discriminate|].
    destruct (Cases _ _ H2) as [[-> ->]|[N2 G2]]; [discriminate|].
    eauto.
  - intros r a j H Hjb. destruct (Cases _ _ H) as [[-> ->]|[_ H0]];
      [discriminate|eauto].
Qed.

Lemma submitted_jobs_elem t g h bufs ds ps sems j :
  EvSubmit g h bufs ds ps sems j ∈ t -> j ∈ submitted_jobs t.
Proof.
  intros H. unfold submitted_jobs. apply list_elem_of_omap.
  eexists. split; [exact H|reflexivity].
Qed.

Lemma compiled_keys_elem t g sg :
  (g, sg) ∈ compiled_keys t <-> exists h, EvCreateOp g h sg ∈ t.
Proof.
  unfold compiled_keys. rewrite list_elem_of_omap. split.
  - intros (e & Hin & He). destruct e; try discriminate.
    injection He as -> ->. eauto.
  - intros (h & Hin). eexists. split; [exact Hin|reflexivity].
Qed.

Lemma inv_compile s g sg :
  session_inv s -> op_cache s !! (g, sg) = None ->
  session_inv
    (set_op_cache <[(g, sg) := fresh (dom (compiled s))]>
       (add_event (EvCreateOp g (fresh (dom (compiled s))) sg)
          (set_compiled <[fresh (dom (compiled s)) := (g, sg)]> s))).
Proof.
  intros [Hz Hal Hex Hp Hpd Hj Hord Hc Hcp Honce Hsc Hw Hwp] Hmiss.
  constructor;
    cbn [heap buffers jobs op_cache compiled trace add_event set_op_cache
         set_compiled]; try assumption.
  - intros r a j Ha Hjb.
    destruct (Hp r a j Ha Hjb) as (g' & h & bufs & ds & ps & sems & Hin & Hb).
    exists g', h, bufs, ds, ps, sems. split; [|exact Hb].
    apply elem_of_snoc. auto.
  - intros j. rewrite submitted_jobs_snoc, app_nil_r. apply Hj.
  - apply each_event_snoc; [exact Hord|exact I].
  - intros g' sg' h. rewrite elem_of_snoc.
    destruct (decide ((g, sg) = (g', sg'))) as [E|N].
    + injection E as <- <-. rewrite lookup_insert_eq. split.
      * intros [= <-]. auto.
      * intros [H|H]; [|injection H as ->; reflexivity].
        apply Hc in H. rewrite Hmiss in H. discriminate.
    + rewrite lookup_insert_ne by exact N. rewrite Hc. split; [auto|].
      intros [H|H]; [exact H|]. injection H as -> _ ->. destruct N. reflexivity.
  - intros g' sg' h H. apply elem_of_snoc in H as [H|H].
    + pose proof (Hcp _ _ _ H) as K. rewrite lookup_insert_ne; [exact K|].
      intros <-. apply (is_fresh (dom (compiled s))), elem_of_dom. eauto.
    + injection H as -> -> ->. apply lookup_insert_eq.
  - rewrite compiled_keys_snoc. apply NoDup_app. split; [exact Honce|].
    split; [|apply NoDup_singleton].
    intros x Hx Hin. apply list_elem_of_singleton in Hin as ->.
    apply compiled_keys_elem in Hx as [h Hh].
    apply Hc in Hh. rewrite Hmiss in Hh. discriminate.
  - apply each_event_snoc; [exact Hsc|exact I].
  - apply each_event_snoc; [exact Hw|exact I].
  - intros r a j Ha Hjb. rewrite waits_snoc, app_nil_r. eauto.
Qed.

Lemma live_elem s rs objs r a :
  live s rs objs -> r ∈ rs -> heap s !! r = Some a -> a ∈ objs.
Proof.
  intros Hl Hin Ha. apply list_elem_of_lookup in Hin as [i Hi].
  destruct (Forall2_lookup_l _ _ _ _ _ Hl Hi) as (a' & Ha' & Hh).
  rewrite Ha in Hh. injection Hh as <-.
  eapply list_elem_of_lookup_2, Ha'.
Qed.

Lemma waits_submitted t j :
  each_event waits_after_submit t -> j ∈ waits t -> j ∈ submitted_jobs t.
Proof.
  intros Hw Hin. unfold waits in Hin. apply list_elem_of_omap in Hin
    as (e & He & Hj). destruct e; try discriminate. injection Hj as ->.
  apply list_elem_of_split in He as (pre & post & ->).
  destruct (Hw pre _ post eq_refl) as [H _].
  unfold submitted_jobs. rewrite omap_app. apply elem_of_app. auto.
Qed.

Lemma inv_submit s target a rs objs g sg h ds :
  session_inv s ->
  live s rs objs -> target ∈ rs -> heap s !! target = Some a ->
  op_cache s !! (g, sg) = Some h -> sig_n sg = length objs ->
  session_inv
    (set_heap <[target := with_job a (Some (fresh (jobs s)))]>
       (add_event (EvSubmit g h (map buffer objs) ds (sig_params sg)
                     (Array.semaphores_of objs) (fresh (jobs s)))
          (set_jobs (union {[fresh (jobs s)]}) s))).
Proof.
  intros [Hz Hal Hex Hp Hpd Hj Hord Hc Hcp Honce Hsc Hw Hwp] Hl Ht Ha Hhit Hn.
  set (j := fresh (jobs s)).
  assert (j ∉ submitted_jobs (trace s)) as Fj
    by (intros H; apply Hj in H; exact (is_fresh _ H)).
  assert (forall r' a', <[target := with_job a (Some j)]> (heap s) !! r' = Some a' ->
            (r' = target /\ a' = with_job a (Some j)) \/
            (r' <> target /\ heap s !! r' = Some a')) as Cases.
  { intros r' a' H. destruct (decide (target = r')) as [<-|N].
    - rewrite lookup_insert_eq in H. injection H as <-. auto.
    - rewrite lookup_insert_ne in H by exact N. auto. }
  assert (forall r' a' j', heap s !! r' = Some a' -> job a' = Some j' -> j' <> j)
    as Old.
  { intros r' a' j' H Hjb ->.
    destruct (Hp _ _ _ H Hjb) as (? & ? & ? & ? & ? & ? & Hin & _).
    apply Fj. eapply submitted_jobs_elem, Hin. }
  constructor;
    cbn [heap buffers jobs op_cache compiled trace add_event set_heap
         set_jobs]; try assumption.
  - intros r' a' H. destruct (Cases _ _ H) as [[-> ->]|[_ H0]]; cbn; eauto.
  - intros r' a' H. destruct (Cases _ _ H) as [[-> ->]|[_ H0]]; cbn; eauto.
  - intros r1 r2 a1 a2 H1 H2 E.
    destruct (Cases _ _ H1) as [[-> ->]|[N1 G1]];
      destruct (Cases _ _ H2) as [[-> ->]|[N2 G2]]; cbn in E; eauto.
  - intros r' a' j' H Hjb.
    destruct (Cases _ _ H) as [[-> ->]|[_ H0]].
    + cbn in Hjb. injection Hjb as <-.
      exists g, h, (map buffer objs), ds, (sig_params sg),
        (Array.semaphores_of objs).
      split; [apply elem_of_snoc; auto|]. cbn.
      apply (list_elem_of_fmap_2 buffer).
      eapply live_elem; eassumption.
    + destruct (Hp _ _ _ H0 Hjb) as (g' & h' & bufs & ds' & ps & sems & Hin & Hb).
      exists g', h', bufs, ds', ps, sems. split; [|exact Hb].
      apply elem_of_snoc. auto.
  - intros r1 r2 a1 a2 j' H1 H2 J1 J2.
    destruct (Cases _ _ H1) as [[-> ->]|[N1 G1]];
      destruct (Cases _ _ H2) as [[-> ->]|[N2 G2]].
    + reflexivity.
    + cbn in J1. injection J1 as <-. destruct (Old _ _ _ G2 J2 eq_refl).
    + cbn in J2. injection J2 as <-. destruct (Old _ _ _ G1 J1 eq_refl).
    + eauto.
  - intros j'. rewrite submitted_jobs_snoc, elem_of_union, elem_of_singleton,
      elem_of_snoc, Hj. tauto.
  - apply each_event_snoc; [exact Hord|]. split; [exact Fj|].
    intros x Hx. apply (live_pending s rs objs x Hl) in Hx
      as (r & a0 & _ & H0 & Hjb).
    destruct (Hp _ _ _ H0 Hjb) as (? & ? & ? & ? & ? & ? & Hin & _).
    eapply submitted_jobs_elem, Hin.
  - intros g' sg' h'. rewrite Hc, elem_of_snoc. split; [auto|].
    intros [H|H]; [exact H|discriminate].
  - intros g' sg' h' H. apply elem_of_snoc in H as [H|H]; [auto|discriminate].
  - rewrite compiled_keys_snoc, app_nil_r. exact Honce.
  - apply each_event_snoc; [exact Hsc|].
    exists sg. split; [apply Hc, Hhit|]. split; [|reflexivity].
    rewrite Hn. symmetry. apply List.length_map.
  - apply each_event_snoc; [exact Hw|exact I].
  - intros r' a' j' H Hjb. rewrite waits_snoc, app_nil_r.
    destruct (Cases _ _ H) as [[-> ->]|[_ H0]]; [|eauto].
    cbn in Hjb. injection Hjb as <-. intros Hin.
    apply Fj. eapply waits_submitted; eassumption.
Qed.

Lemma inv_wait s r a j :
  session_inv s -> heap s !! r = Some a -> job a = Some j ->
  session_inv (set_heap <[r := with_job a None]> (add_event (EvJobWait j) s)).
Proof.
  intros I Ha Hjb.
  pose proof (inv_clear_job s r a I Ha) as I0.
  change (session_inv
            (add_event (EvJobWait j) (set_heap <[r := with_job a None]> s))).
  destruct I as [Hz Hal Hex Hp Hpd Hj Hord Hc Hcp Honce Hsc Hw Hwp].
  apply inv_add_silent; [exact I0|reflexivity|discriminate| |].
  - cbn. split; [|eauto].
    destruct (Hp _ _ _ Ha Hjb) as (? & ? & ? & ? & ? & ? & Hin & _).
    eapply submitted_jobs_elem, Hin.
  - intros j' r' a' [= <-] H' Hj'. cbn in H'.
    destruct (decide (r = r')) as [<-|N].
    + rewrite lookup_insert_eq in H'. injection H' as <-. discriminate.
    + rewrite lookup_insert_ne in H' by exact N.
      apply N. eapply Hpd; eassumption.
Qed.

Lemma step_inv s s' : step s s' -> session_inv s -> session_inv s'.
Proof.
  intros H I. destruct H.
  - apply inv_new, I.
  - apply inv_compile; assumption.
  - eapply inv_submit; eassumption.
  - apply inv_wait; assumption.
  - apply inv_add_silent; [exact I|reflexivity|discriminate|constructor|discriminate].
  - apply inv_add_silent; [exact I|reflexivity|discriminate|constructor|discriminate].
Qed.

Lemma steps_inv s s' : rtc step s s' -> session_inv s -> session_inv s'.
Proof. induction 1; eauto using step_inv. Qed.

Lemma reachable_inv s : reachable s -> session_inv s.
Proof.
  intros [acts ->]. eapply steps_inv; [apply perform_all_steps|].
  apply session_inv_empty.
Qed.

(** ** Allocation *)


(** ** Failure *)



(** X3. [a @ b] with an operand of rank 0 never reaches the device: when
    the other operand has rank above 3 it raises the shape [ValueError],
    otherwise indexing the empty shape raises [IndexError]; either way
    the state is unchanged. *)
Theorem matmul_rank0_raises self other s a b :
  heap s !! self = Some a ->
  heap s !! other = Some b ->
  shape a = [] \/ shape b = [] ->
  Array.__matmul__ self other s
  = (Raise (if bool_decide ((3 < length (shape a))%nat \/
                            (3 < length (shape b))%nat)
            then ValueError_IncompatibleShapes (shape a) (shape b)
            else IndexError), s).
Proof.
  intros Ha Hb H. case_bool_decide as D.
  - apply (matmul_raises self other s a b Ha Hb). tauto.
  - apply (matmul_index_error self other s a b Ha Hb); [lia..|exact H].
Qed.

Lemma matmul_rank0_raises_witness :
  heap rank0_state !! 0%nat = Some (mkArray 0%nat [] (mkBuffer 0%nat 1) None) /\
  Array.__matmul__ 0%nat 0%nat rank0_state = (Raise IndexError, rank0_state).
Proof.
  assert (heap rank0_state !! 0%nat
          = Some (mkArray 0%nat [] (mkBuffer 0%nat 1) None)) as H
    by (vm_compute; reflexivity).
  split; [exact H|].
  apply (matmul_rank0_raises 0%nat 0%nat rank0_state _ _ H H). left. reflexivity.
Defined.

(** ** What a call submits *)

(** X4. An in-place call allocates nothing and changes one field of one
    object: the pending job of [self] becomes the new job, which no
    earlier submission returned.  Its submission lists the buffer of
    [self] first, and is preceded by a compilation at most. *)
Theorem in_place_writes_self_only c s objs :
  in_place c = true ->
  live s (operands c) objs ->
  shapes_ok c objs ->
  exists s' a j g h bufs ds ps sems evs,
    run c s = (Ok (result_of c (self_of c)), s') /\
    heap s !! self_of c = Some a /\
    heap s' = <[self_of c := with_job a (Some j)]> (heap s) /\
    buffers s' = buffers s /\
    (j ∉ jobs s) /\
    trace s' = trace s ++ evs
               ++ [EvSubmit g h (buffer a :: bufs) ds ps sems j] /\
    (evs = [] \/ exists sg, evs = [EvCreateOp g h sg]).
Proof.
  intros Hip Hl Hs.
  destruct (run_dispatched c s objs Hl Hs) as (target & s' & Er & D).
  unfold dispatched in D. rewrite Hip in D.
  destruct D as (a & rest & s1 & h & j & -> & -> & L & ->).
  destruct (operands_self c) as [rs Eo]. rewrite Eo in Hl.
  destruct (live_cons_inv _ _ _ _ Hl) as (a' & rest' & Eq & Ha & _).
  injection Eq as <- <-.
  destruct (launched_trace _ _ _ _ _ _ _ _ _ L) as (evs & Ht & _ & _ & Hev & _).
  pose proof L as (Hh & Hb & Hj & _).
  exists (set_heap <[self_of c := with_job a (Some j)]> s1), a, j, (_gpu a), h,
    (map buffer rest).
  do 3 eexists. exists evs.
  split; [exact Er|]. split; [exact Ha|].
  split; [cbn; rewrite Hh; reflexivity|]. split; [exact Hb|].
  split; [rewrite Hj; apply is_fresh|]. split; [exact Ht|].
  destruct Hev as [->| ->]; eauto.
Qed.

Lemma in_place_writes_self_only_witness :
  exists s' j,
    run (Unary Sqrt true 3%nat) demo_pending_state = (Ok None, s') /\
    heap s' = <[3%nat := mkArray 0%nat [2; 3] (mkBuffer 3%nat 6) (Some j)]>
                (heap demo_pending_state) /\
    buffers s' = buffers demo_pending_state.
Proof.
  destruct (in_place_writes_self_only (Unary Sqrt true 3%nat)
              demo_pending_state
              [mkArray 0%nat [2; 3] (mkBuffer 3%nat 6) (Some 2%nat)])
    as (s' & a & j & g & h & bufs & ds & ps & sems & evs
        & Er & Ha & Hh & Hb & _).
  - reflexivity.
  - repeat constructor; vm_compute; reflexivity.
  - cbn. constructor.
  - assert (Some a = Some (mkArray 0%nat [2; 3] (mkBuffer 3%nat 6) (Some 2%nat)))
      as Ea by (rewrite <- Ha; vm_compute; reflexivity).
    injection Ea as ->. exists s', j. auto.
Defined.

(** X5. The buffers of a submission are those of the operands in operand
    order, [self] first, followed for an out-of-place call by the buffer
    of the result, which is the Array the call returns; an elementwise
    call packs the element count of [self] with its scalars in argument
    order (for clamp: the minimum, the maximum, or both, minimum first). *)
Theorem submission_buffers_and_parameters c s objs :
  live s (operands c) objs ->
  shapes_ok c objs ->
  exists target s' a w pre g h ds ps sems j,
    run c s = (Ok (result_of c target), s') /\
    heap s !! self_of c = Some a /\
    heap s' !! target = Some w /\
    trace s' = pre ++ [EvSubmit g h
                         (map buffer objs
                          ++ if in_place c then [] else [buffer w])
                         ds ps sems j] /\
    head (map buffer objs) = Some (buffer a) /\
    (is_matmul c = false -> ps = packing c (buf_size (buffer a))).
Proof.
  intros Hl Hs.
  destruct (run_dispatched c s objs Hl Hs) as (target & s' & Er & D).
  destruct (dispatch_summary _ _ _ _ _ _ _ _ _ D)
    as (a & rest & h & j & evs & -> & Ht & Hh & Htr & _).
  destruct (operands_self c) as [rs Eo]. rewrite Eo in Hl.
  destruct (live_cons_inv _ _ _ _ Hl) as (a' & rest' & Eq & Ha & _).
  injection Eq as <- <-.
  exists target, s', a. eexists. exists (trace s ++ evs), (_gpu a), h.
  do 3 eexists. exists j.
  split; [exact Er|]. split; [exact Ha|].
  split; [rewrite Hh; apply lookup_insert_eq|].
  split.
  { rewrite Htr, app_assoc. destruct (in_place c); reflexivity. }
  split; [reflexivity|].
  intros M. unfold signature. rewrite M. reflexivity.
Qed.

Lemma submission_buffers_and_parameters_witness :
  exists target s' w pre g h ds sems j,
    run (Clamp 3%nat (OFloat 1) (OArray 2%nat) false) demo_pending_state
    = (Ok (Some target), s') /\
    heap s' !! target = Some w /\
    trace s' = pre ++ [EvSubmit g h
                         [mkBuffer 3%nat 6; mkBuffer 2%nat 6; buffer w]
                         ds (VectorScalarParams 6 1) sems j].
Proof.
  destruct (submission_buffers_and_parameters
              (Clamp 3%nat (OFloat 1) (OArray 2%nat) false) demo_pending_state
              [mkArray 0%nat [2; 3] (mkBuffer 3%nat 6) (Some 2%nat);
               mkArray 0%nat [2; 3] (mkBuffer 2%nat 6) (Some 0%nat)])
    as (target & s' & a & w & pre & g & h & ds & ps & sems & j
        & Er & Ha & Hw & Ht & _ & Hp).
  - repeat constructor; vm_compute; reflexivity.
  - cbn. repeat constructor.
  - assert (Some a = Some (mkArray 0%nat [2; 3] (mkBuffer 3%nat 6) (Some 2%nat)))
      as Ea by (rewrite <- Ha; vm_compute; reflexivity).
    injection Ea as ->. rewrite (Hp eq_refl) in Ht.
    exists target, s', w, pre, g, h, ds, sems, j. auto.
Defined.

(** ** Over a whole session *)

Lemma perform_all_reachable acts : reachable (perform_all acts empty_state).
Proof. exists acts. reflexivity. Qed.

(** X6. In every state reached from a new session by allocations,
    operator calls, reads, writes and waits (a reachable state), an
    Array's buffer has as many elements as its shape has, was allocated
    by the backend, and is the buffer of no other Array. *)
Theorem array_owns_sized_buffer acts r a :
  heap (perform_all acts empty_state) !! r = Some a ->
  buf_size (buffer a) = Array.prod (shape a) /\
  buf_id (buffer a) ∈ buffers (perform_all acts empty_state) /\
  forall r' a',
    heap (perform_all acts empty_state) !! r' = Some a' ->
    buf_id (buffer a') = buf_id (buffer a) -> r' = r.
Proof.
  intros Ha.
  destruct (reachable_inv _ (perform_all_reachable acts))
    as [Hz Hal Hex _ _ _ _ _ _ _ _ _ _].
  split; [eapply Hz, Ha|]. split; [eapply Hal, Ha|].
  intros r' a' Ha' E. eapply Hex; eassumption.
Qed.

Lemma array_owns_sized_buffer_witness :
  heap demo_state !! 3%nat
  = Some (mkArray 0%nat [2; 3] (mkBuffer 3%nat 6) None) /\
  6 = Array.prod [2; 3] /\
  3%nat ∈ buffers demo_state.
Proof.
  assert (heap demo_state !! 3%nat
          = Some (mkArray 0%nat [2; 3] (mkBuffer 3%nat 6) None)) as H
    by (vm_compute; reflexivity).
  split; [exact H|].
  destruct (array_owns_sized_buffer demo_session 3%nat _ H) as (Hs & Hb & _).
  split; [exact Hs|exact Hb].
Defined.

Lemma step_keeps s s' r a :
  step s s' -> heap s !! r = Some a ->
  exists a', heap s' !! r = Some a' /\ _gpu a' = _gpu a /\
             shape a' = shape a /\ buffer a' = buffer a.
Proof.
  assert (forall t b j,
            heap s !! t = Some b -> heap s !! r = Some a ->
            exists a', <[t := with_job b j]> (heap s) !! r = Some a' /\
                       _gpu a' = _gpu a /\ shape a' = shape a /\
                       buffer a' = buffer a) as Upd.
  { intros t b j Hb Ha. destruct (decide (t = r)) as [->|N].
    - rewrite lookup_insert_eq. rewrite Ha in Hb. injection Hb as <-.
      eexists. split; [reflexivity|]. auto.
    - rewrite lookup_insert_ne by exact N. eauto. }
  intros H Ha. destruct H; cbn [heap set_heap add_event set_buffers set_jobs
                               set_op_cache set_compiled]; eauto.
  - exists a. split; [|auto]. rewrite lookup_insert_ne; [exact Ha|].
    intros <-. rewrite fresh_ref_None in Ha. discriminate.
Qed.

Lemma steps_keep s s' r a :
  rtc step s s' -> heap s !! r = Some a ->
  exists a', heap s' !! r = Some a' /\ _gpu a' = _gpu a /\
             shape a' = shape a /\ buffer a' = buffer a.
Proof.
  intros H. revert a. induction H as [s|s s1 s2 H1 _ IH]; intros a Ha; [eauto|].
  destruct (step_keeps _ _ _ _ H1 Ha) as (a1 & Ha1 & Eg & Es & Eb).
  destruct (IH _ Ha1) as (a2 & Ha2 & Eg2 & Es2 & Eb2).
  exists a2. split; [exact Ha2|]. rewrite Eg2, Es2, Eb2. auto.
Qed.

(** X7. No action removes an Array or rebinds its device, shape or
    buffer: whatever the client does next, operators, allocations,
    reads, writes and waits, an Array stays live with the buffer it was
    created with; only its pending job can change. *)
Theorem arrays_keep_their_buffer acts s r a :
  heap s !! r = Some a ->
  exists a',
    heap (perform_all acts s) !! r = Some a' /\
    _gpu a' = _gpu a /\ shape a' = shape a /\ buffer a' = buffer a.
Proof. apply steps_keep, perform_all_steps. Qed.

Lemma arrays_keep_their_buffer_witness :
  exists a',
    heap (perform_all (drop 2 demo_session) (two_arrays [2; 3] [2; 3])) !! 0%nat
    = Some a' /\
    buffer a' = mkBuffer 0%nat 6.
Proof.
  destruct (arrays_keep_their_buffer (drop 2 demo_session)
              (two_arrays [2; 3] [2; 3]) 0%nat
              (mkArray 0%nat [2; 3] (mkBuffer 0%nat 6) None))
    as (a' & Ha' & _ & _ & Eb).
  - vm_compute. reflexivity.
  - exists a'. auto.
Defined.

(** X8. In every reachable state the pending job of an Array is the job
    of a submission that had the Array's buffer among its buffers; the
    host has not waited for it, and it is pending on no other Array. *)
Theorem pending_job_provenance acts r a j :
  heap (perform_all acts empty_state) !! r = Some a ->
  job a = Some j ->
  (exists g h bufs ds ps sems,
      EvSubmit g h bufs ds ps sems j ∈ trace (perform_all acts empty_state) /\
      buffer a ∈ bufs) /\
  (j ∉ waits (trace (perform_all acts empty_state))) /\
  forall r' a',
    heap (perform_all acts empty_state) !! r' = Some a' ->
    job a' = Some j -> r' = r.
Proof.
  intros Ha Hj.
  destruct (reachable_inv _ (perform_all_reachable acts))
    as [_ _ _ Hp Hpd _ _ _ _ _ _ _ Hwp].
  split; [eapply Hp; eassumption|]. split; [eapply Hwp; eassumption|].
  intros r' a' Ha' Hj'. eapply Hpd; eassumption.
Qed.

Lemma pending_job_provenance_witness :
  heap demo_pending_state !! 3%nat
  = Some (mkArray 0%nat [2; 3] (mkBuffer 3%nat 6) (Some 2%nat)) /\
  exists g h bufs ds ps sems,
    EvSubmit g h bufs ds ps sems 2%nat ∈ trace demo_pending_state /\
    mkBuffer 3%nat 6 ∈ bufs.
Proof.
  assert (heap demo_pending_state !! 3%nat
          = Some (mkArray 0%nat [2; 3] (mkBuffer 3%nat 6) (Some 2%nat))) as H
    by (vm_compute; reflexivity).
  split; [exact H|].
  exact (proj1 (pending_job_provenance (take 5 demo_session) 3%nat _ 2%nat
                  H eq_refl)).
Defined.

(** X9. In the trace of every reachable state a submission returns a
    job that no earlier submission returned, and every job it waits for
    was returned by an earlier submission: dependencies point backwards,
    so they cannot form a cycle. *)
Theorem dependencies_point_backwards acts pre g h bufs ds ps sems j post :
  trace (perform_all acts empty_state)
  = pre ++ EvSubmit g h bufs ds ps sems j :: post ->
  (j ∉ submitted_jobs pre) /\
  forall x, x ∈ sems -> x ∈ submitted_jobs pre.
Proof.
  intros H.
  destruct (reachable_inv _ (perform_all_reachable acts))
    as [_ _ _ _ _ _ Hord _ _ _ _ _ _].
  exact (Hord _ _ _ H).
Qed.

Lemma dependencies_point_backwards_witness :
  (2%nat ∉ submitted_jobs (take 9 (trace demo_pending_state))) /\
  forall x, x ∈ [1%nat; 0%nat] ->
            x ∈ submitted_jobs (take 9 (trace demo_pending_state)).
Proof.
  apply (dependencies_point_backwards (take 5 demo_session)
           (take 9 (trace demo_pending_state)) 0%nat 2%nat
           [mkBuffer 3%nat 6; mkBuffer 2%nat 6] (mkDataShape 6 1 1)
           (VectorParams 6) [1%nat; 0%nat] 2%nat []).
  vm_compute. reflexivity.
Defined.

(** X10. In the trace of every reachable state no device and signature
    is compiled twice, the cache holds exactly the compiled operations,
    and every submission runs an operation compiled earlier in the trace
    on its device, for its number of buffers and its parameters. *)
Theorem compiled_once_and_before_use acts :
  NoDup (compiled_keys (trace (perform_all acts empty_state))) /\
  (forall g sg h,
     op_cache (perform_all acts empty_state) !! (g, sg) = Some h <->
     EvCreateOp g h sg ∈ trace (perform_all acts empty_state)) /\
  forall pre g h bufs ds ps sems j post,
    trace (perform_all acts empty_state)
    = pre ++ EvSubmit g h bufs ds ps sems j :: post ->
    exists sg, EvCreateOp g h sg ∈ pre /\
               sig_n sg = length bufs /\ sig_params sg = ps.
Proof.
  destruct (reachable_inv _ (perform_all_reachable acts))
    as [_ _ _ _ _ _ _ Hc _ Honce Hsc _ _].
  split; [exact Honce|]. split; [exact Hc|].
  intros pre g h bufs ds ps sems j post H. exact (Hsc _ _ _ H).
Qed.

Lemma compiled_once_and_before_use_witness :
  NoDup (compiled_keys (trace demo_state)) /\
  exists sg, EvCreateOp 0%nat 2%nat sg ∈ take 9 (trace demo_state) /\
             sig_n sg = 2%nat /\ sig_params sg = VectorParams 6.
Proof.
  destruct (compiled_once_and_before_use demo_session) as (Hn & _ & Hs).
  split; [exact Hn|].
  apply (Hs (take 9 (trace demo_state)) 0%nat 2%nat
           [mkBuffer 3%nat 6; mkBuffer 2%nat 6] (mkDataShape 6 1 1)
           (VectorParams 6) [1%nat; 0%nat] 2%nat (drop 10 (trace demo_state))).
  vm_compute. reflexivity.
Defined.

(** X11. In the trace of every reachable state the host waits only for a
    job that a submission has returned before, and for no job twice. *)
Theorem waits_follow_submissions acts pre j post :
  trace (perform_all acts empty_state) = pre ++ EvJobWait j :: post ->
  j ∈ submitted_jobs pre /\ (j ∉ waits pre).
Proof.
  intros H.
  destruct (reachable_inv _ (perform_all_reachable acts))
    as [_ _ _ _ _ _ _ _ _ _ _ Hw _].
  exact (Hw _ _ _ H).
Qed.

Lemma waits_follow_submissions_witness :
  2%nat ∈ submitted_jobs (take 10 (trace demo_state)) /\
  (2%nat ∉ waits (take 10 (trace demo_state))).
Proof.
  apply (waits_follow_submissions demo_session (take 10 (trace demo_state))
           2%nat [EvHostRead (mkBuffer 3%nat 6) (KInt 0)]).
  vm_compute. reflexivity.
Defined.

(** X12. In a reachable state a call waits for the pending job of an
    Array exactly when that Array is one of its operands: work pending
    on Arrays the call does not use never delays it. The job the call
    returns is none of the jobs submitted before. *)
Theorem call_waits_for_operands_only acts c objs t a j :
  live (perform_all acts empty_state) (operands c) objs ->
  shapes_ok c objs ->
  heap (perform_all acts empty_state) !! t = Some a ->
  job a = Some j ->
  exists target s' pre g h bufs ds ps sems j',
    run c (perform_all acts empty_state) = (Ok (result_of c target), s') /\
    trace s' = pre ++ [EvSubmit g h bufs ds ps sems j'] /\
    (j ∈ sems <-> t ∈ operands c) /\
    (j' ∉ submitted_jobs (trace (perform_all acts empty_state))).
Proof.
  intros Hl Hs Ha Hj.
  destruct (reachable_inv _ (perform_all_reachable acts))
    as [_ _ _ _ Hpd Hjobs _ _ _ _ _ _ _].
  destruct (run_dispatched c _ objs Hl Hs) as (target & s' & Er & D).
  assert ((j ∈ Array.semaphores_of objs <-> t ∈ operands c)) as Hiff.
  { rewrite (live_pending _ _ _ j Hl). split.
    - intros (r & a' & Hin & Ha' & Hj').
      rewrite (Hpd _ _ _ _ _ Ha Ha' Hj Hj'). exact Hin.
    - intros Hin. eauto. }
  assert (fresh (jobs (perform_all acts empty_state))
          ∉ submitted_jobs (trace (perform_all acts empty_state))) as Hnew.
  { rewrite <- Hjobs. apply is_fresh. }
  unfold dispatched, dispatch in D.
  destruct D as (a0 & rest & s1 & h & j' & _ & D).
  exists target, s'.
  destruct (in_place c).
  - destruct D as (_ & L & ->).
    destruct (launched_trace _ _ _ _ _ _ _ _ _ L) as (evs & Ht & _).
    destruct L as (_ & _ & -> & _).
    eexists (_ ++ evs). do 7 eexists.
    split; [exact Er|].
    split; [cbn [trace set_heap]; rewrite Ht; apply app_assoc|].
    split; [exact Hiff|exact Hnew].
  - destruct D as (_ & L & ->).
    destruct (launched_trace _ _ _ _ _ _ _ _ _ L) as (evs & Ht & _).
    destruct L as (_ & _ & -> & _).
    eexists (_ ++ evs). do 7 eexists.
    split; [exact Er|].
    split; [cbn [trace set_heap]; rewrite Ht; apply app_assoc|].
    split; [exact Hiff|exact Hnew].
Qed.

Lemma call_waits_for_operands_only_witness :
  exists target s' pre g h bufs ds ps sems j',
    run (Unary Sqrt false 2%nat) demo_pending_state = (Ok (Some target), s') /\
    trace s' = pre ++ [EvSubmit g h bufs ds ps sems j'] /\
    (2%nat ∈ sems <-> 3%nat ∈ [2%nat]).
Proof.
  destruct (call_waits_for_operands_only (take 5 demo_session)
              (Unary Sqrt false 2%nat)
              [mkArray 0%nat [2; 3] (mkBuffer 2%nat 6) (Some 0%nat)]
              3%nat (mkArray 0%nat [2; 3] (mkBuffer 3%nat 6) (Some 2%nat))
              2%nat)
    as (target & s' & pre & g & h & bufs & ds & ps & sems & j'
        & Er & Ht & Hi & _).
  - repeat constructor; vm_compute; reflexivity.
  - cbn. constructor.
  - vm_compute. reflexivity.
  - reflexivity.
  - exists target, s', pre, g, h, bufs, ds, ps, sems, j'. auto.
Defined.

(** ** What a kernel is launched on *)

Lemma live_in_heap s rs objs b :
  live s rs objs -> b ∈ objs -> exists r, heap s !! r = Some b.
Proof.
  intros Hl Hin. apply list_elem_of_lookup in Hin as [i Hi].
  destruct (Forall2_lookup_r _ _ _ _ _ Hl Hi) as (r & _ & Hh). eauto.
Qed.

(** X13. In a reachable state every buffer handed to an elementwise
    kernel, operands and result alike, has exactly as many elements as
    [self]; that count is the x extent of the launch and the size packed
    into the parameters, so no invocation indexes past a buffer. *)
Theorem elementwise_buffers_match_launch acts c objs :
  is_matmul c = false ->
  live (perform_all acts empty_state) (operands c) objs ->
  shapes_ok c objs ->
  exists target s' a pre g h bufs sems j,
    run c (perform_all acts empty_state) = (Ok (result_of c target), s') /\
    heap (perform_all acts empty_state) !! self_of c = Some a /\
    trace s' = pre ++ [EvSubmit g h bufs
                         (mkDataShape (Array.prod (shape a)) 1 1)
                         (packing c (Array.prod (shape a))) sems j] /\
    Forall (fun b => buf_size b = Array.prod (shape a)) bufs.
Proof.
  intros M Hl Hs.
  destruct (reachable_inv _ (perform_all_reachable acts))
    as [Hz _ _ _ _ _ _ _ _ _ _ _ _].
  destruct (run_dispatched c _ objs Hl Hs) as (target & s' & Er & D).
  unfold dispatched in D.
  destruct (dispatch_summary _ _ _ _ _ _ _ _ _ D)
    as (a & rest & h & j & evs & -> & Ht & Hh & Htr & _).
  destruct (operands_self c) as [rs Eo].
  pose proof Hl as Hl0. rewrite Eo in Hl0.
  destruct (live_cons_inv _ _ _ _ Hl0) as (a' & rest' & Eq & Ha & _).
  injection Eq as <- <-.
  pose proof (Hz _ _ Ha) as Za.
  exists target, s', a. eexists (_ ++ evs). do 5 eexists.
  split; [exact Er|]. split; [exact Ha|].
  split.
  { rewrite Htr, app_assoc. unfold data_shape, signature. rewrite M. cbn.
    rewrite Za. reflexivity. }
  cbn [shapes_ok] in Hs. rewrite M in Hs.
  constructor; [exact Za|].
  apply Forall_app. split.
  - apply Forall_forall. intros b Hb.
    apply list_elem_of_fmap in Hb as (o & -> & Ho).
    assert (o ∈ a :: rest) as Ho' by (right; exact Ho).
    destruct (live_in_heap _ _ _ _ Hl Ho') as (r & Hr).
    rewrite (Hz _ _ Hr).
    rewrite Forall_forall in Hs. rewrite (Hs _ Ho). reflexivity.
  - destruct (in_place c); [constructor|].
    repeat constructor. rewrite M. reflexivity.
Qed.

Lemma elementwise_buffers_match_launch_witness :
  exists target s' pre g h bufs sems j,
    run (Clamp 3%nat (OFloat 1) (OArray 2%nat) false) demo_pending_state
    = (Ok (Some target), s') /\
    trace s' = pre ++ [EvSubmit g h bufs (mkDataShape 6 1 1)
                         (VectorScalarParams 6 1) sems j] /\
    Forall (fun b => buf_size b = 6) bufs.
Proof.
  destruct (elementwise_buffers_match_launch (take 5 demo_session)
              (Clamp 3%nat (OFloat 1) (OArray 2%nat) false)
              [mkArray 0%nat [2; 3] (mkBuffer 3%nat 6) (Some 2%nat);
               mkArray 0%nat [2; 3] (mkBuffer 2%nat 6) (Some 0%nat)])
    as (target & s' & a & pre & g & h & bufs & sems & j & Er & Ha & Ht & Hf).
  - reflexivity.
  - repeat constructor; vm_compute; reflexivity.
  - cbn. repeat constructor.
  - assert (Some a = Some (mkArray 0%nat [2; 3] (mkBuffer 3%nat 6) (Some 2%nat)))
      as Ea by (rewrite <- Ha; vm_compute; reflexivity).
    injection Ea as ->.
    exists target, s', pre, g, h, bufs, sems, j. auto.
Defined.

Lemma matmul_launch self other s a b :
  heap s !! self = Some a -> heap s !! other = Some b ->
  (1 <= length (shape a) <= 3)%nat -> (1 <= length (shape b) <= 3)%nat ->
  last (shape a) = head (shape b) ->
  exists target s' pre h j,
    Array.__matmul__ self other s = (Ok target, s') /\
    heap s' !! target
    = Some (with_job (new_array s (_gpu a) (matmul_shape (shape a) (shape b)))
              (Some j)) /\
    trace s' = pre ++ [EvSubmit (_gpu a) h
                         [buffer a; buffer b;
                          new_buffer s (matmul_shape (shape a) (shape b))]
                         (mkDataShape (rowA_of (shape a))
                            (columnB_of (shape b)) 1)
                         (MatMulParams (rowA_of (shape a))
                            (contractSize_of (shape a))
                            (columnB_of (shape b)))
                         (Array.semaphores_of [a; b]) j].
Proof.
  intros Ha Hb La Lb E.
  destruct (matmul_spec self other s a b Ha Hb La Lb E) as (s' & Er & D).
  unfold dispatched in D.
  destruct (dispatch_summary _ _ _ _ _ _ _ _ _ D)
    as (a0 & rest & h & j & evs & Eq & _ & Hh & Htr & _).
  injection Eq as <- <-.
  exists (fresh (dom (heap s))), s', (trace s ++ evs), h, j.
  split; [exact Er|].
  split; [rewrite Hh; apply lookup_insert_eq|].
  rewrite Htr, app_assoc. reflexivity.
Qed.

(** X14. [a @ b] on operands of rank 1 or 2 in a reachable state: the
    launch has one invocation per element of the result (rows times
    columns is the size of the result's buffer), and rows times
    contraction and contraction times columns are the sizes of the
    buffers of [a] and [b]. *)
Theorem matmul_launch_covers_buffers acts self other a b :
  heap (perform_all acts empty_state) !! self = Some a ->
  heap (perform_all acts empty_state) !! other = Some b ->
  (1 <= length (shape a) <= 2)%nat ->
  (1 <= length (shape b) <= 2)%nat ->
  last (shape a) = head (shape b) ->
  exists target s' pre g h br rows k cols sems j,
    Array.__matmul__ self other (perform_all acts empty_state)
    = (Ok target, s') /\
    trace s' = pre ++ [EvSubmit g h [buffer a; buffer b; br]
                         (mkDataShape rows cols 1)
                         (MatMulParams rows k cols) sems j] /\
    buf_size (buffer a) = rows * k /\
    buf_size (buffer b) = k * cols /\
    buf_size br = rows * cols.
Proof.
  intros Ha Hb La Lb E.
  destruct (reachable_inv _ (perform_all_reachable acts))
    as [Hz _ _ _ _ _ _ _ _ _ _ _ _].
  destruct (matmul_launch self other _ a b Ha Hb) as
    (target & s' & pre & h & j & Er & _ & Ht); [lia|lia|exact E|].
  exists target, s', pre. do 8 eexists.
  split; [exact Er|]. split; [exact Ht|].
  rewrite (Hz _ _ Ha), (Hz _ _ Hb).
  unfold new_buffer, matmul_shape, rowA_of, columnB_of, contractSize_of.
  cbn [buf_size].
  destruct (shape a) as [|m [|k [|]]]; cbn in La; try lia;
    destruct (shape b) as [|k' [|n [|]]]; cbn in Lb; try lia;
    cbn in E; injection E as <-; cbn;
    repeat case_bool_decide; try lia; cbn; lia.
Qed.

Lemma matmul_launch_covers_buffers_witness :
  exists target s' pre g h br rows k cols sems j,
    Array.__matmul__ 0%nat 1%nat (two_arrays [2; 3] [3; 4]) = (Ok target, s') /\
    trace s' = pre ++ [EvSubmit g h [mkBuffer 0%nat 6; mkBuffer 1%nat 12; br]
                         (mkDataShape rows cols 1)
                         (MatMulParams rows k cols) sems j] /\
    6 = rows * k /\ 12 = k * cols /\ buf_size br = rows * cols.
Proof.
  apply (matmul_launch_covers_buffers
           [ANew 0%nat None (Some [2; 3]); ANew 0%nat None (Some [3; 4])]
           0%nat 1%nat
           (mkArray 0%nat [2; 3] (mkBuffer 0%nat 6) None)
           (mkArray 0%nat [3; 4] (mkBuffer 1%nat 12) None)).
  - vm_compute. reflexivity.
  - vm_compute. reflexivity.
  - cbn. lia.
  - cbn. lia.
  - reflexivity.
Defined.

(** X15. [a @ b] accepts a left operand of rank 3: for [a] of shape
    (p, m, k) and [b] of shape (k, n) the result has shape (p, m, n),
    while the kernel is launched with p rows, the first dimension of
    [a], and n columns: p times n invocations for a result of m times p
    times n elements. *)
Theorem matmul_rank3_rows_are_first_dimension acts self other a b p m k n :
  heap (perform_all acts empty_state) !! self = Some a ->
  heap (perform_all acts empty_state) !! other = Some b ->
  shape a = [p; m; k] ->
  shape b = [k; n] ->
  exists target s' w pre g h sems j,
    Array.__matmul__ self other (perform_all acts empty_state)
    = (Ok target, s') /\
    heap s' !! target = Some w /\
    shape w = [p; m; n] /\
    trace s' = pre ++ [EvSubmit g h [buffer a; buffer b; buffer w]
                         (mkDataShape p n 1) (MatMulParams p k n) sems j] /\
    buf_size (buffer a) = m * (p * k) /\
    buf_size (buffer w) = m * (p * n).
Proof.
  intros Ha Hb Sa Sb.
  destruct (reachable_inv _ (perform_all_reachable acts))
    as [Hz _ _ _ _ _ _ _ _ _ _ _ _].
  destruct (matmul_launch self other _ a b Ha Hb) as
    (target & s' & pre & h & j & Er & Hw & Ht).
  { rewrite Sa. cbn. lia. }
  { rewrite Sb. cbn. lia. }
  { rewrite Sa, Sb. reflexivity. }
  rewrite Sa, Sb in Ht, Hw.
  change (matmul_shape [p; m; k] [k; n]) with [p; m; n] in Ht, Hw.
  change (rowA_of [p; m; k]) with p in Ht.
  change (columnB_of [k; n]) with n in Ht.
  change (contractSize_of [p; m; k]) with k in Ht.
  exists target, s'. eexists. exists pre. do 4 eexists.
  split; [exact Er|]. split; [exact Hw|].
  split; [reflexivity|]. split; [exact Ht|].
  rewrite (Hz _ _ Ha), Sa. cbn. lia.
Qed.

Lemma matmul_rank3_rows_are_first_dimension_witness :
  exists target s' w pre g h sems j,
    Array.__matmul__ 0%nat 1%nat (two_arrays [2; 5; 3] [3; 4])
    = (Ok target, s') /\
    heap s' !! target = Some w /\
    shape w = [2; 5; 4] /\
    trace s' = pre ++ [EvSubmit g h [mkBuffer 0%nat 30; mkBuffer 1%nat 12;
                                     buffer w]
                         (mkDataShape 2 4 1) (MatMulParams 2 3 4) sems j] /\
    buf_size (buffer w) = 40.
Proof.
  destruct (matmul_rank3_rows_are_first_dimension
              [ANew 0%nat None (Some [2; 5; 3]); ANew 0%nat None (Some [3; 4])]
              0%nat 1%nat
              (mkArray 0%nat [2; 5; 3] (mkBuffer 0%nat 30) None)
              (mkArray 0%nat [3; 4] (mkBuffer 1%nat 12) None) 2 5 3 4)
    as (target & s' & w & pre & g & h & sems & j & Er & Hw & Sw & Ht & _ & Zw).
  - vm_compute. reflexivity.
  - vm_compute. reflexivity.
  - reflexivity.
  - reflexivity.
  - exists target, s', w, pre, g, h, sems, j. auto.
Defined.

(** ** Reading *)

(** X16. A read with a key the host array rejects raises [IndexError]
    after the wait: the pending job of the Array has been waited for and
    cleared, so unlike a failing operator a failing read changes the
    Array. A write with such a key raises [IndexError] and changes
    nothing. *)
Theorem rejected_key_read_has_waited self key v s a :
  heap s !! self = Some a ->
  Array.key_ok (shape a) key = false ->
  (exists s',
     Array.__getitem__ self key s = (Raise IndexError, s') /\
     heap s' = <[self := with_job a None]> (heap s) /\
     trace s' = trace s
                ++ match job a with Some j => [EvJobWait j] | None => [] end) /\
  Array.__setitem__ self key v s = (Raise IndexError, s).
Proof.
  intros Ha Hk. split.
  - exists (waited self a s).
    split; [|split; [apply waited_heap, Ha|apply waited_trace]].
    unfold Array.__getitem__.
    rewrite (bind_Ok _ _ _ _ _ (wait_Ok _ _ _ Ha)).
    rewrite (bind_Ok _ _ _ _ _ (load_Ok _ _ _ (waited_lookup _ _ _ Ha))).
    cbn [shape with_job]. rewrite Hk. reflexivity.
  - unfold Array.__setitem__.
    rewrite (bind_Ok _ _ _ _ _ (load_Ok _ _ _ Ha)).
    rewrite Hk. reflexivity.
Qed.

Lemma rejected_key_read_has_waited_witness :
  exists s',
    Array.__getitem__ 0%nat (KInt 3) pending_state = (Raise IndexError, s') /\
    heap s' = <[0%nat := mkArray 0%nat [3] (mkBuffer 0%nat 3) None]>
                (heap pending_state) /\
    trace s' = trace pending_state ++ [EvJobWait 0%nat].
Proof.
  apply (rejected_key_read_has_waited 0%nat (KInt 3) 0 pending_state
           (mkArray 0%nat [3] (mkBuffer 0%nat 3) (Some 0%nat))).
  - vm_compute. reflexivity.
  - reflexivity.
Defined.

(** X17. Reading the result of a call waits for the job of that call and
    for nothing else: the trace continues with the submission, the wait
    for its job and the host's reads; the result then has no pending
    job, and every other Array, the operands included, is as it was
    before the call, pending job and all. *)
Theorem reading_a_result_waits_for_its_job c m s objs :
  live s (operands c) objs ->
  shapes_ok c objs ->
  exists target s' evs g h bufs ds ps sems j reads w,
    run c s = (Ok (result_of c target), s') /\
    trace (exec (materialize m target) s')
    = trace s ++ evs
      ++ [EvSubmit g h bufs ds ps sems j; EvJobWait j] ++ reads /\
    waits evs = [] /\ waits reads = [] /\
    heap (exec (materialize m target) s') !! target = Some w /\
    job w = None /\
    forall r a,
      r <> target -> heap s !! r = Some a ->
      heap (exec (materialize m target) s') !! r = Some a.
Proof.
  intros Hl Hs.
  destruct (run_dispatched c s objs Hl Hs) as (target & s' & Er & D).
  unfold dispatched in D.
  destruct (dispatch_summary _ _ _ _ _ _ _ _ _ D)
    as (a & rest & h & j & evs & -> & _ & Hh & Htr & _ & Hw & _).
  assert (exists w0, heap s' !! target = Some w0 /\ job w0 = Some j)
    as (w0 & Hw0 & Hj0).
  { eexists. split; [rewrite Hh; apply lookup_insert_eq|reflexivity]. }
  destruct (materialize_spec m target s' w0 Hw0) as (reads & Hh2 & Ht2 & Hr).
  exists target, s', evs. do 6 eexists. exists j, reads, (with_job w0 None).
  split; [exact Er|].
  split.
  { rewrite Ht2, Hj0, Htr, <- !app_assoc. reflexivity. }
  split; [exact Hw|]. split; [exact Hr|].
  split; [rewrite Hh2; apply lookup_insert_eq|].
  split; [reflexivity|].
  intros r b N Hb.
  rewrite Hh2, lookup_insert_ne, Hh, lookup_insert_ne by auto. exact Hb.
Qed.

Lemma reading_a_result_waits_for_its_job_witness :
  exists target s' evs g h bufs ds ps sems j reads,
    run (Binary Mul false 2%nat (OArray 3%nat)) demo_pending_state
    = (Ok (Some target), s') /\
    trace (exec (materialize MStr target) s')
    = trace demo_pending_state ++ evs
      ++ [EvSubmit g h bufs ds ps sems j; EvJobWait j] ++ reads /\
    heap (exec (materialize MStr target) s') !! 3%nat
    = Some (mkArray 0%nat [2; 3] (mkBuffer 3%nat 6) (Some 2%nat)).
Proof.
  destruct (reading_a_result_waits_for_its_job
              (Binary Mul false 2%nat (OArray 3%nat)) MStr demo_pending_state
              [mkArray 0%nat [2; 3] (mkBuffer 2%nat 6) (Some 0%nat);
               mkArray 0%nat [2; 3] (mkBuffer 3%nat 6) (Some 2%nat)])
    as (target & s' & evs & g & h & bufs & ds & ps & sems & j & reads & w
        & Er & Ht & _ & _ & Hw & _ & Hk).
  - repeat constructor; vm_compute; reflexivity.
  - cbn. repeat constructor.
  - exists target, s', evs, g, h, bufs, ds, ps, sems, j, reads.
    split; [exact Er|]. split; [exact Ht|].
    apply Hk; [|vm_compute; reflexivity].
    intros <-. pose proof (f_equal fst Er) as E1.
    vm_compute in E1. discriminate E1.
Defined.

(** ** The device of a call *)

(** X18. A call never compares the devices of its operands: the kernel
    is compiled for and submitted on the GPU of [self], whatever GPU the
    other operands were allocated on, and an out-of-place result is
    allocated on the GPU of [self] too. *)
Theorem call_runs_on_the_device_of_self c s objs :
  live s (operands c) objs ->
  shapes_ok c objs ->
  exists target s' a w pre h bufs ds ps sems j,
    run c s = (Ok (result_of c target), s') /\
    heap s !! self_of c = Some a /\
    heap s' !! target = Some w /\
    _gpu w = _gpu a /\
    trace s' = pre ++ [EvSubmit (_gpu a) h bufs ds ps sems j] /\
    op_cache s' !! (_gpu a, signature c objs) = Some h.
Proof.
  intros Hl Hs.
  destruct (run_dispatched c s objs Hl Hs) as (target & s' & Er & D).
  unfold dispatched in D.
  destruct (dispatch_summary _ _ _ _ _ _ _ _ _ D)
    as (a & rest & h & j & evs & -> & _ & Hh & Htr & _ & _ & Hc & _).
  destruct (operands_self c) as [rs Eo]. rewrite Eo in Hl.
  destruct (live_cons_inv _ _ _ _ Hl) as (a' & rest' & Eq & Ha & _).
  injection Eq as <- <-.
  exists target, s', a. eexists. exists (trace s ++ evs), h.
  do 4 eexists. exists j.
  split; [exact Er|]. split; [exact Ha|].
  split; [rewrite Hh; apply lookup_insert_eq|].
  split; [destruct (in_place c); reflexivity|].
  split; [rewrite Htr, app_assoc; reflexivity|exact Hc].
Qed.

Lemma call_runs_on_the_device_of_self_witness :
  heap (perform_all [ANew 0%nat None (Some [3]); ANew 1%nat None (Some [3])]
          empty_state) !! 1%nat
  = Some (mkArray 1%nat [3] (mkBuffer 1%nat 3) None) /\
  exists target s' w pre h bufs ds ps sems j,
    run (Binary Add false 0%nat (OArray 1%nat))
      (perform_all [ANew 0%nat None (Some [3]); ANew 1%nat None (Some [3])]
         empty_state)
    = (Ok (Some target), s') /\
    heap s' !! target = Some w /\
    _gpu w = 0%nat /\
    trace s' = pre ++ [EvSubmit 0%nat h bufs ds ps sems j].
Proof.
  split; [vm_compute; reflexivity|].
  destruct (call_runs_on_the_device_of_self
              (Binary Add false 0%nat (OArray 1%nat))
              (perform_all
                 [ANew 0%nat None (Some [3]); ANew 1%nat None (Some [3])]
                 empty_state)
              [mkArray 0%nat [3] (mkBuffer 0%nat 3) None;
               mkArray 1%nat [3] (mkBuffer 1%nat 3) None])
    as (target & s' & a & w & pre & h & bufs & ds & ps & sems & j
        & Er & Ha & Hw & Hg & Ht & _).
  - repeat constructor; vm_compute; reflexivity.
  - cbn. repeat constructor.
  - assert (Some a = Some (mkArray 0%nat [3] (mkBuffer 0%nat 3) None))
      as Ea by (rewrite <- Ha; vm_compute; reflexivity).
    injection Ea as ->.
    exists target, s', w, pre, h, bufs, ds, ps, sems, j. auto.
Defined.
